(** * The Interval Watchtower (submit-rewards-tree task) of the smartnode daemon

    A shallow embedding of [watchtower/submit-rewards-tree.go]
    ([src/unnamed/part_000]): the interval clock, the consensus snapshot
    selector, the execution reference resolver, the generation guard, the
    local artifact store, the publish pipeline and the on-chain submitter,
    followed by the properties the specification states about them. *)

From Stdlib Require Import ZArith Lia List Bool SpecFloat.
From stdpp Require Import gmap strings list.

Local Open Scope Z_scope.

(** ** Go machine integers *)

Module GoInt.

(** A [uint64] is a [Z] in [0, 2^64); arithmetic wraps. *)
Definition wrap_u64 (z : Z) : Z := z mod 2 ^ 64.

(** An [int64] is a [Z] in [-2^63, 2^63); arithmetic wraps. *)
Definition wrap_i64 (z : Z) : Z := (z + 2 ^ 63) mod 2 ^ 64 - 2 ^ 63.

Definition is_u64 (z : Z) : Prop := 0 <= z < 2 ^ 64.
Definition is_i64 (z : Z) : Prop := - 2 ^ 63 <= z < 2 ^ 63.

Definition maxInt64 : Z := 2 ^ 63 - 1.
Definition minInt64 : Z := - 2 ^ 63.

(** [a / b] on [int64]: truncated toward zero; [None] is the run-time
    panic (integer divide by zero). *)
Definition div_i64 (a b : Z) : option Z :=
  if b =? 0 then None else Some (wrap_i64 (Z.quot a b)).

Definition mul_i64 (a b : Z) : Z := wrap_i64 (a * b).

(** [a / b] on [uint64]; [None] is the divide-by-zero panic. *)
Definition div_u64 (a b : Z) : option Z :=
  if b =? 0 then None else Some (a / b).

Definition add_u64 (a b : Z) : Z := wrap_u64 (a + b).
Definition sub_u64 (a b : Z) : Z := wrap_u64 (a - b).
Definition mul_u64 (a b : Z) : Z := wrap_u64 (a * b).

(** [big.Int.Uint64]: the low 64 bits of the absolute value. *)
Definition big_Uint64 (z : Z) : Z := wrap_u64 (Z.abs z).

End GoInt.

(** ** Go's [time] package, as far as the watchtower uses it *)

Module GoTime.
Import GoInt.

(** A [time.Duration] is an [int64] count of nanoseconds. *)
Definition Duration := Z.

Definition Second : Duration := 10 ^ 9.

(** A [time.Time] built by [time.Unix(sec, nsec)] is an instant; it is
    kept here as nanoseconds since the Unix epoch.  Go stores seconds in an
    [int64] of its own, so an instant has a far wider range than a
    [Duration]. *)
Definition Time := Z.

(** [time.Unix(sec, 0)] *)
Definition Unix (sec : Z) : Time := sec * Second.

(** [t.Sub(u)]: the difference, saturated to the [Duration] range. *)
Definition Sub (t u : Time) : Duration :=
  if t - u <? minInt64 then minInt64
  else if maxInt64 <? t - u then maxInt64
  else t - u.

(** [t.Add(d)] *)
Definition Add (t : Time) (d : Duration) : Time := t + d.

End GoTime.

(** ** IEEE-754 binary64, as Go's [float64] *)

Module Float64.
Import GoInt.

Definition prec : Z := 53.
Definition emax : Z := 1024.

Definition float64 := spec_float.

(** [float64(z)] for an integer [z]: round to nearest, ties to even. *)
Definition of_int (z : Z) : float64 := binary_normalize prec emax z 0 false.

Definition add (x y : float64) : float64 := SFadd prec emax x y.
Definition div (x y : float64) : float64 := SFdiv prec emax x y.

(** [math.Ceil]: the least integer value not below [x]; zeros, infinities
    and NaN are returned as they are, and a value in (-1, 0) gives -0. *)
Definition ceil (x : float64) : float64 :=
  match x with
  | S754_finite s m e =>
      if 0 <=? e then x
      else
        let d := 2 ^ (- e) in
        let n := if s then - (Z.pos m / d) else - ((- Z.pos m) / d) in
        binary_normalize prec emax n 0 s
  | _ => x
  end.

(** [uint64(x)]: the fraction is discarded.  Where the value does not fit
    (negative, 2^64 or more, infinite, NaN) the Go specification leaves the
    result to the implementation: [arch] is that result. *)
Definition to_uint64 (arch : float64 -> Z) (x : float64) : Z :=
  match x with
  | S754_zero _ => 0
  | S754_finite false m e =>
      let v := if 0 <=? e then Z.pos m * 2 ^ e else Z.pos m / 2 ^ (- e) in
      if v <? 2 ^ 64 then v else wrap_u64 (arch x)
  | S754_finite true m e =>
      if (0 <=? e) || (2 ^ (- e) <=? Z.pos m) then wrap_u64 (arch x) else 0
  | _ => wrap_u64 (arch x)
  end.

(** [d.Seconds()] of a [time.Duration]:
    [sec := d / Second; nsec := d % Second; float64(sec) + float64(nsec)/1e9] *)
Definition Duration_Seconds (d : Z) : float64 :=
  let sec := Z.quot d GoTime.Second in
  let nsec := Z.rem d GoTime.Second in
  add (of_int sec) (div (of_int nsec) (of_int (10 ^ 9))).

End Float64.

(** ** Data of the watchtower and of its collaborators *)

Module Types.
Import GoInt GoTime.

Definition bytes := list Byte.byte.

(** A 20-byte account address and a 32-byte hash, as their bytes. *)
Definition Address := bytes.
Definition Hash := bytes.

(** Go [error] values.  [fmt.Errorf("msg: %w", err)] keeps its cause. *)
Inductive error :=
| ErrExternal (who : string)
| ErrWrap (msg : string) (cause : error)
| ErrWaitFinalized (endTime : Time) (slot epoch required finalized : Z)
| ErrNoApiToken
| ErrNotExist (path : string).

(** What a call gives back: a value, a non-nil [error], or a run-time
    panic.  [NoFuel] is not an answer of the program: a loop that Go runs
    without bound is unrolled a given number of times here, and [NoFuel]
    says that this number was not enough. *)
Inductive result (A : Type) :=
| Ok (a : A)
| Err (e : error)
| Panic
| NoFuel.
Arguments Ok {A} a.
Arguments Err {A} e.
Arguments Panic {A}.
Arguments NoFuel {A}.

(** What a collaborator answers: a value, or a non-nil [error]. *)
Inductive answer (A : Type) :=
| Got (a : A)
| Failed (e : error).
Arguments Got {A} a.
Arguments Failed {A} e.

Definition is_Ok {A} (r : result A) : bool :=
  match r with Ok _ => true | _ => false end.
Definition is_Err {A} (r : result A) : bool :=
  match r with Err _ => true | _ => false end.

(** [config.RewardsMode] *)
Inductive RewardsMode := RewardsMode_Unknown | RewardsMode_Download | RewardsMode_Generate.

Definition RewardsMode_eqb (a b : RewardsMode) : bool :=
  match a, b with
  | RewardsMode_Unknown, RewardsMode_Unknown
  | RewardsMode_Download, RewardsMode_Download
  | RewardsMode_Generate, RewardsMode_Generate => true
  | _, _ => false
  end.

(** [types.Header]: the fields read here. *)
Record Header := { Number : Z; HeaderTime : Z }.

(** [beacon.Eth2Config], [beacon.BeaconHead], [beacon.BeaconBlock]; all
    fields are [uint64]. *)
Record Eth2Config := {
  GenesisTime : Z;
  SecondsPerSlot : Z;
  SlotsPerEpoch : Z;
  SecondsPerEpoch : Z
}.
Record BeaconHead := { FinalizedEpoch : Z }.
Record BeaconBlock := { ExecutionBlockNumber : Z }.

(** [rprewards.RewardsFile] and its parts; amounts are [big.Int]. *)
Record NetworkRewardsInfo := {
  CollateralRpl : Z;
  OracleDaoRpl : Z;
  SmoothingPoolEth : Z
}.
Record TotalRewardsInfo := { ProtocolDaoRpl : Z }.
Record MinipoolPerformanceFile := { PerfIndex : Z; PerfRecords : list (Address * Z) }.
Record RewardsFile := {
  MerkleRoot : string;
  NetworkRewards : gmap Z NetworkRewardsInfo;
  TotalRewards : TotalRewardsInfo;
  MinipoolPerformance : MinipoolPerformanceFile;
  MinipoolPerformanceFileCID : string;
  (** [InvalidNetworkNodes], in the order the [range] statement visits it *)
  InvalidNetworkNodes : list (Address * Z)
}.

Definition set_MinipoolPerformanceFileCID (cid : string) (f : RewardsFile) : RewardsFile :=
  {| MerkleRoot := MerkleRoot f;
     NetworkRewards := NetworkRewards f;
     TotalRewards := TotalRewards f;
     MinipoolPerformance := MinipoolPerformance f;
     MinipoolPerformanceFileCID := cid;
     InvalidNetworkNodes := InvalidNetworkNodes f |}.

(** [rewards.RewardSubmission] *)
Record RewardSubmission := {
  RewardIndex : Z;
  ExecutionBlock : Z;
  ConsensusBlock : Z;
  SubMerkleRoot : Hash;
  MerkleTreeCID : string;
  IntervalsPassed : Z;
  TreasuryRPL : Z;
  NodeRPL : list Z;
  TrustedNodeRPL : list Z;
  NodeETH : list Z
}.

(** [bind.TransactOpts]: the fields set here. *)
Record TransactOpts := {
  From : Address;
  GasFeeCap : Z;
  GasTipCap : Z;
  GasLimit : Z
}.

(** [rocketpool.GasInfo] *)
Record GasInfo := { EstGasLimit : Z; SafeGasLimit : Z }.

(** The arguments of [rprewards.NewRewardsFile]. *)
Record NewRewardsFileArgs := {
  nrfIndex : Z;
  nrfStartTime : Time;
  nrfEndTime : Time;
  nrfConsensusBlock : Z;
  nrfElHeader : Header;
  nrfIntervalsPassed : Z
}.

(** What [ioutil.WriteFile] did: it wrote everything, or it failed and
    left the file untouched ([None]) or created with some content. *)
Inductive WriteOutcome :=
| WriteOk
| WriteErr (e : error) (residue : option bytes).

(** What the background task captures from [run]. *)
Record Task := {
  tkIntervalsPassed : Z;
  tkCurrentIndex : Z;
  tkCurrentIndexBig : Z;
  tkSnapshotBeaconBlock : Z;
  tkElBlockIndex : Z;
  tkSnapshotElBlockHeader : Header;
  tkStartTime : Time;
  tkEndTime : Time;
  tkNodeTrusted : bool;
  tkPath : string;
  tkCompressedPath : string;
  tkMinipoolPerformancePath : string;
  tkCompressedMinipoolPerformancePath : string
}.

(** Lines written through [t.log]. *)
Inductive logmsg :=
| LogChecking
| LogAlreadyRunning
| LogTreeExists (index : Z) (path : string)
| LogResubmitting (index : Z) (path : string)
| LogUploadedCid (cid : string)
| LogSubmitted (index : Z)
| LogWarnIntervals (n : Z)
| LogStarting (index slot elBlock : Z) (startTime endTime : Time)
| LogUsingArchive (url : string)
| LogInvalidNetwork (a : Address) (network : Z)
| LogUploadingPerformance
| LogUploadedPerformance (cid : string)
| LogSavedPerformance
| LogGenerationComplete
| LogUploadingTree
| LogUploadedTree (cid : string)
| LogSubmittedBackground (index : Z)
| LogGeneratedBackground (index : Z)
| LogSlotMissing (slot : Z).

(** What the task does that can be seen from outside, in order. *)
Inductive event :=
| EvLog (m : logmsg)
| EvErrLog (e : error)
| EvErrLogFailed
| EvLock
| EvUnlock
| EvReadRunning (b : bool)
| EvSetRunning (b : bool)
| EvHeaderByNumber (n : option Z)
| EvHeaderForTime (t : Time)
| EvGetBeaconBlock (slot : Z)
| EvStat (path : string)
| EvReadFile (path : string)
| EvWriteFile (path : string) (data : bytes) (ok : bool)
| EvCreate (path : string) (ok : bool)
| EvFileWrite (path : string) (data : bytes) (ok : bool)
| EvPut (data : bytes) (ok : bool)
| EvGenerateTree (args : NewRewardsFileArgs) (archive : bool)
| EvEstimateGas (s : RewardSubmission)
| EvSubmitTx (s : RewardSubmission) (o : TransactOpts)
| EvWaitTx (h : Hash)
| EvGo (tk : Task).

(** The collaborators the watchtower calls, each as the answer it gives. *)
Record Env := {
  (* services *)
  WaitEthClientSynced : option error;
  WaitBeaconClientSynced : option error;
  GetNodeAccount : answer Address;
  GetMemberExists : Address -> answer bool;
  (* configuration *)
  RewardsTreeMode : RewardsMode;
  GetRewardsTreePath : Z -> string;
  GetMinipoolPerformancePath : Z -> string;
  RewardsTreeIpfsExtension : string;
  ArchiveECUrl : string;
  Web3StorageApiToken : string;
  MaxFeeWei : Z;
  MaxPriorityFeeWei : Z;
  (* registry reads *)
  GetClaimIntervalTimeStart : answer Time;
  GetClaimIntervalTime : answer Duration;
  GetRewardIndex : answer Z;
  RocketStorage_GetBool : Hash -> answer bool;
  (* execution client *)
  HeaderByNumber : option Z -> answer Header;
  GetELBlockHeaderForTime : Time -> answer Header;
  ethclient_Dial : string -> option error;
  NewRocketPool : option error;
  (* consensus client *)
  GetEth2Config : answer Eth2Config;
  GetBeaconHead : answer BeaconHead;
  GetBeaconBlock : Z -> answer (BeaconBlock * bool);
  (* local files *)
  StatFault : string -> option error;
  ReadFault : string -> option error;
  ioutil_WriteFile : string -> bytes -> WriteOutcome;
  os_Create : string -> option error;
  File_Write : string -> bytes -> option error;
  (* serialization *)
  json_Unmarshal : bytes -> answer RewardsFile;
  json_Marshal_performance : MinipoolPerformanceFile -> answer bytes;
  json_Marshal_rewards : RewardsFile -> answer bytes;
  hex_DecodeString : string -> answer bytes;
  RemovePrefix : string -> string;
  BytesToHash : bytes -> Hash;
  Keccak256Hash : list bytes -> Hash;
  (* artifact builder *)
  GenerateTree : NewRewardsFileArgs -> bool -> answer RewardsFile;
  (* content-addressed storage *)
  w3s_NewClient : option error;
  zstd_EncodeAll : bytes -> bytes;
  w3s_Put : bytes -> answer string;
  (* transactions *)
  GetNodeAccountTransactor : answer TransactOpts;
  EstimateSubmitRewardSnapshotGas : RewardSubmission -> TransactOpts -> answer GasInfo;
  PrintAndCheckGasInfo : GasInfo -> Z -> bool;
  SubmitRewardSnapshot : RewardSubmission -> TransactOpts -> answer Hash;
  PrintAndWaitForTransaction : Hash -> option error;
  (* the platform's float-to-integer conversion where Go leaves it open *)
  archFloatToUint64 : Float64.float64 -> Z
}.

(** The [submitRewardsTree] fields that change, the local disk, and what
    happened so far (oldest first). *)
Record State := {
  isRunning : bool;
  fs : gmap string bytes;
  trace : list event
}.

End Types.

(** ** State, errors and panics threaded through the calls *)

Module Exec.
Import Types.

(** A computation reads and changes the [State] and ends in a [result]. *)
Definition M (A : Type) : Type := State -> result A * State.

Definition ret {A} (a : A) : M A := fun s => (Ok a, s).

Definition bind {A B} (m : M A) (k : A -> M B) : M B :=
  fun s =>
    match m s with
    | (Ok a, s') => k a s'
    | (Err e, s') => (Err e, s')
    | (Panic, s') => (Panic, s')
    | (NoFuel, s') => (NoFuel, s')
    end.

Definition fail {A} (e : error) : M A := fun s => (Err e, s).
Definition panic {A} : M A := fun s => (Panic, s).
Definition nofuel {A} : M A := fun s => (NoFuel, s).

(** The answer of a collaborator. *)
Definition lift {A} (r : answer A) : M A :=
  fun s =>
    match r with
    | Got a => (Ok a, s)
    | Failed e => (Err e, s)
    end.

Definition liftR {A} (r : result A) : M A := fun s => (r, s).

(** A call that gives back only an [error], nil or not. *)
Definition liftE (r : option error) : M unit :=
  match r with
  | None => ret tt
  | Some e => fail e
  end.

(** A Go operation that panics where the model has [None]. *)
Definition orPanic {A} (r : option A) : M A :=
  match r with
  | Some a => ret a
  | None => panic
  end.

Definition emit (e : event) : M unit :=
  fun s => (Ok tt, {| isRunning := isRunning s; fs := fs s; trace := trace s ++ [e] |}).

Definition setFile (path : string) (data : bytes) : M unit :=
  fun s => (Ok tt, {| isRunning := isRunning s; fs := <[path := data]> (fs s); trace := trace s |}).

Definition getFs : M (gmap string bytes) := fun s => (Ok (fs s), s).

(** [return fmt.Errorf("msg: %w", err)] around a failing call. *)
Definition wrapErr {A} (msg : string) (m : M A) : M A :=
  fun s =>
    match m s with
    | (Err e, s') => (Err (ErrWrap msg e), s')
    | r => r
    end.

Declare Scope exec_scope.
Delimit Scope exec_scope with exec.
Notation "x <- m ;; k" := (bind m (fun x => k))
  (at level 100, m at next level, right associativity) : exec_scope.
Notation "m ;; k" := (bind m (fun _ => k))
  (at level 100, right associativity) : exec_scope.

End Exec.

(** ** The watchtower task *)

Module Watchtower.
Import GoInt GoTime Types Exec.
Local Open Scope exec_scope.

Section WithEnv.
Variable env : Env.

(** *** The guard: [t.lock] and [t.isRunning] *)

Definition lock : M unit := emit EvLock.
Definition unlock : M unit := emit EvUnlock.

Definition readRunning : M bool :=
  fun s => (Ok (isRunning s),
            {| isRunning := isRunning s; fs := fs s;
               trace := trace s ++ [EvReadRunning (isRunning s)] |}).

Definition setRunning (b : bool) : M unit :=
  fun s => (Ok tt,
            {| isRunning := b; fs := fs s;
               trace := trace s ++ [EvSetRunning b] |}).

(** *** Local files *)

(** The three answers of [os.Stat] that [run] tells apart. *)
Inductive StatResult := StatOk | StatNotExist | StatOther (e : error).

Definition os_IsNotExist (r : StatResult) : bool :=
  match r with StatNotExist => true | _ => false end.

Definition os_Stat (path : string) : M StatResult :=
  emit (EvStat path) ;;
  files <- getFs ;;
  ret (match StatFault env path with
       | Some e => StatOther e
       | None =>
           match files !! path with
           | Some _ => StatOk
           | None => StatNotExist
           end
       end).

Definition ReadFile (path : string) : M bytes :=
  emit (EvReadFile path) ;;
  files <- getFs ;;
  match ReadFault env path with
  | Some e => fail e
  | None =>
      match files !! path with
      | Some data => ret data
      | None => fail (ErrNotExist path)
      end
  end.

Definition WriteFile (path : string) (data : bytes) : M unit :=
  match ioutil_WriteFile env path data with
  | WriteOk => emit (EvWriteFile path data true) ;; setFile path data
  | WriteErr e residue =>
      emit (EvWriteFile path data false) ;;
      match residue with
      | Some partial => setFile path partial
      | None => ret tt
      end ;;
      fail e
  end.

(** *** [getSnapshotConsensusBlock] *)

(** The [for] loop of lines 514-530; [fuel] bounds the slots tried. *)
Fixpoint slotWalk (fuel : nat) (cfg : Eth2Config) (genesisTime : Time)
    (requiredEpoch targetSlot : Z) : M (Z * Z * Time) :=
  match fuel with
  | O => nofuel
  | S fuel' =>
      r <- wrapErr "Error getting Beacon block"
             (emit (EvGetBeaconBlock targetSlot) ;; lift (GetBeaconBlock env targetSlot)) ;;
      if negb (snd r) then
        emit (EvLog (LogSlotMissing targetSlot)) ;;
        slotWalk fuel' cfg genesisTime requiredEpoch (sub_u64 targetSlot 1)
      else
        let blockTime :=
          Add genesisTime
              (mul_i64 (wrap_i64 (mul_u64 requiredEpoch (SecondsPerEpoch cfg))) Second) in
        ret (targetSlot, ExecutionBlockNumber (fst r), blockTime)
  end.

(** Line 503: [uint64(math.Ceil(totalTimespan.Seconds() / float64(SecondsPerSlot)))] *)
Definition ceilSlot (totalTimespan : Duration) (secondsPerSlot : Z) : Z :=
  Float64.to_uint64 (archFloatToUint64 env)
    (Float64.ceil
       (Float64.div (Float64.Duration_Seconds totalTimespan)
                    (Float64.of_int secondsPerSlot))).

(** Lines 501-506: the epoch of the target slot, the last slot of that
    epoch, and the epoch that has to be finalized.  [None] is the panic of
    the division when [SlotsPerEpoch] is 0. *)
Definition snapshotTarget (eth2Config : Eth2Config) (endTime : Time) : option (Z * Z * Z) :=
  let genesisTime := Unix (wrap_i64 (GenesisTime eth2Config)) in
  let totalTimespan := Sub endTime genesisTime in
  let targetSlot := ceilSlot totalTimespan (SecondsPerSlot eth2Config) in
  match div_u64 targetSlot (SlotsPerEpoch eth2Config) with
  | None => None
  | Some targetSlotEpoch =>
      (* The target slot becomes the last one in the Epoch *)
      let targetSlot :=
        add_u64 (mul_u64 targetSlotEpoch (SlotsPerEpoch eth2Config))
                (sub_u64 (SlotsPerEpoch eth2Config) 1) in
      (* The smoothing pool requires 1 epoch beyond the target to be finalized *)
      let requiredEpoch := add_u64 targetSlotEpoch 1 in
      Some (targetSlotEpoch, targetSlot, requiredEpoch)
  end.

Definition getSnapshotConsensusBlock (fuel : nat) (endTime : Time) : M (Z * Z * Time) :=
  eth2Config <- wrapErr "Error getting Beacon config" (lift (GetEth2Config env)) ;;
  beaconHead <- wrapErr "Error getting Beacon head" (lift (GetBeaconHead env)) ;;
  let genesisTime := Unix (wrap_i64 (GenesisTime eth2Config)) in
  target <- orPanic (snapshotTarget eth2Config endTime) ;;
  let targetSlotEpoch := fst (fst target) in
  let targetSlot := snd (fst target) in
  let requiredEpoch := snd target in
  (* Check if the required epoch is finalized yet *)
  if FinalizedEpoch beaconHead <? requiredEpoch then
    fail (ErrWaitFinalized endTime targetSlot targetSlotEpoch requiredEpoch
            (FinalizedEpoch beaconHead))
  else
    (* Get the first successful block *)
    slotWalk fuel eth2Config genesisTime requiredEpoch targetSlot.

(** *** [hasSubmittedTree] *)

Definition byte_of_Z (z : Z) : Byte.byte :=
  match Byte.of_N (Z.to_N (z mod 256)) with
  | Some b => b
  | None => Byte.x00
  end.

Fixpoint bigEndian (n : nat) (z : Z) : bytes :=
  match n with
  | O => []
  | S n' => bigEndian n' (z / 256) ++ [byte_of_Z z]
  end.

(** [index.FillBytes(make([]byte, 32))]: the absolute value, big-endian;
    it panics when the value needs more than 32 bytes. *)
Definition FillBytes32 (index : Z) : option bytes :=
  if Z.abs index <? 2 ^ 256 then Some (bigEndian 32 (Z.abs index)) else None.

Definition hasSubmittedTree (nodeAddress : Address) (index : Z) : M bool :=
  indexBuffer <- orPanic (FillBytes32 index) ;;
  lift (RocketStorage_GetBool env
          (Keccak256Hash env
             [String.list_byte_of_string "rewards.snapshot.submitted.node";
              nodeAddress; indexBuffer])).

(** *** [uploadFileToWeb3Storage] *)

Definition uploadFileToWeb3Storage (wrapperBytes : bytes) (compressedPath : string)
    (description : string) : M string :=
  if String.eqb (Web3StorageApiToken env) "" then fail ErrNoApiToken
  else
    wrapErr "Error creating new Web3.Storage client" (liftE (w3s_NewClient env)) ;;
    let compressedBytes := zstd_EncodeAll env wrapperBytes in
    match os_Create env compressedPath with
    | Some e =>
        emit (EvCreate compressedPath false) ;;
        fail (ErrWrap ("Error creating file: " ++ description) e)
    | None =>
        emit (EvCreate compressedPath true) ;;
        setFile compressedPath [] ;;
        match File_Write env compressedPath compressedBytes with
        | Some e =>
            emit (EvFileWrite compressedPath compressedBytes false) ;;
            fail (ErrWrap ("Error writing: " ++ description) e)
        | None =>
            emit (EvFileWrite compressedPath compressedBytes true) ;;
            setFile compressedPath compressedBytes ;;
            match w3s_Put env compressedBytes with
            | Got cid => emit (EvPut compressedBytes true) ;; ret cid
            | Failed e =>
                emit (EvPut compressedBytes false) ;;
                fail (ErrWrap ("Error uploading: " ++ description) e)
            end
        end
    end.

(** *** [submitRewardsSnapshot] *)

(** The [for] loop of lines 375-386 over [rewardsFile.NetworkRewards]:
    the three arrays grow together until the first network id that the
    map does not hold. *)
Fixpoint networkLoop (fuel : nat) (rewards : gmap Z NetworkRewardsInfo) (network : Z)
    (collateralRplRewards oDaoRplRewards smoothingPoolEthRewards : list Z)
    : result (list Z * list Z * list Z) :=
  match fuel with
  | O => NoFuel
  | S fuel' =>
      match rewards !! network with
      | None => Ok (collateralRplRewards, oDaoRplRewards, smoothingPoolEthRewards)
      | Some networkRewards =>
          networkLoop fuel' rewards (add_u64 network 1)
            (collateralRplRewards ++ [CollateralRpl networkRewards])
            (oDaoRplRewards ++ [OracleDaoRpl networkRewards])
            (smoothingPoolEthRewards ++ [SmoothingPoolEth networkRewards])
      end
  end.

(** The loop leaves at the first gap, which a finite map has within its
    size: that many rounds and one more are enough. *)
Definition networkArrays (rewards : gmap Z NetworkRewardsInfo)
    : result (list Z * list Z * list Z) :=
  networkLoop (S (size rewards)) rewards 0 [] [] [].

Definition submitRewardsSnapshot (index consensusBlock executionBlock : Z)
    (rewardsFile : RewardsFile) (cid : string) (intervalsPassed : Z) : M unit :=
  treeRootBytes <- wrapErr "Error decoding merkle root"
                     (lift (hex_DecodeString env (RemovePrefix env (MerkleRoot rewardsFile)))) ;;
  let treeRoot := BytesToHash env treeRootBytes in
  arrays <- liftR (networkArrays (NetworkRewards rewardsFile)) ;;
  opts <- lift (GetNodeAccountTransactor env) ;;
  let submission :=
    {| RewardIndex := index;
       ExecutionBlock := executionBlock;
       ConsensusBlock := consensusBlock;
       SubMerkleRoot := treeRoot;
       MerkleTreeCID := cid;
       IntervalsPassed := intervalsPassed;
       TreasuryRPL := ProtocolDaoRpl (TotalRewards rewardsFile);
       NodeRPL := fst (fst arrays);
       TrustedNodeRPL := snd (fst arrays);
       NodeETH := snd arrays |} in
  gasInfo <- wrapErr "Could not estimate the gas required to submit the rewards tree"
               (emit (EvEstimateGas submission) ;;
                lift (EstimateSubmitRewardSnapshotGas env submission opts)) ;;
  let maxFee := MaxFeeWei env in
  if negb (PrintAndCheckGasInfo env gasInfo maxFee) then ret tt
  else
    let opts :=
      {| From := From opts;
         GasFeeCap := maxFee;
         GasTipCap := MaxPriorityFeeWei env;
         GasLimit := SafeGasLimit gasInfo |} in
    hash <- (emit (EvSubmitTx submission opts) ;;
             lift (SubmitRewardSnapshot env submission opts)) ;;
    emit (EvWaitTx hash) ;;
    liftE (PrintAndWaitForTransaction env hash) ;;
    ret tt.

(** *** [handleError] *)

Definition handleError (err : error) : M unit :=
  emit (EvErrLog err) ;;
  emit EvErrLogFailed ;;
  lock ;;
  setRunning false ;;
  unlock.

(** [if err != nil { t.handleError(fmt.Errorf("msg: %w", err)); return }]
    after a call of the background task: on an error the task ends in
    [handleError], otherwise it goes on with [k]. *)
Definition orHandle {A} (msg : string) (m : M A) (k : A -> M unit) : M unit :=
  fun s =>
    match m s with
    | (Ok a, s') => k a s'
    | (Err e, s') => handleError (ErrWrap msg e) s'
    | (Panic, s') => (Panic, s')
    | (NoFuel, s') => (NoFuel, s')
    end.

(** *** The background task: the [go func() { ... }()] of lines 233-344 *)

Definition logInvalidNetworkNodes (nodes : list (Address * Z)) : M unit :=
  fold_right (fun an k => emit (EvLog (LogInvalidNetwork (fst an) (snd an))) ;; k)
             (ret tt) nodes.

(** The arguments of line 264: [rprewards.NewRewardsFile(t.log, generationPrefix,
    currentIndex, startTime, endTime, snapshotBeaconBlock, snapshotElBlockHeader,
    uint64(intervalsPassed))]. *)
Definition NewRewardsFile (tk : Task) : NewRewardsFileArgs :=
  {| nrfIndex := tkCurrentIndex tk;
     nrfStartTime := tkStartTime tk;
     nrfEndTime := tkEndTime tk;
     nrfConsensusBlock := tkSnapshotBeaconBlock tk;
     nrfElHeader := tkSnapshotElBlockHeader tk;
     nrfIntervalsPassed := wrap_u64 (tkIntervalsPassed tk) |}.

Definition generationTask (tk : Task) : M unit :=
  lock ;;
  setRunning true ;;
  unlock ;;
  (if 1 <? wrap_u64 (tkIntervalsPassed tk)
   then emit (EvLog (LogWarnIntervals (wrap_u64 (tkIntervalsPassed tk))))
   else ret tt) ;;
  emit (EvLog (LogStarting (tkCurrentIndex tk) (tkSnapshotBeaconBlock tk)
                 (tkElBlockIndex tk) (tkStartTime tk) (tkEndTime tk))) ;;
  (* Check for an archive EC *)
  let archiveEcUrl := ArchiveECUrl env in
  let useArchive := negb (String.eqb archiveEcUrl "") in
  orHandle "Error connecting to archive EC"
    (if useArchive
     then emit (EvLog (LogUsingArchive archiveEcUrl)) ;; liftE (ethclient_Dial env archiveEcUrl)
     else ret tt)
    (fun _ =>
  orHandle "Error creating Rocket Pool client connected to archive EC"
    (if useArchive then liftE (NewRocketPool env) else ret tt)
    (fun _ =>
  (* Generate the rewards file *)
  let args := NewRewardsFile tk in
  orHandle "Error generating Merkle tree"
    (emit (EvGenerateTree args useArchive) ;; lift (GenerateTree env args useArchive))
    (fun rewardsFile =>
  logInvalidNetworkNodes (InvalidNetworkNodes rewardsFile) ;;
  (* Serialize the minipool performance file *)
  orHandle "Error serializing minipool performance file into JSON"
    (lift (json_Marshal_performance env (MinipoolPerformance rewardsFile)))
    (fun minipoolPerformanceBytes =>
  (* Write it to disk *)
  orHandle "Error saving minipool performance file"
    (WriteFile (tkMinipoolPerformancePath tk) minipoolPerformanceBytes)
    (fun _ =>
  (* Upload it if this is an Oracle DAO node *)
  orHandle "Error uploading minipool performance file to Web3.Storage"
    (if tkNodeTrusted tk then
       emit (EvLog LogUploadingPerformance) ;;
       minipoolPerformanceCid <-
         uploadFileToWeb3Storage minipoolPerformanceBytes
           (tkCompressedMinipoolPerformancePath tk) "compressed minipool performance" ;;
       emit (EvLog (LogUploadedPerformance minipoolPerformanceCid)) ;;
       ret (set_MinipoolPerformanceFileCID minipoolPerformanceCid rewardsFile)
     else
       emit (EvLog LogSavedPerformance) ;;
       ret (set_MinipoolPerformanceFileCID "---" rewardsFile))
    (fun rewardsFile =>
  (* Serialize the rewards tree to JSON *)
  orHandle "Error serializing proof wrapper into JSON"
    (lift (json_Marshal_rewards env rewardsFile))
    (fun wrapperBytes =>
  emit (EvLog LogGenerationComplete) ;;
  (* Write the rewards tree to disk *)
  orHandle "Error saving rewards tree file"
    (WriteFile (tkPath tk) wrapperBytes)
    (fun _ =>
  (* Only do the upload and submission process if this is an Oracle DAO node *)
  (if tkNodeTrusted tk then
     fun k =>
       emit (EvLog LogUploadingTree) ;;
       orHandle "Error uploading Merkle tree to Web3.Storage"
         (uploadFileToWeb3Storage wrapperBytes (tkCompressedPath tk) "compressed rewards tree")
         (fun cid =>
       emit (EvLog (LogUploadedTree cid)) ;;
       orHandle "Error submitting rewards snapshot"
         (submitRewardsSnapshot (tkCurrentIndexBig tk) (tkSnapshotBeaconBlock tk)
            (tkElBlockIndex tk) rewardsFile cid (tkIntervalsPassed tk))
         (fun _ =>
       emit (EvLog (LogSubmittedBackground (tkCurrentIndex tk))) ;;
       k))
   else
     fun k => emit (EvLog (LogGeneratedBackground (tkCurrentIndex tk))) ;; k)
    (lock ;;
     setRunning false ;;
     unlock))))))))).

(** *** [run]

    [run] is one Go function; it is cut here into its three stages, each
    handing the local variables it has set to the next:
    [run] (lines 93-142), [runInterval] (lines 144-177),
    [resumeOrGenerate] (lines 179-347) and in it [resumeStored] (lines 187-229).

    [Ok None]: [run] returned nil and started nothing.  [Ok (Some tk)]:
    it started the background task [tk] and returned nil.  [Err e]: it
    returned [e]. *)

(** Lines 187-229: the rewards file of the interval is on disk.  Every
    way out of these lines is a [return]: of nil, or of an error. *)
Definition resumeStored (nodeAccount : Address) (nodeTrusted : bool)
    (intervalsPassed : Duration) (snapshotBeaconBlock elBlockIndex : Z)
    (currentIndexBig currentIndex : Z) (path compressedPath : string) : M unit :=
  if negb nodeTrusted then
    emit (EvLog (LogTreeExists currentIndex path))
  else
  (* Return if this node has already submitted the tree for the current interval *)
  hasSubmitted <- wrapErr "error checking if Merkle tree submission has already been processed"
                    (hasSubmittedTree nodeAccount currentIndexBig) ;;
  if (hasSubmitted : bool) then ret tt
  else
  emit (EvLog (LogResubmitting currentIndex path)) ;;
  (* Deserialize the file *)
  wrapperBytes <- wrapErr "Error reading rewards tree file" (ReadFile path) ;;
  proofWrapper <- wrapErr "Error deserializing rewards tree file"
                    (lift (json_Unmarshal env wrapperBytes)) ;;
  (* Upload the file *)
  cid <- wrapErr "Error uploading Merkle tree to Web3.Storage"
           (uploadFileToWeb3Storage wrapperBytes compressedPath "compressed rewards tree") ;;
  emit (EvLog (LogUploadedCid cid)) ;;
  (* Submit to the contracts *)
  wrapErr "Error submitting rewards snapshot"
    (submitRewardsSnapshot currentIndexBig snapshotBeaconBlock elBlockIndex
       proofWrapper cid intervalsPassed) ;;
  emit (EvLog (LogSubmitted currentIndex)).

(** Lines 179-347: the rewards file of the interval is on disk, or the
    tree generation starts. *)
Definition resumeOrGenerate (nodeAccount : Address) (nodeTrusted : bool)
    (startTime endTime : Time) (intervalsPassed : Duration)
    (snapshotBeaconBlock elBlockIndex : Z) (snapshotElBlockHeader : Header)
    (currentIndexBig currentIndex : Z) : M (option Task) :=
  (* Check if the rewards file is already generated and reupload it without rebuilding it *)
  let path := GetRewardsTreePath env currentIndex in
  let compressedPath := (path ++ RewardsTreeIpfsExtension env)%string in
  let minipoolPerformancePath := GetMinipoolPerformancePath env currentIndex in
  let compressedMinipoolPerformancePath :=
    (minipoolPerformancePath ++ RewardsTreeIpfsExtension env)%string in
  stat <- os_Stat path ;;
  if negb (os_IsNotExist stat) then
    resumeStored nodeAccount nodeTrusted intervalsPassed snapshotBeaconBlock elBlockIndex
      currentIndexBig currentIndex path compressedPath ;;
    ret None
  else
  (* Run the tree generation *)
  let tk :=
    {| tkIntervalsPassed := intervalsPassed;
       tkCurrentIndex := currentIndex;
       tkCurrentIndexBig := currentIndexBig;
       tkSnapshotBeaconBlock := snapshotBeaconBlock;
       tkElBlockIndex := elBlockIndex;
       tkSnapshotElBlockHeader := snapshotElBlockHeader;
       tkStartTime := startTime;
       tkEndTime := endTime;
       tkNodeTrusted := nodeTrusted;
       tkPath := path;
       tkCompressedPath := compressedPath;
       tkMinipoolPerformancePath := minipoolPerformancePath;
       tkCompressedMinipoolPerformancePath := compressedMinipoolPerformancePath |} in
  emit (EvGo tk) ;;
  ret (Some tk).

(** Lines 150-161: the header of the execution block that goes with the
    snapshot. *)
Definition resolveElHeader (elBlockNumber : Z) (nextIntervalEpochTime : Time) : M Header :=
  if elBlockNumber =? 0 then
    (* No EL data so the Merge hasn't happened yet *)
    emit (EvHeaderForTime nextIntervalEpochTime) ;;
    lift (GetELBlockHeaderForTime env nextIntervalEpochTime)
  else
    emit (EvHeaderByNumber (Some (wrap_i64 elBlockNumber))) ;;
    lift (HeaderByNumber env (Some (wrap_i64 elBlockNumber))).

(** Lines 144-177: the snapshot, its execution block, the interval index
    and the guard. *)
Definition runInterval (fuel : nat) (nodeAccount : Address) (nodeTrusted : bool)
    (startTime endTime : Time) (intervalsPassed : Duration) : M (option Task) :=
  (* Get the block and timestamp of the consensus block that best matches the end time *)
  snapshot <- getSnapshotConsensusBlock fuel endTime ;;
  let snapshotBeaconBlock := fst (fst snapshot) in
  let elBlockNumber := snd (fst snapshot) in
  let nextIntervalEpochTime := snd snapshot in
  (* Get the number of the EL block matching the CL snapshot block *)
  snapshotElBlockHeader <- resolveElHeader elBlockNumber nextIntervalEpochTime ;;
  let elBlockIndex := big_Uint64 (Number snapshotElBlockHeader) in
  (* Get the current interval *)
  currentIndexBig <- lift (GetRewardIndex env) ;;
  let currentIndex := big_Uint64 currentIndexBig in
  (* Check if rewards generation is already running *)
  lock ;;
  running <- readRunning ;;
  if running then
    emit (EvLog LogAlreadyRunning) ;;
    unlock ;;
    ret None
  else
  unlock ;;
  resumeOrGenerate nodeAccount nodeTrusted startTime endTime intervalsPassed
    snapshotBeaconBlock elBlockIndex snapshotElBlockHeader currentIndexBig currentIndex.

(** Lines 138-139: the whole intervals gone by, and the end of the last. *)
Definition intervalClock (startTime : Time) (intervalTime : Duration) (latestBlockTime : Time)
    : option (Duration * Time) :=
  let timeSinceStart := Sub latestBlockTime startTime in
  match div_i64 timeSinceStart intervalTime with
  | None => None
  | Some intervalsPassed =>
      Some (intervalsPassed, Add startTime (mul_i64 intervalTime intervalsPassed))
  end.

Definition run (fuel : nat) : M (option Task) :=
  (* Wait for clients to sync *)
  liftE (WaitEthClientSynced env) ;;
  liftE (WaitBeaconClientSynced env) ;;
  (* Get node account *)
  nodeAccount <- lift (GetNodeAccount env) ;;
  (* Check node trusted status *)
  nodeTrusted <- lift (GetMemberExists env nodeAccount) ;;
  if negb nodeTrusted && negb (RewardsMode_eqb (RewardsTreeMode env) RewardsMode_Generate)
  then ret None
  else
  emit (EvLog LogChecking) ;;
  (* Check if a rewards interval has passed and needs to be calculated *)
  startTime <- wrapErr "error getting claim interval start time"
                 (lift (GetClaimIntervalTimeStart env)) ;;
  intervalTime <- wrapErr "error getting claim interval time"
                    (lift (GetClaimIntervalTime env)) ;;
  (* Calculate the end time *)
  latestBlockHeader <- wrapErr "error getting latest block header"
                         (emit (EvHeaderByNumber None) ;; lift (HeaderByNumber env None)) ;;
  let latestBlockTime := Unix (wrap_i64 (HeaderTime latestBlockHeader)) in
  clock <- orPanic (intervalClock startTime intervalTime latestBlockTime) ;;
  let intervalsPassed := fst clock in
  let endTime := snd clock in
  if intervalsPassed =? 0 then ret None
  else runInterval fuel nodeAccount nodeTrusted startTime endTime intervalsPassed.

(** One invocation with the scheduler at its simplest: [run] returns,
    then the task it started, if any, runs to its end. *)
Definition runThenTask (fuel : nat) : M unit :=
  started <- run fuel ;;
  match started with
  | Some tk => generationTask tk
  | None => ret tt
  end.

End WithEnv.
End Watchtower.

(** ** Concrete collaborators, for running the task on examples *)

Module Scenario.
Import GoInt GoTime Types Exec Watchtower.

(** The knobs of an example; everything not listed answers without error. *)
Record Knobs := {
  kTrusted : bool;
  kStartSec : Z;
  kIntervalSec : Z;
  kLatestSec : Z;
  kFinalizedEpoch : Z;
  kBlocks : Z -> answer (BeaconBlock * bool);
  kHasSubmitted : bool;
  kGasOk : bool;
  kPut : bytes -> answer string;
  kGenerate : answer RewardsFile;
  kWriteFile : string -> bytes -> WriteOutcome
}.

Definition rewards3 : gmap Z NetworkRewardsInfo :=
  <[0 := {| CollateralRpl := 10; OracleDaoRpl := 11; SmoothingPoolEth := 12 |}]>
  (<[1 := {| CollateralRpl := 20; OracleDaoRpl := 21; SmoothingPoolEth := 22 |}]>
  (<[2 := {| CollateralRpl := 30; OracleDaoRpl := 31; SmoothingPoolEth := 32 |}]> ∅)).

Definition sampleFile : RewardsFile :=
  {| MerkleRoot := "0xabcd";
     NetworkRewards := rewards3;
     TotalRewards := {| ProtocolDaoRpl := 5 |};
     MinipoolPerformance := {| PerfIndex := 7; PerfRecords := [] |};
     MinipoolPerformanceFileCID := "";
     InvalidNetworkNodes := [] |}.

Definition storedBytes : bytes := [Byte.x7b; Byte.x7d].
Definition perfBytes : bytes := [Byte.x5b; Byte.x5d].
Definition treeBytes : bytes := [Byte.x7b; Byte.x20; Byte.x7d].
Definition rootBytes : bytes := [Byte.xab; Byte.xcd].

Definition envOf (k : Knobs) : Env :=
  {| WaitEthClientSynced := None;
     WaitBeaconClientSynced := None;
     GetNodeAccount := Got [Byte.x01];
     GetMemberExists := fun _ => Got (kTrusted k);
     RewardsTreeMode := RewardsMode_Generate;
     GetRewardsTreePath := fun i => "rewards.json";
     GetMinipoolPerformancePath := fun i => "performance.json";
     RewardsTreeIpfsExtension := ".zst";
     ArchiveECUrl := "";
     Web3StorageApiToken := "token";
     MaxFeeWei := 200;
     MaxPriorityFeeWei := 3;
     GetClaimIntervalTimeStart := Got (Unix (kStartSec k));
     GetClaimIntervalTime := Got (kIntervalSec k * Second);
     GetRewardIndex := Got 7;
     RocketStorage_GetBool := fun _ => Got (kHasSubmitted k);
     HeaderByNumber := fun n =>
       match n with
       | None => Got {| Number := 900; HeaderTime := kLatestSec k |}
       | Some b => Got {| Number := b; HeaderTime := 0 |}
       end;
     GetELBlockHeaderForTime := fun _ => Got {| Number := 555; HeaderTime := 0 |};
     ethclient_Dial := fun _ => None;
     NewRocketPool := None;
     GetEth2Config :=
       Got {| GenesisTime := 1000; SecondsPerSlot := 12; SlotsPerEpoch := 32;
             SecondsPerEpoch := 384 |};
     GetBeaconHead := Got {| FinalizedEpoch := kFinalizedEpoch k |};
     GetBeaconBlock := kBlocks k;
     StatFault := fun _ => None;
     ReadFault := fun _ => None;
     ioutil_WriteFile := kWriteFile k;
     os_Create := fun _ => None;
     File_Write := fun _ _ => None;
     json_Unmarshal := fun _ => Got sampleFile;
     json_Marshal_performance := fun _ => Got perfBytes;
     json_Marshal_rewards := fun _ => Got treeBytes;
     hex_DecodeString := fun _ => Got rootBytes;
     RemovePrefix := fun s => s;
     BytesToHash := fun b => b;
     Keccak256Hash := fun l => concat l;
     GenerateTree := fun _ _ => kGenerate k;
     w3s_NewClient := None;
     zstd_EncodeAll := fun b => b;
     w3s_Put := kPut k;
     GetNodeAccountTransactor :=
       Got {| From := [Byte.x01]; GasFeeCap := 0; GasTipCap := 0; GasLimit := 0 |};
     EstimateSubmitRewardSnapshotGas :=
       fun _ _ => Got {| EstGasLimit := 100; SafeGasLimit := 150 |};
     PrintAndCheckGasInfo := fun _ _ => kGasOk k;
     SubmitRewardSnapshot := fun _ _ => Got [Byte.xff];
     PrintAndWaitForTransaction := fun _ => None;
     archFloatToUint64 := fun _ => 0 |}.

(** Every slot holds a block whose execution block number is the slot
    plus 5000. *)
Definition allBlocks (slot : Z) : answer (BeaconBlock * bool) :=
  Got ({| ExecutionBlockNumber := slot + 5000 |}, true).

(** Slots [s] and [s - 1] are empty, every other slot holds a block. *)
Definition twoMissing (s : Z) (slot : Z) : answer (BeaconBlock * bool) :=
  if (slot =? s) || (slot =? s - 1)
  then Got ({| ExecutionBlockNumber := 0 |}, false)
  else Got ({| ExecutionBlockNumber := slot + 5000 |}, true).

(** Registry start at 2000 s, intervals of 100 s; the knobs below give the
    latest block time and the finalized epoch. *)
Definition knobs (trusted : bool) (latest finalized : Z) (submitted gasOk : bool) : Knobs :=
  {| kTrusted := trusted;
     kStartSec := 2000;
     kIntervalSec := 100;
     kLatestSec := latest;
     kFinalizedEpoch := finalized;
     kBlocks := allBlocks;
     kHasSubmitted := submitted;
     kGasOk := gasOk;
     kPut := fun _ => Got "cid-1"%string;
     kGenerate := Got sampleFile;
     kWriteFile := fun _ _ => WriteOk |}.

Definition emptyState : State := {| isRunning := false; fs := ∅; trace := [] |}.

(** The disk holds the rewards tree file of the current interval. *)
Definition storedState : State :=
  {| isRunning := false; fs := {[ "rewards.json"%string := storedBytes ]}; trace := [] |}.

(** The task that [run] starts for interval 7 when two intervals of 100 s
    have gone by since 2000 s. *)
Definition sampleTask (trusted : bool) : Task :=
  {| tkIntervalsPassed := 2;
     tkCurrentIndex := 7;
     tkCurrentIndexBig := 7;
     tkSnapshotBeaconBlock := 127;
     tkElBlockIndex := 5127;
     tkSnapshotElBlockHeader := {| Number := 5127; HeaderTime := 0 |};
     tkStartTime := 2000000000000;
     tkEndTime := 2200000000000;
     tkNodeTrusted := trusted;
     tkPath := "rewards.json";
     tkCompressedPath := "rewards.json.zst";
     tkMinipoolPerformancePath := "performance.json";
     tkCompressedMinipoolPerformancePath := "performance.json.zst" |}.

End Scenario.

(** ** Overlapping invocations: the guard under interleaving

    [run] is called again while earlier calls and the tasks they started are
    still under way.  What the threads share is [t.lock] and [t.isRunning];
    the program points below are the statements of [run], of the background
    task and of [handleError] that touch them, one step per statement. *)

Module Interleaving.

(** How an invocation of [run] ended. *)
Inductive outcome := Noop | Resumed | Spawned.

Inductive pc :=
(* an invocation of [run] *)
| RunStart                   (* before [t.lock.Lock()], line 171 *)
| RunLocked                  (* holds the lock, before [if t.isRunning], line 172 *)
| RunSawRunning              (* read true; before [t.lock.Unlock()], line 174 *)
| RunSawIdle                 (* read false; before [t.lock.Unlock()], line 177 *)
| RunChecked                 (* lock released; before [os.Stat] and [go func()] *)
| RunDone (o : outcome)
(* a background task *)
| TaskStart                  (* before [t.lock.Lock()], line 234 *)
| TaskLocked                 (* holds the lock, before [t.isRunning = true] *)
| TaskMarked                 (* holds the lock, before [t.lock.Unlock()], line 236 *)
| TaskGenerating             (* lines 238-339: the expensive path *)
| TaskEnding (failed : bool) (* before the [Lock] of line 341, or of [handleError] *)
| TaskEndLocked              (* holds the lock, before [t.isRunning = false] *)
| TaskCleared                (* holds the lock, before the last [Unlock] *)
| TaskDone.

Record state := {
  flag : bool;               (* t.isRunning *)
  mutex : option nat;        (* the thread that holds t.lock *)
  threads : list pc
}.

Definition setThread (i : nat) (p : pc) (s : state) : list pc := <[i := p]> (threads s).

(** [t.lock.Lock()] by thread [i]: it goes through only when the lock is free. *)
Definition acquire (i : nat) (next : pc) (s : state) : option state :=
  match mutex s with
  | Some _ => None
  | None => Some {| flag := flag s; mutex := Some i; threads := setThread i next s |}
  end.

Definition release (i : nat) (next : pc) (s : state) : option state :=
  Some {| flag := flag s; mutex := None; threads := setThread i next s |}.

Definition goto (i : nat) (next : pc) (s : state) : option state :=
  Some {| flag := flag s; mutex := mutex s; threads := setThread i next s |}.

(** One statement of thread [i].  [choice] settles what the shared state
    does not: whether the rewards file is on disk (at [RunChecked]) and
    whether the generation fails (at [TaskGenerating]). *)
Definition step (i : nat) (choice : bool) (s : state) : option state :=
  match threads s !! i with
  | None => None
  | Some RunStart => acquire i RunLocked s
  | Some RunLocked => goto i (if flag s then RunSawRunning else RunSawIdle) s
  | Some RunSawRunning => release i (RunDone Noop) s
  | Some RunSawIdle => release i RunChecked s
  | Some RunChecked =>
      if choice then goto i (RunDone Resumed) s
      else Some {| flag := flag s; mutex := mutex s;
                   threads := setThread i (RunDone Spawned) s ++ [TaskStart] |}
  | Some (RunDone _) => None
  | Some TaskStart => acquire i TaskLocked s
  | Some TaskLocked =>
      Some {| flag := true; mutex := mutex s; threads := setThread i TaskMarked s |}
  | Some TaskMarked => release i TaskGenerating s
  | Some TaskGenerating => goto i (TaskEnding choice) s
  | Some (TaskEnding _) => acquire i TaskEndLocked s
  | Some TaskEndLocked =>
      Some {| flag := false; mutex := mutex s; threads := setThread i TaskCleared s |}
  | Some TaskCleared => release i TaskDone s
  | Some TaskDone => None
  end.

(** A schedule: which thread moves next, and with which choice. *)
Fixpoint exec (schedule : list (nat * bool)) (s : state) : option state :=
  match schedule with
  | [] => Some s
  | (i, c) :: rest =>
      match step i c s with
      | Some s' => exec rest s'
      | None => None
      end
  end.

(** [n] invocations of [run] about to start, no task, the flag down. *)
Definition initial (n : nat) : state :=
  {| flag := false; mutex := None; threads := replicate n RunStart |}.

Definition generating (p : pc) : bool :=
  match p with TaskGenerating => true | _ => false end.

(** A task between its [isRunning = true] and its [isRunning = false]. *)
Definition marked (p : pc) : bool :=
  match p with
  | TaskMarked | TaskGenerating | TaskEnding _ | TaskEndLocked => true
  | _ => false
  end.

Definition holds (p : pc) : bool :=
  match p with
  | RunLocked | RunSawRunning | RunSawIdle
  | TaskLocked | TaskMarked | TaskEndLocked | TaskCleared => true
  | _ => false
  end.

Definition countGenerating (s : state) : nat :=
  length (filter (fun p => generating p = true) (threads s)).

Definition reachable (n : nat) (s : state) : Prop :=
  exists schedule, exec schedule (initial n) = Some s.

(** Two invocations, no rewards file on disk.  Either invocation passes
    the check of line 172 and starts its task (thread 2, then thread 3)
    before a task has raised the flag; both tasks then raise it and
    generate. *)
Definition raceSchedule : list (nat * bool) :=
  [ (0, false); (0, false); (0, false); (0, false);     (* first run: Lock, read, Unlock, go *)
    (1, false); (1, false); (1, false); (1, false);     (* second run: the same *)
    (2, false); (2, false); (2, false);                 (* first task: Lock, set, Unlock *)
    (3, false); (3, false); (3, false) ]%nat.           (* second task: the same *)

(** The lock is held by exactly the thread that is at a program point
    between a [Lock] and its [Unlock]. *)
Definition lockInv (s : state) : Prop :=
  (forall h, mutex s = Some h -> is_Some (threads s !! h)) /\
  forall j p, threads s !! j = Some p -> (holds p = true <-> mutex s = Some j).

(** A raised flag has a task that raised it and has not yet cleared it. *)
Definition flagInv (s : state) : Prop :=
  flag s = true -> exists j p, threads s !! j = Some p /\ marked p = true.

End Interleaving.

(** ** What the properties look at *)

Module Observe.
Import Types.

Definition isSubmitTx (e : event) : bool :=
  match e with EvSubmitTx _ _ => true | _ => false end.

Definition isPut (e : event) : bool :=
  match e with EvPut _ _ => true | _ => false end.

(** A file of the local disk is created or written. *)
Definition isDiskWrite (e : event) : bool :=
  match e with
  | EvWriteFile _ _ _ | EvCreate _ _ | EvFileWrite _ _ _ => true
  | _ => false
  end.

Definition isGenerateTree (e : event) : bool :=
  match e with EvGenerateTree _ _ => true | _ => false end.

Definition isGo (e : event) : bool :=
  match e with EvGo _ => true | _ => false end.

(** The warning of line 241. *)
Definition isWarnIntervals (e : event) : bool :=
  match e with EvLog (LogWarnIntervals _) => true | _ => false end.

(** One of the two ways to the execution block header: by number (line
    156) or by timestamp (line 154).  The header of the latest block, line
    132, is asked for with no number. *)
Definition isResolve (e : event) : bool :=
  match e with
  | EvHeaderByNumber (Some _) | EvHeaderForTime _ => true
  | _ => false
  end.

(** No generation, no file write, no upload, no submission, no task. *)
Definition isQuiet (e : event) : bool :=
  negb (isSubmitTx e || isPut e || isDiskWrite e || isGenerateTree e || isGo e).

(** The events of [s'] that [s] does not have yet. *)
Definition newEvents (s s' : State) : list event :=
  drop (length (trace s)) (trace s').

(** [s] with [l] added to what happened. *)
Definition after (s : State) (l : list event) : State :=
  {| isRunning := isRunning s; fs := fs s; trace := trace s ++ l |}.

(** Every touch of [t.isRunning] happens between a [Lock] and the next
    [Unlock]; [held] says whether the lock is held at the start. *)
Fixpoint guarded (held : bool) (l : list event) : bool :=
  match l with
  | [] => true
  | EvLock :: l' => negb held && guarded true l'
  | EvUnlock :: l' => held && guarded false l'
  | EvReadRunning _ :: l' | EvSetRunning _ :: l' => held && guarded held l'
  | _ :: l' => guarded held l'
  end.

(** An event of the guard: the lock or the flag. *)
Definition isGuardEvent (e : event) : bool :=
  match e with
  | EvLock | EvUnlock | EvReadRunning _ | EvSetRunning _ => true
  | _ => false
  end.

(** A line of [handleError] on the error log. *)
Definition isFailureLog (e : event) : bool :=
  match e with
  | EvErrLog _ | EvErrLogFailed => true
  | _ => false
  end.

(** Neither of the two. *)
Definition isPlain (e : event) : bool := negb (isGuardEvent e || isFailureLog e).




End Observe.

(** ** Words of the specification, as definitions *)

Module Spec.
Import GoInt GoTime Types.

(** The networks of a rewards file are dense up to [g]: every id below
    [g] is there and [g] is the first gap. *)
Definition dense (rewards : gmap Z NetworkRewardsInfo) (g : Z) : Prop :=
  (forall i, 0 <= i < g -> is_Some (rewards !! i)) /\ rewards !! g = None.

(** The entry that network [i] contributes to a per-network array. *)
Definition entry (f : NetworkRewardsInfo -> Z) (rewards : gmap Z NetworkRewardsInfo)
    (i : Z) : Z :=
  match rewards !! i with
  | Some r => f r
  | None => 0
  end.

(** A Go map holds fewer than 2^64 entries. *)
Definition boundedFile (rewardsFile : RewardsFile) : Prop :=
  Z.of_nat (size (NetworkRewards rewardsFile)) < 2 ^ 64.

(** The artifact builder only hands out such files. *)
Definition boundedBuilder (env : Env) : Prop :=
  forall args archive rewardsFile,
    GenerateTree env args archive = Got rewardsFile -> boundedFile rewardsFile.

(** [ceil(a / b)] on integers, for [0 < b]. *)
Definition ceilDiv (a b : Z) : Z := (a + b - 1) / b.

(** The snapshot target in the words of the specification: the slot
    [ceil((end - genesis) / slotDuration)], the epoch that contains it, the
    last slot of that epoch, and the epoch after it, which has to be
    finalized.  Times are in nanoseconds. *)
Definition targetSlotOf (eth2Config : Eth2Config) (endTime : Time) : Z :=
  ceilDiv (endTime - Unix (GenesisTime eth2Config)) (SecondsPerSlot eth2Config * Second).

Definition targetOf (eth2Config : Eth2Config) (endTime : Time) : Z * Z * Z :=
  let targetEpoch := targetSlotOf eth2Config endTime / SlotsPerEpoch eth2Config in
  (targetEpoch,
   targetEpoch * SlotsPerEpoch eth2Config + SlotsPerEpoch eth2Config - 1,
   targetEpoch + 1).

(** The submission that [submitRewardsSnapshot] assembles (lines 395-406). *)
Definition submissionOf (env : Env) (index consensusBlock executionBlock : Z)
    (rewardsFile : RewardsFile) (root : bytes) (cid : string) (intervalsPassed : Z)
    (arrays : list Z * list Z * list Z) : RewardSubmission :=
  {| RewardIndex := index;
     ExecutionBlock := executionBlock;
     ConsensusBlock := consensusBlock;
     SubMerkleRoot := BytesToHash env root;
     MerkleTreeCID := cid;
     IntervalsPassed := intervalsPassed;
     TreasuryRPL := ProtocolDaoRpl (TotalRewards rewardsFile);
     NodeRPL := fst (fst arrays);
     TrustedNodeRPL := snd (fst arrays);
     NodeETH := snd arrays |}.

(** The storage service takes [data] for the file [compressedPath] and
    answers [cid]: the credential is set, and creating, writing and putting
    the compressed file all go through. *)
Definition uploads (env : Env) (compressedPath : string) (data : bytes) (cid : string) : Prop :=
  String.eqb (Web3StorageApiToken env) "" = false /\
  w3s_NewClient env = None /\
  os_Create env compressedPath = None /\
  File_Write env compressedPath (zstd_EncodeAll env data) = None /\
  w3s_Put env (zstd_EncodeAll env data) = Got cid.

(** The background task of a trusted node gets as far as the submission:
    the tree is built, both files are written and uploaded. *)
Definition reachesSubmission (env : Env) (tk : Task) (rewardsFile : RewardsFile)
    (performanceBytes : bytes) (performanceCid : string) (wrapperBytes : bytes)
    (cid : string) : Prop :=
  let useArchive := negb (String.eqb (ArchiveECUrl env) "") in
  tkNodeTrusted tk = true /\
  (useArchive = true ->
     ethclient_Dial env (ArchiveECUrl env) = None /\ NewRocketPool env = None) /\
  GenerateTree env (Watchtower.NewRewardsFile tk) useArchive = Got rewardsFile /\
  json_Marshal_performance env (MinipoolPerformance rewardsFile) = Got performanceBytes /\
  ioutil_WriteFile env (tkMinipoolPerformancePath tk) performanceBytes = WriteOk /\
  uploads env (tkCompressedMinipoolPerformancePath tk) performanceBytes performanceCid /\
  json_Marshal_rewards env (set_MinipoolPerformanceFileCID performanceCid rewardsFile)
    = Got wrapperBytes /\
  ioutil_WriteFile env (tkPath tk) wrapperBytes = WriteOk /\
  uploads env (tkCompressedPath tk) wrapperBytes cid.

(** The consensus client has no block at [slot]: the slot was skipped. *)
Definition missing (env : Env) (slot : Z) : Prop :=
  exists block, GetBeaconBlock env slot = Got (block, false).

(** What the walk does at [k] empty slots from [slot] down: it asks for
    each one and logs that it is missing. *)
Fixpoint skipEvents (slot : Z) (k : nat) : list event :=
  match k with
  | O => []
  | S k' => EvGetBeaconBlock slot :: EvLog (LogSlotMissing slot) :: skipEvents (slot - 1) k'
  end.

(** The registry's flag "this node has submitted the tree of interval
    [index]" reads [b]. *)
Definition submittedFlag (env : Env) (nodeAddress : Address) (index : Z) (b : bool) : Prop :=
  exists indexBuffer,
    Watchtower.FillBytes32 index = Some indexBuffer /\
    RocketStorage_GetBool env
      (Keccak256Hash env
         [String.list_byte_of_string "rewards.snapshot.submitted.node";
          nodeAddress; indexBuffer]) = Got b.

(** The transaction options [submitRewardsSnapshot] sends with (lines 420-422). *)
Definition sendOpts (env : Env) (opts : TransactOpts) (gas : GasInfo) : TransactOpts :=
  {| From := From opts;
     GasFeeCap := MaxFeeWei env;
     GasTipCap := MaxPriorityFeeWei env;
     GasLimit := SafeGasLimit gas |}.

(** The submission [submission] of the rewards file goes through: the root
    decodes to [root], the gas is estimated and passes the check, the
    transaction is sent as [hash] and mined. *)
Definition submits (env : Env) (rewardsFile : RewardsFile) (root : bytes)
    (arrays : list Z * list Z * list Z) (submission : RewardSubmission)
    (opts : TransactOpts) (gas : GasInfo) (hash : Hash) : Prop :=
  hex_DecodeString env (RemovePrefix env (MerkleRoot rewardsFile)) = Got root /\
  Watchtower.networkArrays (NetworkRewards rewardsFile) = Ok arrays /\
  GetNodeAccountTransactor env = Got opts /\
  EstimateSubmitRewardSnapshotGas env submission opts = Got gas /\
  PrintAndCheckGasInfo env gas (MaxFeeWei env) = true /\
  SubmitRewardSnapshot env submission (sendOpts env opts gas) = Got hash /\
  PrintAndWaitForTransaction env hash = None.

End Spec.

(** ** What a computation may do, as predicates *)

Module Effects.
Import Types Exec Observe.

(** Whatever the state, [m] only adds events that satisfy [P]. *)
Definition emitsOnly {A} (P : event -> bool) (m : M A) : Prop :=
  forall s, exists l, trace (snd (m s)) = trace s ++ l /\ forallb P l = true.

(** [m] returns (a value or an error), leaves the flag as it is, and adds
    neither guard events nor lines of [handleError]. *)
Definition quietly {A} (m : M A) : Prop :=
  forall s, exists l,
    trace (snd (m s)) = trace s ++ l /\ forallb isPlain l = true /\
    isRunning (snd (m s)) = isRunning (s) /\
    (is_Ok (fst (m s)) || is_Err (fst (m s))) = true.

End Effects.

(** ** More to look at in a trace *)

Module Looking.
Import GoInt Types.

(** What the loop of lines 514-530 does at [k] slots without a block, from
    [slot] down; the slot is a [uint64], and below 0 comes 2^64 - 1. *)
Fixpoint walkEvents (slot : Z) (k : nat) : list event :=
  match k with
  | O => []
  | S k' => EvGetBeaconBlock slot :: EvLog (LogSlotMissing slot) :: walkEvents (sub_u64 slot 1) k'
  end.

Definition isGetBeaconBlock (e : event) : bool :=
  match e with EvGetBeaconBlock _ => true | _ => false end.

(** The number that a buffer holds, most significant byte first. *)
Definition bigEndianValue (buf : bytes) : Z :=
  fold_left (fun acc b => acc * 256 + Z.of_N (Byte.to_N b)) buf 0.

(** The registry key that [hasSubmittedTree] reads (line 538). *)
Definition submittedKey (env : Env) (nodeAddress : Address) (indexBuffer : bytes) : Hash :=
  Keccak256Hash env
    [String.list_byte_of_string "rewards.snapshot.submitted.node"; nodeAddress; indexBuffer].

(** How every background task begins (lines 234-261): the flag goes up
    under the lock, then the warning about several intervals if there is
    one, the starting line, and the line about the archive client if one is
    configured. *)
Definition warnLine (tk : Task) : list event :=
  if 1 <? wrap_u64 (tkIntervalsPassed tk)
  then [EvLog (LogWarnIntervals (wrap_u64 (tkIntervalsPassed tk)))]
  else [].

Definition archiveLine (env : Env) : list event :=
  if negb (String.eqb (ArchiveECUrl env) "")
  then [EvLog (LogUsingArchive (ArchiveECUrl env))]
  else [].

Definition taskOpening (env : Env) (tk : Task) : list event :=
  [EvLock; EvSetRunning true; EvUnlock] ++ warnLine tk ++
  [EvLog (LogStarting (tkCurrentIndex tk) (tkSnapshotBeaconBlock tk)
            (tkElBlockIndex tk) (tkStartTime tk) (tkEndTime tk))] ++
  archiveLine env.

(** The archive client, when one is configured, can be reached. *)
Definition archiveReady (env : Env) : Prop :=
  negb (String.eqb (ArchiveECUrl env) "") = true ->
  ethclient_Dial env (ArchiveECUrl env) = None /\ NewRocketPool env = None.

(** The lines about nodes with an invalid network (lines 270-272). *)
Definition invalidNetworkLines (rewardsFile : RewardsFile) : list event :=
  map (fun an => EvLog (LogInvalidNetwork (fst an) (snd an))) (InvalidNetworkNodes rewardsFile).

End Looking.

(** ** What a computation keeps *)

Module Keeping.
Import Types Exec Observe.

(** Whatever the state, [m] ends in a state that [R] relates to it. *)
Definition always {A} (R : State -> State -> Prop) (m : M A) : Prop :=
  forall s, R s (snd (m s)).

(** [R] is kept by doing nothing, by one step after the other, by adding
    events to the trace and by writing a file. *)
Definition stable (R : State -> State -> Prop) : Prop :=
  (forall s, R s s) /\
  (forall s1 s2 s3, R s1 s2 -> R s2 s3 -> R s1 s3) /\
  (forall s l, R s (after s l)) /\
  (forall s path data,
     R s {| isRunning := isRunning s; fs := <[path := data]> (fs s); trace := trace s |}).

(** [R] is kept by setting the flag. *)
Definition flagFree (R : State -> State -> Prop) : Prop :=
  forall s b e, R s {| isRunning := b; fs := fs s; trace := trace s ++ [e] |}.

Definition sameFlag (s s' : State) : Prop := isRunning s' = isRunning s.

(** Every file of [s] is a file of [s']. *)
Definition filesKept (s s' : State) : Prop :=
  forall path, is_Some (fs s !! path) -> is_Some (fs s' !! path).

(** Whether the lock is held after the events [l]. *)
Fixpoint heldAfter (held : bool) (l : list event) : bool :=
  match l with
  | [] => held
  | EvLock :: l' => heldAfter true l'
  | EvUnlock :: l' => heldAfter false l'
  | _ :: l' => heldAfter held l'
  end.

(** Started with the lock as [held] says, [m] touches the flag only with
    the lock held and pairs every [Lock] with an [Unlock]; it ends with the
    lock as [heldOk] says when it returns a value, and with the lock free
    when it returns an error, panics or is cut short. *)
Definition guards {A} (held heldOk : bool) (m : M A) : Prop :=
  forall s, exists l,
    trace (snd (m s)) = trace s ++ l /\
    guarded held l = true /\
    heldAfter held l = if is_Ok (fst (m s)) then heldOk else false.

(** Nothing of the upload and submission pipeline: no compressed file, no
    upload, no gas estimate, no transaction. *)
Definition isOffline (e : event) : bool :=
  match e with
  | EvCreate _ _ | EvFileWrite _ _ _ | EvPut _ _
  | EvEstimateGas _ | EvSubmitTx _ _ | EvWaitTx _ => false
  | _ => true
  end.

(** Whatever the state, [m] only adds events that satisfy [P], and a value
    it returns satisfies [Q]. *)
Definition emitsPost {A} (P : event -> bool) (Q : A -> Prop) (m : M A) : Prop :=
  forall s, exists l,
    trace (snd (m s)) = trace s ++ l /\ forallb P l = true /\
    forall a, fst (m s) = Ok a -> Q a.

(** The CIDs that the storage service has answered so far for uploads
    that went through, [known] being those before the events [l]. *)
Fixpoint knownAfter (env : Env) (known : list string) (l : list event) : list string :=
  match l with
  | [] => known
  | EvPut data true :: l' =>
      knownAfter env (match w3s_Put env data with
                      | Got cid => cid :: known
                      | Failed _ => known
                      end) l'
  | _ :: l' => knownAfter env known l'
  end.

(** Every transaction in [l] carries one of the CIDs known when it is sent. *)
Fixpoint cidScan (env : Env) (known : list string) (l : list event) : bool :=
  match l with
  | [] => true
  | EvPut data true :: l' =>
      cidScan env (match w3s_Put env data with
                   | Got cid => cid :: known
                   | Failed _ => known
                   end) l'
  | EvSubmitTx submission _ :: l' =>
      existsb (String.eqb (MerkleTreeCID submission)) known && cidScan env known l'
  | _ :: l' => cidScan env known l'
  end.

(** Started with the CIDs [known], [m] only sends transactions that carry a
    known CID, and a value it returns satisfies [Q] with the CIDs known at
    the end. *)
Definition carries {A} (env : Env) (known : list string) (m : M A)
    (Q : A -> list string -> Prop) : Prop :=
  forall s, exists l,
    trace (snd (m s)) = trace s ++ l /\
    cidScan env known l = true /\
    forall a, fst (m s) = Ok a -> Q a (knownAfter env known l).

End Keeping.

(** ** More collaborators to run examples on *)

Module Cases.
Import GoInt GoTime Types Scenario.

(** The beacon client has a block at [slot] only. *)
Definition onlyAt (slot el : Z) (s : Z) : answer (BeaconBlock * bool) :=
  if s =? slot then Got ({| ExecutionBlockNumber := el |}, true)
  else Got ({| ExecutionBlockNumber := 0 |}, false).

(** It has no block at all. *)
Definition noBlocks (s : Z) : answer (BeaconBlock * bool) :=
  Got ({| ExecutionBlockNumber := 0 |}, false).

(** It fails at [slot] and has no block elsewhere. *)
Definition failingAt (slot : Z) (e : error) (s : Z) : answer (BeaconBlock * bool) :=
  if s =? slot then Failed e else Got ({| ExecutionBlockNumber := 0 |}, false).

Definition withBlocks (k : Knobs) (blocks : Z -> answer (BeaconBlock * bool)) : Knobs :=
  {| kTrusted := kTrusted k;
     kStartSec := kStartSec k;
     kIntervalSec := kIntervalSec k;
     kLatestSec := kLatestSec k;
     kFinalizedEpoch := kFinalizedEpoch k;
     kBlocks := blocks;
     kHasSubmitted := kHasSubmitted k;
     kGasOk := kGasOk k;
     kPut := kPut k;
     kGenerate := kGenerate k;
     kWriteFile := kWriteFile k |}.

Definition withInterval (k : Knobs) (intervalSec : Z) : Knobs :=
  {| kTrusted := kTrusted k;
     kStartSec := kStartSec k;
     kIntervalSec := intervalSec;
     kLatestSec := kLatestSec k;
     kFinalizedEpoch := kFinalizedEpoch k;
     kBlocks := kBlocks k;
     kHasSubmitted := kHasSubmitted k;
     kGasOk := kGasOk k;
     kPut := kPut k;
     kGenerate := kGenerate k;
     kWriteFile := kWriteFile k |}.

Definition withGenerate (k : Knobs) (generate : answer RewardsFile) : Knobs :=
  {| kTrusted := kTrusted k;
     kStartSec := kStartSec k;
     kIntervalSec := kIntervalSec k;
     kLatestSec := kLatestSec k;
     kFinalizedEpoch := kFinalizedEpoch k;
     kBlocks := kBlocks k;
     kHasSubmitted := kHasSubmitted k;
     kGasOk := kGasOk k;
     kPut := kPut k;
     kGenerate := generate;
     kWriteFile := kWriteFile k |}.

(** What is set apart from [e] in an example. *)
Record Changes := {
  chMode : RewardsMode;
  chToken : string;
  chEth2Config : answer Eth2Config;
  chStatFault : string -> option error;
  chWait : Hash -> option error;
  chHexDecode : string -> answer bytes
}.

Definition change (e : Env) (ch : Changes) : Env :=
  {| WaitEthClientSynced := WaitEthClientSynced e;
     WaitBeaconClientSynced := WaitBeaconClientSynced e;
     GetNodeAccount := GetNodeAccount e;
     GetMemberExists := GetMemberExists e;
     RewardsTreeMode := chMode ch;
     GetRewardsTreePath := GetRewardsTreePath e;
     GetMinipoolPerformancePath := GetMinipoolPerformancePath e;
     RewardsTreeIpfsExtension := RewardsTreeIpfsExtension e;
     ArchiveECUrl := ArchiveECUrl e;
     Web3StorageApiToken := chToken ch;
     MaxFeeWei := MaxFeeWei e;
     MaxPriorityFeeWei := MaxPriorityFeeWei e;
     GetClaimIntervalTimeStart := GetClaimIntervalTimeStart e;
     GetClaimIntervalTime := GetClaimIntervalTime e;
     GetRewardIndex := GetRewardIndex e;
     RocketStorage_GetBool := RocketStorage_GetBool e;
     HeaderByNumber := HeaderByNumber e;
     GetELBlockHeaderForTime := GetELBlockHeaderForTime e;
     ethclient_Dial := ethclient_Dial e;
     NewRocketPool := NewRocketPool e;
     GetEth2Config := chEth2Config ch;
     GetBeaconHead := GetBeaconHead e;
     GetBeaconBlock := GetBeaconBlock e;
     StatFault := chStatFault ch;
     ReadFault := ReadFault e;
     ioutil_WriteFile := ioutil_WriteFile e;
     os_Create := os_Create e;
     File_Write := File_Write e;
     json_Unmarshal := json_Unmarshal e;
     json_Marshal_performance := json_Marshal_performance e;
     json_Marshal_rewards := json_Marshal_rewards e;
     hex_DecodeString := chHexDecode ch;
     RemovePrefix := RemovePrefix e;
     BytesToHash := BytesToHash e;
     Keccak256Hash := Keccak256Hash e;
     GenerateTree := GenerateTree e;
     w3s_NewClient := w3s_NewClient e;
     zstd_EncodeAll := zstd_EncodeAll e;
     w3s_Put := w3s_Put e;
     GetNodeAccountTransactor := GetNodeAccountTransactor e;
     EstimateSubmitRewardSnapshotGas := EstimateSubmitRewardSnapshotGas e;
     PrintAndCheckGasInfo := PrintAndCheckGasInfo e;
     SubmitRewardSnapshot := SubmitRewardSnapshot e;
     PrintAndWaitForTransaction := chWait ch;
     archFloatToUint64 := archFloatToUint64 e |}.

Definition withMode (e : Env) (mode : RewardsMode) : Env :=
  change e {| chMode := mode; chToken := Web3StorageApiToken e;
              chEth2Config := GetEth2Config e; chStatFault := StatFault e;
              chWait := PrintAndWaitForTransaction e; chHexDecode := hex_DecodeString e |}.

Definition withToken (e : Env) (token : string) : Env :=
  change e {| chMode := RewardsTreeMode e; chToken := token;
              chEth2Config := GetEth2Config e; chStatFault := StatFault e;
              chWait := PrintAndWaitForTransaction e; chHexDecode := hex_DecodeString e |}.

Definition withEth2Config (e : Env) (cfg : answer Eth2Config) : Env :=
  change e {| chMode := RewardsTreeMode e; chToken := Web3StorageApiToken e;
              chEth2Config := cfg; chStatFault := StatFault e;
              chWait := PrintAndWaitForTransaction e; chHexDecode := hex_DecodeString e |}.

Definition withStatFault (e : Env) (fault : string -> option error) : Env :=
  change e {| chMode := RewardsTreeMode e; chToken := Web3StorageApiToken e;
              chEth2Config := GetEth2Config e; chStatFault := fault;
              chWait := PrintAndWaitForTransaction e; chHexDecode := hex_DecodeString e |}.

Definition withWait (e : Env) (wait : Hash -> option error) : Env :=
  change e {| chMode := RewardsTreeMode e; chToken := Web3StorageApiToken e;
              chEth2Config := GetEth2Config e; chStatFault := StatFault e;
              chWait := wait; chHexDecode := hex_DecodeString e |}.

Definition withHexDecode (e : Env) (decode : string -> answer bytes) : Env :=
  change e {| chMode := RewardsTreeMode e; chToken := Web3StorageApiToken e;
              chEth2Config := GetEth2Config e; chStatFault := StatFault e;
              chWait := PrintAndWaitForTransaction e; chHexDecode := decode |}.

End Cases.

(** ** The constructor of the task: [newSubmitRewardsTree] *)

Module Constructor.
Import Types.

(** What [services.GetConfig(c)], [GetWallet], [GetEthClient],
    [GetBeaconClient] and [GetRocketPool] answer: a handle (a pointer or an
    interface value, kept as a number) or an error. *)
Record Services := {
  GetConfig : answer Z;
  GetWallet : answer Z;
  GetEthClient : answer Z;
  GetBeaconClient : answer Z;
  GetRocketPool : answer Z
}.

Inductive service := SvcConfig | SvcWallet | SvcEthClient | SvcBeaconClient | SvcRocketPool.

(** The [submitRewardsTree] struct; [lock] is the state of the fresh
    [sync.Mutex]: true when locked. *)
Record submitRewardsTree := {
  c : Z;
  log : Z;
  errLog : Z;
  cfg : Z;
  w : Z;
  rp : Z;
  ec : Z;
  bc : Z;
  lock : bool;
  isRunning : bool
}.

(** The services asked for, in order, and what is returned: the task, or
    nil and the error. *)
Definition newSubmitRewardsTree (svc : Services) (c logger errorLogger : Z)
    : list service * answer submitRewardsTree :=
  (* Get services *)
  match GetConfig svc with
  | Failed err => ([SvcConfig], Failed err)
  | Got cfg =>
  match GetWallet svc with
  | Failed err => ([SvcConfig; SvcWallet], Failed err)
  | Got w =>
  match GetEthClient svc with
  | Failed err => ([SvcConfig; SvcWallet; SvcEthClient], Failed err)
  | Got ec =>
  match GetBeaconClient svc with
  | Failed err => ([SvcConfig; SvcWallet; SvcEthClient; SvcBeaconClient], Failed err)
  | Got bc =>
  match GetRocketPool svc with
  | Failed err =>
      ([SvcConfig; SvcWallet; SvcEthClient; SvcBeaconClient; SvcRocketPool], Failed err)
  | Got rp =>
      let lock := false in
      let generator :=
        {| c := c;
           log := logger;
           errLog := errorLogger;
           cfg := cfg;
           ec := ec;
           bc := bc;
           w := w;
           rp := rp;
           lock := lock;
           isRunning := false |} in
      ([SvcConfig; SvcWallet; SvcEthClient; SvcBeaconClient; SvcRocketPool], Got generator)
  end end end end end.

(** The error a service answers with, if any. *)
Definition errorOf {A} (a : answer A) : option error :=
  match a with Got _ => None | Failed e => Some e end.

(** The five services in the order the constructor asks for them. *)
Definition inOrder (svc : Services) : list (service * option error) :=
  [(SvcConfig, errorOf (GetConfig svc));
   (SvcWallet, errorOf (GetWallet svc));
   (SvcEthClient, errorOf (GetEthClient svc));
   (SvcBeaconClient, errorOf (GetBeaconClient svc));
   (SvcRocketPool, errorOf (GetRocketPool svc))].

End Constructor.

(** ** The state locker of the metrics collectors ([src/unnamed/part_001])

    [StateLocker] holds two pointers behind one mutex.  Every method locks,
    defers the unlock and then reads or writes; the calls of several
    goroutines interleave between statements. *)

Module Collectors.

(** A [*state.NetworkState] or a [*big.Int]: [None] is nil. *)
Definition ptr := option Z.

Inductive call :=
| UpdateState (state totalEffectiveStake : ptr)
| GetState
| GetTotalEffectiveRPLStake.

(** Where a goroutine is in a method. *)
Inductive pc :=
| Idle                                  (* between two calls *)
| Locked (c : call)                     (* after [l.lock.Lock()] and the [defer] *)
| StateSet (totalEffectiveStake : ptr)  (* [UpdateState] after [l.state = state] *)
| Returning (v : option ptr).           (* the body is done ([v]: what [return]
                                           evaluated); the deferred [Unlock] is next *)

(** A goroutine: the calls it still has to make and what its getters
    returned so far. *)
Record thread := { at_pc : pc; todo : list call; got : list ptr }.

Record StateLocker := {
  state : ptr;
  totalEffectiveStake : ptr;
  lock : option nat                     (* the goroutine that holds [l.lock] *)
}.

Definition NewStateLocker : StateLocker :=
  {| state := None; totalEffectiveStake := None; lock := None |}.

Record world := { locker : StateLocker; threads : list thread }.

Definition move (i : nat) (t : thread) (l : StateLocker) (w : world) : world :=
  {| locker := l; threads := <[i := t]> (threads w) |}.

(** One statement of goroutine [i]; [None] when it cannot move: it has
    nothing left to do, or it waits for the lock. *)
Definition step (i : nat) (w : world) : option world :=
  let l := locker w in
  match threads w !! i with
  | None => None
  | Some t =>
      match at_pc t with
      | Idle =>
          match todo t with
          | [] => None
          | c :: rest =>
              match lock l with
              | Some _ => None
              | None =>
                  Some (move i {| at_pc := Locked c; todo := rest; got := got t |}
                          {| state := state l; totalEffectiveStake := totalEffectiveStake l;
                             lock := Some i |} w)
              end
          end
      | Locked (UpdateState st total) =>
          Some (move i {| at_pc := StateSet total; todo := todo t; got := got t |}
                  {| state := st; totalEffectiveStake := totalEffectiveStake l;
                     lock := lock l |} w)
      | StateSet total =>
          Some (move i {| at_pc := Returning None; todo := todo t; got := got t |}
                  {| state := state l; totalEffectiveStake := total; lock := lock l |} w)
      | Locked GetState =>
          Some (move i {| at_pc := Returning (Some (state l)); todo := todo t; got := got t |}
                  l w)
      | Locked GetTotalEffectiveRPLStake =>
          Some (move i {| at_pc := Returning (Some (totalEffectiveStake l)); todo := todo t;
                          got := got t |} l w)
      | Returning v =>
          Some (move i {| at_pc := Idle; todo := todo t;
                          got := got t ++ match v with Some p => [p] | None => [] end |}
                  {| state := state l; totalEffectiveStake := totalEffectiveStake l;
                     lock := None |} w)
      end
  end.

Fixpoint exec (schedule : list nat) (w : world) : option world :=
  match schedule with
  | [] => Some w
  | i :: rest =>
      match step i w with
      | Some w' => exec rest w'
      | None => None
      end
  end.

(** A new locker and one goroutine for each list of calls. *)
Definition start (programs : list (list call)) : world :=
  {| locker := NewStateLocker;
     threads := map (fun p => {| at_pc := Idle; todo := p; got := [] |}) programs |}.

Definition reachable (programs : list (list call)) (w : world) : Prop :=
  exists schedule, exec schedule (start programs) = Some w.

Definition isUpdate (c : call) : bool :=
  match c with UpdateState _ _ => true | _ => false end.

Definition finished (t : thread) : Prop := at_pc t = Idle /\ todo t = [].

(** What the getters of one goroutine return when nothing else writes:
    each one the argument of the last [UpdateState] before it, or what the
    fields held at the start. *)
Fixpoint replay (st total : ptr) (p : list call) : list ptr :=
  match p with
  | [] => []
  | UpdateState st' total' :: rest => replay st' total' rest
  | GetState :: rest => st :: replay st total rest
  | GetTotalEffectiveRPLStake :: rest => total :: replay st total rest
  end.

(** The two fields after the calls [p] of the only goroutine that writes. *)
Fixpoint fieldsAfter (st total : ptr) (p : list call) : ptr * ptr :=
  match p with
  | [] => (st, total)
  | UpdateState st' total' :: rest => fieldsAfter st' total' rest
  | _ :: rest => fieldsAfter st total rest
  end.

(** Goroutine 0 runs the calls [p] and is the only one that calls
    [UpdateState]: how far it is, and what the fields and its results are
    there. *)
Definition writerInv (p : list call) (w : world) : Prop :=
  (exists t done,
     threads w !! 0%nat = Some t /\
     let l := locker w in
     let settled :=
       (state l, totalEffectiveStake l) = fieldsAfter None None done /\
       got t = replay None None done in
     match at_pc t with
     | Idle => p = done ++ todo t /\ settled
     | Locked c => p = done ++ c :: todo t /\ settled
     | StateSet total =>
         p = done ++ UpdateState (state l) total :: todo t /\
         totalEffectiveStake l = snd (fieldsAfter None None done) /\
         got t = replay None None done
     | Returning None => p = done ++ todo t /\ settled
     | Returning (Some v) =>
         exists c, p = (done ++ [c]) ++ todo t /\ isUpdate c = false /\
                   (state l, totalEffectiveStake l) = fieldsAfter None None done /\
                   got t ++ [v] = replay None None (done ++ [c])
     end) /\
  (forall j t, j <> 0%nat -> threads w !! j = Some t ->
     (forall c, In c (todo t) -> isUpdate c = false) /\
     (forall c, at_pc t = Locked c -> isUpdate c = false) /\
     (forall total, at_pc t <> StateSet total)).

(** The two fields are the arguments of one [UpdateState] among the
    calls [calls], or both still nil. *)
Definition paired (calls : list call) (l : StateLocker) : Prop :=
  (state l = None /\ totalEffectiveStake l = None) \/
  In (UpdateState (state l) (totalEffectiveStake l)) calls.

(** What holds of the locker and its goroutines at every moment. *)
Definition lockerInv (calls : list call) (w : world) : Prop :=
  (forall j t, threads w !! j = Some t -> (at_pc t <> Idle <-> lock (locker w) = Some j)) /\
  (forall j t, threads w !! j = Some t ->
     (forall c, In c (todo t) -> In c calls) /\
     (forall c, at_pc t = Locked c -> In c calls)) /\
  (forall j t total, threads w !! j = Some t -> at_pc t = StateSet total ->
     In (UpdateState (state (locker w)) total) calls) /\
  ((forall j t total, threads w !! j = Some t -> at_pc t <> StateSet total) ->
   paired calls (locker w)).

End Collectors.

(** ** How the background task ends *)

Module Ending.
Import GoInt GoTime Types Exec Watchtower Observe Spec Effects Looking.

(** The last line the task logs when it has gone through (lines 336 and 338). *)
Definition isDoneLine (e : event) : bool :=
  match e with
  | EvLog (LogSubmittedBackground _) | EvLog (LogGeneratedBackground _) => true
  | _ => false
  end.

Definition taskDoneLine (tk : Task) : event :=
  EvLog (if tkNodeTrusted tk then LogSubmittedBackground (tkCurrentIndex tk)
         else LogGeneratedBackground (tkCurrentIndex tk)).

(** An event on the way: not of the guard, not a line of [handleError],
    not the last line. *)
Definition isStep (e : event) : bool := isPlain e && negb (isDoneLine e).

(** [submitRewardsSnapshot] returns nil: the root decodes, the transactor
    and the gas estimate are obtained, and then either the gas check
    declines, or the transaction is sent and mined. *)
Definition submissionReturnsNil (env : Env) (index consensusBlock executionBlock : Z)
    (rewardsFile : RewardsFile) (cid : string) (intervalsPassed : Z) : Prop :=
  exists root arrays opts gas,
    hex_DecodeString env (RemovePrefix env (MerkleRoot rewardsFile)) = Got root /\
    networkArrays (NetworkRewards rewardsFile) = Ok arrays /\
    GetNodeAccountTransactor env = Got opts /\
    EstimateSubmitRewardSnapshotGas env
      (submissionOf env index consensusBlock executionBlock rewardsFile root cid
         intervalsPassed arrays) opts = Got gas /\
    (PrintAndCheckGasInfo env gas (MaxFeeWei env) = false \/
     exists hash,
       SubmitRewardSnapshot env
         (submissionOf env index consensusBlock executionBlock rewardsFile root cid
            intervalsPassed arrays) (sendOpts env opts gas) = Got hash /\
       PrintAndWaitForTransaction env hash = None).

(** No call of the task [tk] fails: each collaborator it asks, with what
    the earlier ones have answered, answers without an error. *)
Definition taskCompletes (env : Env) (tk : Task) : Prop :=
  let useArchive := negb (String.eqb (ArchiveECUrl env) "") in
  exists rewardsFile performanceBytes wrapperBytes,
    archiveReady env /\
    GenerateTree env (NewRewardsFile tk) useArchive = Got rewardsFile /\
    json_Marshal_performance env (MinipoolPerformance rewardsFile) = Got performanceBytes /\
    ioutil_WriteFile env (tkMinipoolPerformancePath tk) performanceBytes = WriteOk /\
    if tkNodeTrusted tk then
      exists performanceCid cid,
        uploads env (tkCompressedMinipoolPerformancePath tk) performanceBytes performanceCid /\
        json_Marshal_rewards env (set_MinipoolPerformanceFileCID performanceCid rewardsFile)
          = Got wrapperBytes /\
        ioutil_WriteFile env (tkPath tk) wrapperBytes = WriteOk /\
        uploads env (tkCompressedPath tk) wrapperBytes cid /\
        submissionReturnsNil env (tkCurrentIndexBig tk) (tkSnapshotBeaconBlock tk)
          (tkElBlockIndex tk) (set_MinipoolPerformanceFileCID performanceCid rewardsFile)
          cid (tkIntervalsPassed tk)
    else
      json_Marshal_rewards env (set_MinipoolPerformanceFileCID "---" rewardsFile)
        = Got wrapperBytes /\
      ioutil_WriteFile env (tkPath tk) wrapperBytes = WriteOk.

(** How the events [l] of a background task, between raising the flag and
    clearing it, end: with the last line [done], and then [C] holds; or
    with the two lines that [handleError] writes for a wrapped error. *)
Definition ending (done : event) (C : Prop) (l : list event) : Prop :=
  (exists l0, l = l0 ++ [done] /\ forallb isStep l0 = true /\ C) \/
  (exists l0 msg e,
     l = l0 ++ [EvErrLog (ErrWrap msg e); EvErrLogFailed] /\ forallb isStep l0 = true).

(** [m] runs to its end, the flag is down when it ends, the last it does
    is to clear the flag under the lock, and before that it ends as
    [ending] says. *)
Definition finishing (done : event) (C : Prop) (m : M unit) : Prop :=
  forall s, exists s' l,
    m s = (Ok tt, s') /\ isRunning s' = false /\
    trace s' = trace s ++ l ++ [EvLock; EvSetRunning false; EvUnlock] /\
    ending done C l.

(** [m] returns (a value or an error), leaves the flag as it is, and adds
    only events on the way. *)
Definition steadily {A} (m : M A) : Prop :=
  forall s, exists l,
    trace (snd (m s)) = trace s ++ l /\ forallb isStep l = true /\
    isRunning (snd (m s)) = isRunning (s) /\
    (is_Ok (fst (m s)) || is_Err (fst (m s))) = true.

End Ending.

(** ** What is done with the execution block *)

Module Resolving.
Import GoInt Types.

Definition sameHeader (a b : Header) : bool :=
  (Number a =? Number b) && (HeaderTime a =? HeaderTime b).

(** The event carries no other execution block than the one of [header],
    with the number [elBlockIndex], and no other consensus block than
    [slot]: the task that is started, the arguments of the tree builder,
    the submission that is estimated and the one that is sent. *)
Definition usesBlock (header : Header) (elBlockIndex slot : Z) (e : event) : bool :=
  match e with
  | EvGo tk =>
      sameHeader (tkSnapshotElBlockHeader tk) header &&
      (tkElBlockIndex tk =? elBlockIndex) && (tkSnapshotBeaconBlock tk =? slot)
  | EvGenerateTree args _ =>
      sameHeader (nrfElHeader args) header && (nrfConsensusBlock args =? slot)
  | EvEstimateGas submission | EvSubmitTx submission _ =>
      (ExecutionBlock submission =? elBlockIndex) && (ConsensusBlock submission =? slot)
  | _ => true
  end.

End Resolving.

(** * Properties *)

Import GoInt GoTime Types Exec Watchtower Observe Spec Effects.

(** ** Tracing what a computation adds to the trace *)

Section Emits.
Variable P : event -> bool.


Lemma emitsOnly_ret {A} (a : A) : emitsOnly P (ret a).
Proof. intros s. exists []. by rewrite app_nil_r. Qed.

Lemma emitsOnly_fail {A} e : emitsOnly P (@fail A e).
Proof. intros s. exists []. by rewrite app_nil_r. Qed.

Lemma emitsOnly_panic {A} : emitsOnly P (@panic A).
Proof. intros s. exists []. by rewrite app_nil_r. Qed.

Lemma emitsOnly_nofuel {A} : emitsOnly P (@nofuel A).
Proof. intros s. exists []. by rewrite app_nil_r. Qed.

Lemma emitsOnly_lift {A} (r : answer A) : emitsOnly P (lift r).
Proof. intros s. exists []. destruct r; by rewrite app_nil_r. Qed.

Lemma emitsOnly_liftR {A} (r : result A) : emitsOnly P (liftR r).
Proof. intros s. exists []. by rewrite app_nil_r. Qed.

Lemma emitsOnly_liftE r : emitsOnly P (liftE r).
Proof. destruct r; [apply emitsOnly_fail | apply emitsOnly_ret]. Qed.

Lemma emitsOnly_orPanic {A} (r : option A) : emitsOnly P (orPanic r).
Proof. destruct r; [apply emitsOnly_ret | apply emitsOnly_panic]. Qed.

Lemma emitsOnly_emit e : P e = true -> emitsOnly P (emit e).
Proof. intros He s. exists [e]. simpl. by rewrite He. Qed.

Lemma emitsOnly_setFile p d : emitsOnly P (setFile p d).
Proof. intros s. exists []. by rewrite app_nil_r. Qed.

Lemma emitsOnly_getFs : emitsOnly P getFs.
Proof. intros s. exists []. by rewrite app_nil_r. Qed.

Lemma emitsOnly_bind {A B} (m : M A) (k : A -> M B) :
  emitsOnly P m -> (forall a, emitsOnly P (k a)) -> emitsOnly P (bind m k).
Proof.
  intros Hm Hk s. unfold bind.
  destruct (Hm s) as (l1 & E1 & F1).
  destruct (m s) as [[a | e | | ] s1]; simpl in *; eauto.
  destruct (Hk a s1) as (l2 & E2 & F2).
  exists (l1 ++ l2). rewrite E2, E1, app_assoc, forallb_app, F1, F2. done.
Qed.

Lemma emitsOnly_wrapErr {A} msg (m : M A) : emitsOnly P m -> emitsOnly P (wrapErr msg m).
Proof.
  intros Hm s. unfold wrapErr.
  destruct (Hm s) as (l1 & E1 & F1).
  destruct (m s) as [[a | e | | ] s1]; simpl in *; eauto.
Qed.

Lemma emitsOnly_readRunning :
  (forall b, P (EvReadRunning b) = true) -> emitsOnly P readRunning.
Proof. intros H s. exists [EvReadRunning (isRunning s)]. simpl. by rewrite H. Qed.

Lemma emitsOnly_setRunning b : P (EvSetRunning b) = true -> emitsOnly P (setRunning b).
Proof. intros H s. exists [EvSetRunning b]. simpl. by rewrite H. Qed.

Lemma emitsOnly_orHandle {A} msg (m : M A) (k : A -> M unit) :
  emitsOnly P m -> (forall a, emitsOnly P (k a)) ->
  (forall e, emitsOnly P (handleError e)) ->
  emitsOnly P (orHandle msg m k).
Proof.
  intros Hm Hk Hh s. unfold orHandle.
  destruct (Hm s) as (l1 & E1 & F1).
  destruct (m s) as [[a | e | | ] s1]; simpl in E1; eauto.
  - destruct (Hk a s1) as (l2 & E2 & F2).
    exists (l1 ++ l2). rewrite E2, E1, app_assoc, forallb_app, F1, F2. done.
  - destruct (Hh (ErrWrap msg e) s1) as (l2 & E2 & F2).
    exists (l1 ++ l2). rewrite E2, E1, app_assoc, forallb_app, F1, F2. done.
Qed.

Lemma emitsOnly_slotWalk env fuel cfg genesisTime requiredEpoch targetSlot :
  (forall slot, P (EvGetBeaconBlock slot) = true) ->
  (forall slot, P (EvLog (LogSlotMissing slot)) = true) ->
  emitsOnly P (slotWalk env fuel cfg genesisTime requiredEpoch targetSlot).
Proof.
  intros H1 H2. revert targetSlot.
  induction fuel as [|fuel IH]; intros targetSlot; simpl.
  - apply emitsOnly_nofuel.
  - apply emitsOnly_bind.
    + apply emitsOnly_wrapErr, emitsOnly_bind; [by apply emitsOnly_emit|].
      intros _. apply emitsOnly_lift.
    + intros [b ex]. destruct ex; simpl.
      * apply emitsOnly_ret.
      * apply emitsOnly_bind; [by apply emitsOnly_emit | intros _; apply IH].
Qed.

Lemma emitsOnly_logInvalidNetworkNodes nodes :
  (forall a n, P (EvLog (LogInvalidNetwork a n)) = true) ->
  emitsOnly P (logInvalidNetworkNodes nodes).
Proof.
  intros H. induction nodes as [|an nodes IH]; simpl.
  - apply emitsOnly_ret.
  - apply emitsOnly_bind; [by apply emitsOnly_emit | by intros _].
Qed.

End Emits.

(** Walks down a computation, leaving the events it may add to be checked
    against the predicate. *)
Ltac emits_step :=
  first
    [ apply emitsOnly_ret | apply emitsOnly_fail | apply emitsOnly_panic
    | apply emitsOnly_nofuel | apply emitsOnly_lift | apply emitsOnly_liftR
    | apply emitsOnly_liftE | apply emitsOnly_orPanic
    | apply emitsOnly_setFile | apply emitsOnly_getFs
    | apply emitsOnly_emit; reflexivity
    | apply emitsOnly_readRunning; reflexivity
    | apply emitsOnly_setRunning; reflexivity
    | apply emitsOnly_slotWalk; reflexivity
    | apply emitsOnly_logInvalidNetworkNodes; reflexivity
    | apply emitsOnly_wrapErr
    | apply emitsOnly_bind; [ | intros ? ]
    | apply emitsOnly_orHandle; [ | intros ? | intros ? ]
    | match goal with
      | |- emitsOnly _ (if ?b then _ else _) => destruct b
      | |- emitsOnly _ (match ?x with _ => _ end) => destruct x
      | |- emitsOnly _ ((if ?b then _ else _) _) => destruct b
      end ].

Ltac emits :=
  unfold run, runInterval, resumeOrGenerate, resumeStored, resolveElHeader, generationTask,
    getSnapshotConsensusBlock, hasSubmittedTree, uploadFileToWeb3Storage,
    submitRewardsSnapshot, handleError, os_Stat, ReadFile, WriteFile, lock, unlock;
  repeat emits_step.

(** The same walk for a predicate that compares what an event carries:
    [check] settles the events. *)
Ltac emits_step_by check :=
  first
    [ apply emitsOnly_ret | apply emitsOnly_fail | apply emitsOnly_panic
    | apply emitsOnly_nofuel | apply emitsOnly_lift | apply emitsOnly_liftR
    | apply emitsOnly_liftE | apply emitsOnly_orPanic
    | apply emitsOnly_setFile | apply emitsOnly_getFs
    | apply emitsOnly_emit; check
    | apply emitsOnly_readRunning; reflexivity
    | apply emitsOnly_setRunning; reflexivity
    | apply emitsOnly_slotWalk; reflexivity
    | apply emitsOnly_logInvalidNetworkNodes; reflexivity
    | apply emitsOnly_wrapErr
    | apply emitsOnly_bind; [ | intros ? ]
    | apply emitsOnly_orHandle; [ | intros ? | intros ? ]
    | match goal with
      | |- emitsOnly _ (if ?b then _ else _) => destruct b
      | |- emitsOnly _ (match ?x with _ => _ end) => destruct x
      | |- emitsOnly _ ((if ?b then _ else _) _) => destruct b
      end ].

Ltac emits_by check :=
  unfold run, runInterval, resumeOrGenerate, resumeStored, resolveElHeader, generationTask,
    getSnapshotConsensusBlock, hasSubmittedTree, uploadFileToWeb3Storage,
    submitRewardsSnapshot, handleError, os_Stat, ReadFile, WriteFile, lock, unlock;
  repeat emits_step_by check.

(** ** The per-network arrays of the submission *)

Section NetworkArrays.
Implicit Types (rewards : gmap Z NetworkRewardsInfo) (g n : Z).

Lemma entry_Some f rewards i r : rewards !! i = Some r -> entry f rewards i = f r.
Proof. intros H. unfold entry. by rewrite H. Qed.

(** The ids below the first gap are all keys: there are at most as many as
    the map has entries. *)
Lemma dense_size rewards g :
  0 <= g -> (forall i, 0 <= i < g -> is_Some (rewards !! i)) ->
  (Z.to_nat g <= size rewards)%nat.
Proof.
  intros Hg Hall.
  assert (Hsub : (list_to_set (seqZ 0 g) : gset Z) ⊆ dom rewards).
  { intros i Hi. apply elem_of_list_to_set, elem_of_seqZ in Hi.
    apply elem_of_dom, Hall. lia. }
  apply subseteq_size in Hsub.
  rewrite size_dom in Hsub.
  rewrite size_list_to_set in Hsub by apply NoDup_seqZ.
  by rewrite length_seqZ in Hsub.
Qed.

(** The loop invariant: started at [n] with the arrays [c], [o], [e], the
    loop adds the entries of [n .. g-1] and leaves at the gap [g]. *)
Lemma networkLoop_spec rewards g (fuel : nat) n c o e :
  dense rewards g -> g < 2 ^ 64 -> 0 <= n <= g -> (Z.to_nat (g - n) < fuel)%nat ->
  networkLoop fuel rewards n c o e =
    Ok (c ++ (entry CollateralRpl rewards <$> seqZ n (g - n)),
        o ++ (entry OracleDaoRpl rewards <$> seqZ n (g - n)),
        e ++ (entry SmoothingPoolEth rewards <$> seqZ n (g - n))).
Proof.
  intros [Hall Hgap] Hg64.
  revert n c o e.
  induction fuel as [|fuel IH]; intros n c o e Hn Hfuel; [lia|].
  simpl. destruct (decide (n = g)) as [->|Hne].
  - rewrite Hgap, Z.sub_diag. simpl. by rewrite !app_nil_r.
  - destruct (Hall n ltac:(lia)) as [r Hr]. rewrite Hr.
    assert (Hw : add_u64 n 1 = n + 1).
    { unfold add_u64, wrap_u64. apply Z.mod_small. lia. }
    rewrite Hw, IH by lia.
    rewrite (seqZ_cons n (g - n)) by lia.
    rewrite !fmap_cons, !(entry_Some _ _ _ _ Hr).
    replace (Z.succ n) with (n + 1) by lia.
    replace (Z.pred (g - n)) with (g - (n + 1)) by lia.
    by rewrite <- !app_assoc.
Qed.

Lemma networkArrays_spec rewards g :
  dense rewards g -> 0 <= g < 2 ^ 64 ->
  networkArrays rewards =
    Ok (entry CollateralRpl rewards <$> seqZ 0 g,
        entry OracleDaoRpl rewards <$> seqZ 0 g,
        entry SmoothingPoolEth rewards <$> seqZ 0 g).
Proof.
  intros Hd Hg. unfold networkArrays.
  rewrite (networkLoop_spec rewards g) by
    (try done; try lia; pose proof (dense_size rewards g (proj1 Hg) (proj1 Hd)); lia).
  by rewrite Z.sub_0_r.
Qed.

(** Every finite map has a first gap, within its size. *)
Lemma first_gap_exists rewards :
  exists g, 0 <= g <= Z.of_nat (size rewards) /\ dense rewards g.
Proof.
  assert (Hsearch : forall k : nat,
    (exists g, 0 <= g < Z.of_nat k /\ dense rewards g) \/
    (forall i, 0 <= i < Z.of_nat k -> is_Some (rewards !! i))).
  { induction k as [|k [IH | IH]].
    - right. intros i Hi. lia.
    - left. destruct IH as (g & Hg & Hd). exists g. split; [lia | done].
    - destruct (rewards !! Z.of_nat k) as [r|] eqn:Hk.
      + right. intros i Hi. destruct (decide (i = Z.of_nat k)) as [->|]; [eauto|].
        apply IH. lia.
      + left. exists (Z.of_nat k). split; [lia|]. by split. }
  destruct (Hsearch (S (size rewards))) as [(g & Hg & Hd) | Hall].
  - exists g. split; [lia | done].
  - pose proof (dense_size rewards (Z.of_nat (S (size rewards))) ltac:(lia) Hall). lia.
Qed.

(** The loop comes to its end on every map a Go program can hold. *)
Lemma networkArrays_total rewards :
  Z.of_nat (size rewards) < 2 ^ 64 -> exists arrays, networkArrays rewards = Ok arrays.
Proof.
  intros Hsz. destruct (first_gap_exists rewards) as (g & Hg & Hd).
  eexists. apply (networkArrays_spec rewards g Hd). lia.
Qed.

Lemma networkLoop_Ok_or_NoFuel fuel rewards n c o e :
  is_Ok (networkLoop fuel rewards n c o e) = true \/
  networkLoop fuel rewards n c o e = NoFuel.
Proof.
  revert n c o e. induction fuel as [|fuel IH]; intros n c o e; simpl; [by right|].
  destruct (rewards !! n); [apply IH | by left].
Qed.

End NetworkArrays.

(** C7. Dense per-network reward arrays: when the networks of the rewards
    file are defined on every id below [g] and not on [g],
    [submitRewardsSnapshot] builds the collateral-RPL, oracle-DAO-RPL and
    smoothing-pool-ETH arrays with exactly [g] entries each, the entry at
    position [i] being that of network [i]; these are the arrays of the
    submission whose gas is estimated. *)
Theorem submitRewardsSnapshot_dense_arrays
    (env : Env) (index consensusBlock executionBlock : Z) (rewardsFile : RewardsFile)
    (cid : string) (intervalsPassed : Z) (s : State) (g : Z) (root : bytes)
    (opts : TransactOpts) :
  dense (NetworkRewards rewardsFile) g ->
  0 <= g < 2 ^ 64 ->
  hex_DecodeString env (RemovePrefix env (MerkleRoot rewardsFile)) = Got root ->
  GetNodeAccountTransactor env = Got opts ->
  let rewards := NetworkRewards rewardsFile in
  let collateral := entry CollateralRpl rewards <$> seqZ 0 g in
  let oDao := entry OracleDaoRpl rewards <$> seqZ 0 g in
  let smoothing := entry SmoothingPoolEth rewards <$> seqZ 0 g in
  networkArrays rewards = Ok (collateral, oDao, smoothing) /\
  (length collateral = Z.to_nat g /\ length oDao = Z.to_nat g /\
   length smoothing = Z.to_nat g) /\
  (forall i r, 0 <= i < g -> rewards !! i = Some r ->
     collateral !! Z.to_nat i = Some (CollateralRpl r) /\
     oDao !! Z.to_nat i = Some (OracleDaoRpl r) /\
     smoothing !! Z.to_nat i = Some (SmoothingPoolEth r)) /\
  head (newEvents s
          (snd (submitRewardsSnapshot env index consensusBlock executionBlock
                  rewardsFile cid intervalsPassed s))) =
    Some (EvEstimateGas
            (submissionOf env index consensusBlock executionBlock rewardsFile root cid
               intervalsPassed (collateral, oDao, smoothing))).
Proof.
  intros Hd Hg Hroot Hopts rewards collateral oDao smoothing.
  assert (Harr : networkArrays rewards = Ok (collateral, oDao, smoothing))
    by exact (networkArrays_spec rewards g Hd Hg).
  split; [exact Harr|]. split.
  - unfold collateral, oDao, smoothing. by rewrite !length_fmap, !length_seqZ.
  - split.
    + intros i r Hi Hr. unfold collateral, oDao, smoothing.
      rewrite !list_lookup_fmap, !lookup_seqZ_lt by lia.
      simpl. rewrite !Z2Nat.id, !(entry_Some _ _ _ _ Hr) by lia. done.
    + unfold submitRewardsSnapshot, bind, wrapErr, lift, liftR.
      rewrite Hroot. fold rewards. rewrite Harr, Hopts. cbn [emit].
      unfold newEvents.
      destruct (EstimateSubmitRewardSnapshotGas env _ opts) as [gas|e] eqn:Hgas.
      * destruct (PrintAndCheckGasInfo env gas (MaxFeeWei env)); cbn.
        -- destruct (SubmitRewardSnapshot env _ _); cbn;
             [destruct (PrintAndWaitForTransaction env _); cbn|];
             rewrite <- ?app_assoc, drop_app_length; reflexivity.
        -- by rewrite drop_app_length.
      * cbn. by rewrite drop_app_length.
Qed.

(** The arrays for networks 0, 1 and 2, with nothing at 3, have length 3. *)
Lemma submitRewardsSnapshot_dense_arrays_witness :
  let s := Scenario.emptyState in
  let env := Scenario.envOf (Scenario.knobs true 2250 5 false true) in
  networkArrays Scenario.rewards3 = Ok ([10; 20; 30], [11; 21; 31], [12; 22; 32]) /\
  head (newEvents s (snd (submitRewardsSnapshot env 7 127 5127 Scenario.sampleFile
                            "cid-1" 2 s))) =
    Some (EvEstimateGas
            (submissionOf env 7 127 5127 Scenario.sampleFile Scenario.rootBytes "cid-1" 2
               ([10; 20; 30], [11; 21; 31], [12; 22; 32]))).
Proof.
  intros s env.
  assert (Hd : dense (NetworkRewards Scenario.sampleFile) 3).
  { split; [|reflexivity].
    intros i Hi. assert (i = 0 \/ i = 1 \/ i = 2) as [-> | [-> | ->]] by lia;
      vm_compute; eauto. }
  pose proof (submitRewardsSnapshot_dense_arrays env 7 127 5127 Scenario.sampleFile
                "cid-1" 2 s 3 Scenario.rootBytes
                {| From := [Byte.x01]; GasFeeCap := 0; GasTipCap := 0; GasLimit := 0 |}
                Hd ltac:(lia) eq_refl eq_refl) as (H1 & _ & _ & H4).
  split; [exact H1 | exact H4].
Defined.

(** ** Computations that leave the guard alone *)

Lemma quietly_ret {A} (a : A) : quietly (ret a).
Proof. intros s. exists []. by rewrite app_nil_r. Qed.

Lemma quietly_fail {A} e : quietly (@fail A e).
Proof. intros s. exists []. by rewrite app_nil_r. Qed.

Lemma quietly_lift {A} (r : answer A) : quietly (lift r).
Proof. intros s. exists []. destruct r; by rewrite app_nil_r. Qed.

Lemma quietly_liftE r : quietly (liftE r).
Proof. destruct r; [apply quietly_fail | apply quietly_ret]. Qed.

Lemma quietly_emit e : isPlain e = true -> quietly (emit e).
Proof. intros He s. exists [e]. simpl. by rewrite He. Qed.

Lemma quietly_setFile p d : quietly (setFile p d).
Proof. intros s. exists []. by rewrite app_nil_r. Qed.

Lemma quietly_getFs : quietly getFs.
Proof. intros s. exists []. by rewrite app_nil_r. Qed.

Lemma quietly_bind {A B} (m : M A) (k : A -> M B) :
  quietly m -> (forall a, quietly (k a)) -> quietly (bind m k).
Proof.
  intros Hm Hk s. unfold bind.
  destruct (Hm s) as (l1 & E1 & F1 & R1 & O1).
  destruct (m s) as [[a | e | | ] s1]; simpl in E1, R1, O1; try done.
  - destruct (Hk a s1) as (l2 & E2 & F2 & R2 & O2).
    exists (l1 ++ l2).
    rewrite E2, E1, app_assoc, forallb_app, F1, F2, R2, R1. done.
  - exists l1. simpl. by rewrite E1, F1, R1.
Qed.

Lemma quietly_wrapErr {A} msg (m : M A) : quietly m -> quietly (wrapErr msg m).
Proof.
  intros Hm s. unfold wrapErr.
  destruct (Hm s) as (l1 & E1 & F1 & R1 & O1).
  destruct (m s) as [[a | e | | ] s1]; simpl in *; eauto.
Qed.

Lemma quietly_networkArrays rewards :
  Z.of_nat (size rewards) < 2 ^ 64 -> quietly (liftR (networkArrays rewards)).
Proof.
  intros Hsz s. destruct (networkArrays_total rewards Hsz) as [arrays Harr].
  exists []. unfold liftR. rewrite Harr. simpl. by rewrite app_nil_r.
Qed.

Ltac quiet_step :=
  first
    [ apply quietly_ret | apply quietly_fail | apply quietly_lift | apply quietly_liftE
    | apply quietly_setFile | apply quietly_getFs
    | apply quietly_emit; reflexivity
    | apply quietly_networkArrays; assumption
    | apply quietly_wrapErr
    | apply quietly_bind; [ | intros ? ]
    | match goal with
      | |- quietly (if ?b then _ else _) => destruct b
      | |- quietly (match ?x with _ => _ end) => destruct x
      end ].

Lemma quietly_WriteFile env path data : quietly (WriteFile env path data).
Proof. unfold WriteFile. repeat quiet_step. Qed.

Lemma quietly_uploadFileToWeb3Storage env wrapperBytes compressedPath description :
  quietly (uploadFileToWeb3Storage env wrapperBytes compressedPath description).
Proof. unfold uploadFileToWeb3Storage. repeat quiet_step. Qed.

Lemma quietly_submitRewardsSnapshot env index cb eb rewardsFile cid intervalsPassed :
  boundedFile rewardsFile ->
  quietly (submitRewardsSnapshot env index cb eb rewardsFile cid intervalsPassed).
Proof. intros Hb. unfold boundedFile in Hb. unfold submitRewardsSnapshot. repeat quiet_step. Qed.

(** ** What [handleError] and the lines about invalid networks do *)

Lemma handleError_eq err s :
  handleError err s =
    (Ok tt, {| isRunning := false; fs := fs s;
               trace := trace s ++ [EvErrLog err; EvErrLogFailed; EvLock;
                                    EvSetRunning false; EvUnlock] |}).
Proof.
  unfold handleError, lock, unlock, bind, emit, setRunning. simpl.
  by rewrite <- !app_assoc.
Qed.

Lemma logInvalidNetworkNodes_eq nodes s :
  logInvalidNetworkNodes nodes s =
    (Ok tt, after s (map (fun an => EvLog (LogInvalidNetwork (fst an) (snd an))) nodes)).
Proof.
  revert s. induction nodes as [|an nodes IH]; intros s; simpl.
  - unfold ret, after. rewrite app_nil_r. by destruct s.
  - unfold bind at 1. unfold emit at 1. rewrite IH. unfold after. simpl.
    by rewrite <- app_assoc.
Qed.

Lemma quietly_logInvalidNetworkNodes nodes : quietly (logInvalidNetworkNodes nodes).
Proof.
  intros s. rewrite logInvalidNetworkNodes_eq. eexists. simpl.
  split; [reflexivity|]. split; [|done].
  induction nodes; simpl; done.
Qed.

(** ** Following one path of a computation *)

Lemma bind_Ok {A B} (m : M A) (k : A -> M B) s a s1 :
  m s = (Ok a, s1) -> bind m k s = k a s1.
Proof. intros H. unfold bind. by rewrite H. Qed.

Lemma bind_Err {A B} (m : M A) (k : A -> M B) s e s1 :
  m s = (Err e, s1) -> bind m k s = (Err e, s1).
Proof. intros H. unfold bind. by rewrite H. Qed.

Lemma wrapErr_Ok {A} msg (m : M A) s a s1 :
  m s = (Ok a, s1) -> wrapErr msg m s = (Ok a, s1).
Proof. intros H. unfold wrapErr. by rewrite H. Qed.

Lemma wrapErr_Err {A} msg (m : M A) s e s1 :
  m s = (Err e, s1) -> wrapErr msg m s = (Err (ErrWrap msg e), s1).
Proof. intros H. unfold wrapErr. by rewrite H. Qed.

Lemma orHandle_Ok {A} msg (m : M A) (k : A -> M unit) s a s1 :
  m s = (Ok a, s1) -> orHandle msg m k s = k a s1.
Proof. intros H. unfold orHandle. by rewrite H. Qed.

Lemma emit_eq e s : emit e s = (Ok tt, after s [e]).
Proof. reflexivity. Qed.

Lemma after_after s l1 l2 : after (after s l1) l2 = after s (l1 ++ l2).
Proof. unfold after. simpl. by rewrite <- app_assoc. Qed.

Lemma after_nil s : after s [] = s.
Proof. unfold after. rewrite app_nil_r. by destruct s. Qed.

Lemma newEvents_after s l : newEvents s (after s l) = l.
Proof. unfold newEvents, after. simpl. by rewrite drop_app_length. Qed.

(** Keeps a state in the form of a record. *)
Ltac norm := cbn [isRunning fs trace after fst snd].

(** An upload that goes through: the compressed file is on disk and the
    service has answered. *)
Lemma uploadFileToWeb3Storage_Ok env data compressedPath description cid s :
  uploads env compressedPath data cid ->
  uploadFileToWeb3Storage env data compressedPath description s =
    (Ok cid,
     {| isRunning := isRunning s;
        fs := <[compressedPath := zstd_EncodeAll env data]> (<[compressedPath := []]> (fs s));
        trace := trace s ++ [EvCreate compressedPath true;
                             EvFileWrite compressedPath (zstd_EncodeAll env data) true;
                             EvPut (zstd_EncodeAll env data) true] |}).
Proof.
  intros (Htok & Hcli & Hcre & Hwri & Hput).
  unfold uploadFileToWeb3Storage. rewrite Htok, Hcli, Hcre, Hwri, Hput.
  unfold wrapErr, liftE, bind, emit, setFile, ret. simpl.
  by rewrite <- !app_assoc.
Qed.

(** The gas check fails: nothing is sent, and the caller gets nil. *)
Lemma submitRewardsSnapshot_declined_eq env index cb eb rewardsFile cid intervalsPassed
    s root arrays opts gas :
  hex_DecodeString env (RemovePrefix env (MerkleRoot rewardsFile)) = Got root ->
  networkArrays (NetworkRewards rewardsFile) = Ok arrays ->
  GetNodeAccountTransactor env = Got opts ->
  EstimateSubmitRewardSnapshotGas env
    (submissionOf env index cb eb rewardsFile root cid intervalsPassed arrays) opts = Got gas ->
  PrintAndCheckGasInfo env gas (MaxFeeWei env) = false ->
  submitRewardsSnapshot env index cb eb rewardsFile cid intervalsPassed s =
    (Ok tt,
     after s [EvEstimateGas
                (submissionOf env index cb eb rewardsFile root cid intervalsPassed arrays)]).
Proof.
  intros Hroot Harr Hopts Hgas Hcheck.
  unfold submitRewardsSnapshot, bind, wrapErr, lift, liftR.
  rewrite Hroot, Harr, Hopts. cbn [emit].
  unfold submissionOf in Hgas. rewrite Hgas, Hcheck. reflexivity.
Qed.

Lemma set_cid_NetworkRewards cid f :
  NetworkRewards (set_MinipoolPerformanceFileCID cid f) = NetworkRewards f.
Proof. reflexivity. Qed.

(** C8. Gas-ceiling safety valve: when the gas check against the maximum
    fee fails, [submitRewardsSnapshot] returns nil having estimated the gas
    and sent no transaction; the background task that called it takes this
    for a success: it writes no failure line, logs the submission as done,
    and clears the flag under the lock as its last steps. *)
Theorem submitRewardsSnapshot_gas_declined
    (env : Env) (tk : Task) (s : State) (rewardsFile : RewardsFile)
    (performanceBytes : bytes) (performanceCid : string) (wrapperBytes : bytes)
    (cid : string) (root : bytes) (arrays : list Z * list Z * list Z)
    (opts : TransactOpts) (gas : GasInfo) :
  let stored := set_MinipoolPerformanceFileCID performanceCid rewardsFile in
  let submission :=
    submissionOf env (tkCurrentIndexBig tk) (tkSnapshotBeaconBlock tk) (tkElBlockIndex tk)
      stored root cid (tkIntervalsPassed tk) arrays in
  hex_DecodeString env (RemovePrefix env (MerkleRoot stored)) = Got root ->
  networkArrays (NetworkRewards stored) = Ok arrays ->
  GetNodeAccountTransactor env = Got opts ->
  EstimateSubmitRewardSnapshotGas env submission opts = Got gas ->
  PrintAndCheckGasInfo env gas (MaxFeeWei env) = false ->
  (forall s0,
     submitRewardsSnapshot env (tkCurrentIndexBig tk) (tkSnapshotBeaconBlock tk)
       (tkElBlockIndex tk) stored cid (tkIntervalsPassed tk) s0 =
       (Ok tt, after s0 [EvEstimateGas submission])) /\
  (reachesSubmission env tk rewardsFile performanceBytes performanceCid wrapperBytes cid ->
   exists s' l,
     generationTask env tk s = (Ok tt, s') /\
     isRunning s' = false /\
     trace s' = trace s ++ l ++ [EvEstimateGas submission;
                                 EvLog (LogSubmittedBackground (tkCurrentIndex tk));
                                 EvLock; EvSetRunning false; EvUnlock] /\
     forallb (fun e => negb (isSubmitTx e || isFailureLog e)) l = true).
Proof.
  intros stored submission Hroot Harr Hopts Hgas Hcheck.
  assert (Hsub : forall s0,
     submitRewardsSnapshot env (tkCurrentIndexBig tk) (tkSnapshotBeaconBlock tk)
       (tkElBlockIndex tk) stored cid (tkIntervalsPassed tk) s0 =
       (Ok tt, after s0 [EvEstimateGas submission])).
  { intros s0. by eapply submitRewardsSnapshot_declined_eq. }
  split; [exact Hsub|].
  intros (Htrusted & Harch & Hgen & Hperf & Hwperf & Hupperf & Htree & Hwtree & Huptree).
  unfold generationTask.
  set (useArchive := negb (ArchiveECUrl env =? "")%string) in *.
  rewrite Htrusted.
  (* the raising of the flag, the warning and the first log line *)
  unfold lock, unlock. rewrite !(bind_Ok _ _ _ _ _ (emit_eq _ _)).
  unfold setRunning at 1. unfold bind at 1. unfold bind at 1. rewrite emit_eq. norm.
  set (warn := if 1 <? wrap_u64 (tkIntervalsPassed tk)
               then [EvLog (LogWarnIntervals (wrap_u64 (tkIntervalsPassed tk)))] else []).
  match goal with
  | |- context [bind (if ?c then ?a else ?b) ?k ?st] =>
      assert (Hw : (if c then a else b) st = (Ok tt, after st warn))
  end.
  { unfold warn. destruct (1 <? _); [apply emit_eq | by rewrite after_nil]. }
  rewrite (bind_Ok _ _ _ _ _ Hw). clear Hw. norm.
  rewrite (bind_Ok _ _ _ _ _ (emit_eq _ _)). norm.
  (* the archive client *)
  set (archLog := if useArchive then [EvLog (LogUsingArchive (ArchiveECUrl env))] else []).
  match goal with
  | |- context [orHandle ?msg (if useArchive then ?a else ?b) ?k ?st] =>
      assert (Ha : (if useArchive then a else b) st = (Ok tt, after st archLog))
  end.
  { unfold archLog. destruct useArchive.
    - destruct (Harch eq_refl) as [Hdial _].
      rewrite (bind_Ok _ _ _ _ _ (emit_eq _ _)), Hdial. reflexivity.
    - by rewrite after_nil. }
  rewrite (orHandle_Ok _ _ _ _ _ _ Ha). clear Ha. norm.
  match goal with
  | |- context [orHandle ?msg (if useArchive then ?a else ?b) ?k ?st] =>
      assert (Ha : (if useArchive then a else b) st = (Ok tt, st))
  end.
  { destruct useArchive; [|done]. destruct (Harch eq_refl) as [_ Hrp]. by rewrite Hrp. }
  rewrite (orHandle_Ok _ _ _ _ _ _ Ha). clear Ha. norm.
  (* the tree and the performance file *)
  match goal with
  | |- context [orHandle ?msg ?m ?k ?st] =>
      assert (Ha : m st = (Ok rewardsFile, after st [EvGenerateTree (NewRewardsFile tk) useArchive]))
  end.
  { rewrite (bind_Ok _ _ _ _ _ (emit_eq _ _)). unfold lift. by rewrite Hgen. }
  rewrite (orHandle_Ok _ _ _ _ _ _ Ha). clear Ha. norm.
  rewrite (bind_Ok _ _ _ _ _ (logInvalidNetworkNodes_eq _ _)). norm.
  match goal with
  | |- context [orHandle ?msg ?m ?k ?st] =>
      assert (Ha : m st = (Ok performanceBytes, st))
  end.
  { unfold lift. by rewrite Hperf. }
  rewrite (orHandle_Ok _ _ _ _ _ _ Ha). clear Ha. norm.
  match goal with
  | |- context [orHandle ?msg (WriteFile env ?p ?d) ?k ?st] =>
      assert (Ha : WriteFile env p d st =
                   (Ok tt, {| isRunning := isRunning st; fs := <[p := d]> (fs st);
                              trace := trace st ++ [EvWriteFile p d true] |}))
  end.
  { unfold WriteFile. by rewrite Hwperf. }
  rewrite (orHandle_Ok _ _ _ _ _ _ Ha). clear Ha. norm.
  match goal with
  | |- context [orHandle ?msg ?m ?k ?st] =>
      eassert (Ha : m st = (Ok stored, _))
  end.
  { rewrite (bind_Ok _ _ _ _ _ (emit_eq _ _)).
    rewrite (bind_Ok _ _ _ _ _ (uploadFileToWeb3Storage_Ok _ _ _ _ _ _ Hupperf)).
    rewrite (bind_Ok _ _ _ _ _ (emit_eq _ _)). reflexivity. }
  rewrite (orHandle_Ok _ _ _ _ _ _ Ha). clear Ha. norm.
  (* the rewards tree file *)
  match goal with
  | |- context [orHandle ?msg ?m ?k ?st] =>
      assert (Ha : m st = (Ok wrapperBytes, st))
  end.
  { unfold lift. fold stored in Htree. by rewrite Htree. }
  rewrite (orHandle_Ok _ _ _ _ _ _ Ha). clear Ha. norm.
  rewrite (bind_Ok _ _ _ _ _ (emit_eq _ _)). norm.
  match goal with
  | |- context [orHandle ?msg (WriteFile env ?p ?d) ?k ?st] =>
      assert (Ha : WriteFile env p d st =
                   (Ok tt, {| isRunning := isRunning st; fs := <[p := d]> (fs st);
                              trace := trace st ++ [EvWriteFile p d true] |}))
  end.
  { unfold WriteFile. by rewrite Hwtree. }
  rewrite (orHandle_Ok _ _ _ _ _ _ Ha). clear Ha. norm.
  (* upload and submission *)
  rewrite (bind_Ok _ _ _ _ _ (emit_eq _ _)). norm.
  rewrite (orHandle_Ok _ _ _ _ _ _ (uploadFileToWeb3Storage_Ok _ _ _ _ _ _ Huptree)). norm.
  rewrite (bind_Ok _ _ _ _ _ (emit_eq _ _)). norm.
  rewrite (orHandle_Ok _ _ _ _ _ _ (Hsub _)). norm.
  rewrite (bind_Ok _ _ _ _ _ (emit_eq _ _)). norm.
  rewrite !(bind_Ok _ _ _ _ _ (emit_eq _ _)). norm.
  unfold setRunning, bind, emit. norm.
  exists {| isRunning := false;
            fs := <[tkCompressedPath tk := zstd_EncodeAll env wrapperBytes]>
                    (<[tkCompressedPath tk := []]>
                       (<[tkPath tk := wrapperBytes]>
                          (<[tkCompressedMinipoolPerformancePath tk :=
                               zstd_EncodeAll env performanceBytes]>
                             (<[tkCompressedMinipoolPerformancePath tk := []]>
                                (<[tkMinipoolPerformancePath tk := performanceBytes]> (fs s))))));
            trace := trace s ++ ([EvLock; EvSetRunning true; EvUnlock] ++ warn ++
              [EvLog (LogStarting (tkCurrentIndex tk) (tkSnapshotBeaconBlock tk)
                        (tkElBlockIndex tk) (tkStartTime tk) (tkEndTime tk))] ++ archLog ++
              [EvGenerateTree (NewRewardsFile tk) useArchive] ++
              map (fun an => EvLog (LogInvalidNetwork (fst an) (snd an)))
                  (InvalidNetworkNodes rewardsFile) ++
              [EvWriteFile (tkMinipoolPerformancePath tk) performanceBytes true;
               EvLog LogUploadingPerformance;
               EvCreate (tkCompressedMinipoolPerformancePath tk) true;
               EvFileWrite (tkCompressedMinipoolPerformancePath tk)
                 (zstd_EncodeAll env performanceBytes) true;
               EvPut (zstd_EncodeAll env performanceBytes) true;
               EvLog (LogUploadedPerformance performanceCid);
               EvLog LogGenerationComplete;
               EvWriteFile (tkPath tk) wrapperBytes true;
               EvLog LogUploadingTree;
               EvCreate (tkCompressedPath tk) true;
               EvFileWrite (tkCompressedPath tk) (zstd_EncodeAll env wrapperBytes) true;
               EvPut (zstd_EncodeAll env wrapperBytes) true;
               EvLog (LogUploadedTree cid)]) ++
              [EvEstimateGas submission; EvLog (LogSubmittedBackground (tkCurrentIndex tk));
               EvLock; EvSetRunning false; EvUnlock] |}.
  eexists. split.
  { rewrite <- !app_assoc. cbn [app]. rewrite <- ?app_assoc. reflexivity. }
  split; [reflexivity|]. split; [reflexivity|].
  rewrite !forallb_app.
  assert (Hwarn : forallb (fun e => negb (isSubmitTx e || isFailureLog e)) warn = true)
    by (unfold warn; by destruct (1 <? _)).
  assert (Harc : forallb (fun e => negb (isSubmitTx e || isFailureLog e)) archLog = true)
    by (unfold archLog; by destruct useArchive).
  rewrite Hwarn, Harc. cbn.
  induction (InvalidNetworkNodes rewardsFile); cbn; done.
Qed.

(** The gas check fails for a trusted node whose other collaborators all
    answer: the call returns nil, and the task ends as after a submission. *)
Lemma submitRewardsSnapshot_gas_declined_witness :
  let env := Scenario.envOf (Scenario.knobs true 2250 5 false false) in
  let tk := Scenario.sampleTask true in
  let stored := set_MinipoolPerformanceFileCID "cid-1" Scenario.sampleFile in
  PrintAndCheckGasInfo env {| EstGasLimit := 100; SafeGasLimit := 150 |} (MaxFeeWei env) = false /\
  fst (submitRewardsSnapshot env 7 127 5127 stored "cid-1" 2 Scenario.emptyState) = Ok tt /\
  exists s' l,
    generationTask env tk Scenario.emptyState = (Ok tt, s') /\
    isRunning s' = false /\
    existsb isSubmitTx (trace s') = false /\
    forallb (fun e => negb (isSubmitTx e || isFailureLog e)) l = true.
Proof.
  intros env tk stored.
  destruct (submitRewardsSnapshot_gas_declined env tk Scenario.emptyState
              Scenario.sampleFile Scenario.perfBytes "cid-1" Scenario.treeBytes "cid-1"
              Scenario.rootBytes ([10; 20; 30], [11; 21; 31], [12; 22; 32])
              {| From := [Byte.x01]; GasFeeCap := 0; GasTipCap := 0; GasLimit := 0 |}
              {| EstGasLimit := 100; SafeGasLimit := 150 |}
              eq_refl ltac:(vm_compute; reflexivity) eq_refl eq_refl eq_refl)
    as [Hcall Htask].
  split; [reflexivity|]. split.
  { change (set_MinipoolPerformanceFileCID "cid-1" Scenario.sampleFile) with stored in Hcall.
    exact (f_equal fst (Hcall Scenario.emptyState)). }
  destruct Htask as (s' & l & Hrun & Hflag & Htrace & Hl).
  { unfold reachesSubmission, uploads. repeat split; try reflexivity; discriminate. }
  exists s', l. split; [exact Hrun|]. split; [exact Hflag|]. split; [|exact Hl].
  rewrite Htrace, !existsb_app. cbn [trace Scenario.emptyState existsb isSubmitTx orb].
  rewrite orb_false_r.
  apply not_true_is_false. intros Hex. apply existsb_exists in Hex as (e & Hin & He).
  rewrite forallb_forall in Hl. specialize (Hl e Hin).
  rewrite He in Hl. discriminate.
Defined.

(** ** The walk over missing slots *)

Lemma wrap_u64_small z : 0 <= z < 2 ^ 64 -> wrap_u64 z = z.
Proof. intros H. unfold wrap_u64. by apply Z.mod_small. Qed.

Lemma wrap_i64_small z : - 2 ^ 63 <= z < 2 ^ 63 -> wrap_i64 z = z.
Proof. intros H. unfold wrap_i64. rewrite Z.mod_small; lia. Qed.

(** [k] empty slots below [slot], then a block: the walk takes [k] steps
    down and returns that block. *)
Lemma slotWalk_skips env cfg genesisTime requiredEpoch (k : nat) :
  forall (fuel : nat) (slot : Z) (s : State) (block : BeaconBlock),
    (k < fuel)%nat ->
    Z.of_nat k <= slot < 2 ^ 64 ->
    (forall i, 0 <= i < Z.of_nat k -> missing env (slot - i)) ->
    GetBeaconBlock env (slot - Z.of_nat k) = Got (block, true) ->
    slotWalk env fuel cfg genesisTime requiredEpoch slot s =
      (Ok (slot - Z.of_nat k, ExecutionBlockNumber block,
           Add genesisTime
             (mul_i64 (wrap_i64 (mul_u64 requiredEpoch (SecondsPerEpoch cfg))) Second)),
       after s (skipEvents slot k ++ [EvGetBeaconBlock (slot - Z.of_nat k)])).
Proof.
  induction k as [|k IH]; intros fuel slot s block Hfuel Hslot Hmiss Hblock.
  - destruct fuel as [|fuel]; [lia|]. simpl in *. rewrite Z.sub_0_r in *.
    unfold bind, wrapErr, emit, lift. rewrite Hblock. reflexivity.
  - destruct fuel as [|fuel]; [lia|].
    destruct (Hmiss 0 ltac:(lia)) as [b0 Hb0]. rewrite Z.sub_0_r in Hb0.
    cbn [slotWalk skipEvents]. unfold bind at 1, wrapErr at 1.
    unfold bind at 1, emit at 1, lift at 1. rewrite Hb0. cbn [snd fst negb].
    unfold bind at 1, emit at 1.
    assert (Hdec : sub_u64 slot 1 = slot - 1).
    { unfold sub_u64. apply wrap_u64_small. lia. }
    rewrite Hdec.
    rewrite (IH fuel (slot - 1) _ block); try lia.
    + unfold after. cbn [isRunning fs trace].
      replace (slot - 1 - Z.of_nat k) with (slot - Z.of_nat (S k)) by lia.
      rewrite <- !app_assoc. reflexivity.
    + intros i Hi. replace (slot - 1 - i) with (slot - (i + 1)) by lia.
      apply Hmiss. lia.
    + replace (slot - 1 - Z.of_nat k) with (slot - Z.of_nat (S k)) by lia. done.
Qed.

(** The reference timestamp, when the seconds since genesis fit a
    [Duration]: genesis plus [requiredEpoch * SecondsPerEpoch] seconds. *)
Lemma blockTime_exact genesis requiredEpoch secondsPerEpoch :
  0 <= genesis < 2 ^ 63 ->
  0 <= requiredEpoch -> 0 <= secondsPerEpoch ->
  requiredEpoch * secondsPerEpoch * 10 ^ 9 < 2 ^ 63 ->
  Add (Unix (wrap_i64 genesis))
      (mul_i64 (wrap_i64 (mul_u64 requiredEpoch secondsPerEpoch)) Second) =
    Unix (genesis + requiredEpoch * secondsPerEpoch).
Proof.
  intros Hg Hr Hs Hfit.
  assert (0 <= requiredEpoch * secondsPerEpoch) by lia.
  unfold Add, Unix, mul_i64, mul_u64, Second in *.
  rewrite (wrap_i64_small genesis) by lia.
  rewrite (wrap_u64_small (requiredEpoch * secondsPerEpoch)) by lia.
  rewrite (wrap_i64_small (requiredEpoch * secondsPerEpoch)) by lia.
  rewrite wrap_i64_small by lia. lia.
Qed.

(** C4. Missing-slot walk: once the required epoch is finalized,
    [getSnapshotConsensusBlock] asks for the block at the target slot (the
    last slot of the target epoch) and goes down one slot for every slot
    without a block; with [k] such slots and a block at the slot below
    them, it returns that slot, the execution block number of its block,
    and genesis plus [requiredEpoch * SecondsPerEpoch] seconds as the
    reference timestamp. *)
Theorem getSnapshotConsensusBlock_walks_missing_slots
    (env : Env) (fuel : nat) (endTime : Time) (s : State)
    (cfg : Eth2Config) (head : BeaconHead) (epoch slot required : Z)
    (k : nat) (block : BeaconBlock) :
  GetEth2Config env = Got cfg ->
  GetBeaconHead env = Got head ->
  snapshotTarget env cfg endTime = Some (epoch, slot, required) ->
  required <= FinalizedEpoch head ->
  (k < fuel)%nat ->
  Z.of_nat k <= slot < 2 ^ 64 ->
  (forall i, 0 <= i < Z.of_nat k -> missing env (slot - i)) ->
  GetBeaconBlock env (slot - Z.of_nat k) = Got (block, true) ->
  0 <= GenesisTime cfg < 2 ^ 63 ->
  0 <= required -> 0 <= SecondsPerEpoch cfg ->
  required * SecondsPerEpoch cfg * 10 ^ 9 < 2 ^ 63 ->
  getSnapshotConsensusBlock env fuel endTime s =
    (Ok (slot - Z.of_nat k, ExecutionBlockNumber block,
         Unix (GenesisTime cfg + required * SecondsPerEpoch cfg)),
     after s (skipEvents slot k ++ [EvGetBeaconBlock (slot - Z.of_nat k)])).
Proof.
  intros Hcfg Hhead Htarget Hfin Hfuel Hslot Hmiss Hblock Hgen Hreq Hspe Hfit.
  unfold getSnapshotConsensusBlock, bind, wrapErr, lift, orPanic.
  rewrite Hcfg, Hhead, Htarget. cbn [ret fst snd].
  destruct (FinalizedEpoch head <? required) eqn:Hlt; [lia|].
  rewrite (slotWalk_skips env cfg _ required k fuel slot s block); try done.
  by rewrite blockTime_exact.
Qed.

(** Slots 127 and 126 are empty and slot 125 holds a block: the snapshot is
    slot 125 with the execution block of that block, and the reference
    timestamp is the start of epoch 4. *)
Lemma getSnapshotConsensusBlock_walks_missing_slots_witness :
  let knobs0 := Scenario.knobs true 2250 5 false true in
  let env :=
    Scenario.envOf
      {| Scenario.kTrusted := true;
         Scenario.kStartSec := 2000;
         Scenario.kIntervalSec := 100;
         Scenario.kLatestSec := 2250;
         Scenario.kFinalizedEpoch := 5;
         Scenario.kBlocks := Scenario.twoMissing 127;
         Scenario.kHasSubmitted := false;
         Scenario.kGasOk := true;
         Scenario.kPut := Scenario.kPut knobs0;
         Scenario.kGenerate := Scenario.kGenerate knobs0;
         Scenario.kWriteFile := Scenario.kWriteFile knobs0 |} in
  getSnapshotConsensusBlock env 10 (Unix 2200) Scenario.emptyState =
    (Ok (125, 5125, Unix (1000 + 4 * 384)),
     after Scenario.emptyState
       [EvGetBeaconBlock 127; EvLog (LogSlotMissing 127);
        EvGetBeaconBlock 126; EvLog (LogSlotMissing 126);
        EvGetBeaconBlock 125]).
Proof.
  intros knobs0 env.
  refine (getSnapshotConsensusBlock_walks_missing_slots env 10 (Unix 2200)
            Scenario.emptyState
            {| GenesisTime := 1000; SecondsPerSlot := 12; SlotsPerEpoch := 32;
               SecondsPerEpoch := 384 |}
            {| FinalizedEpoch := 5 |} 3 127 4 2
            {| ExecutionBlockNumber := 5125 |}
            eq_refl eq_refl _ _ _ _ _ eq_refl _ _ _ _); cbn; try lia.
  - vm_compute. reflexivity.
  - intros i Hi. assert (i = 0 \/ i = 1) as [-> | ->] by lia; eexists; reflexivity.
Defined.

(** ** The execution block that goes with the snapshot *)

Lemma filter_forallb_negb {A} (P : A -> bool) (l : list A) :
  forallb (fun x => negb (P x)) l = true -> List.filter P l = [].
Proof.
  induction l as [|x l IH]; simpl; [done|].
  destruct (P x); simpl; [done|]. exact IH.
Qed.

Lemma emitsOnly_newEvents {A} P (m : M A) s :
  emitsOnly P m -> forallb P (newEvents s (snd (m s))) = true.
Proof.
  intros Hm. destruct (Hm s) as (l & E & F).
  unfold newEvents. by rewrite E, drop_app_length.
Qed.

(** ** The rewards file is on disk: skip or resume *)

Lemma os_Stat_present env path data s :
  fs s !! path = Some data -> StatFault env path = None ->
  os_Stat env path s = (Ok StatOk, after s [EvStat path]).
Proof.
  intros Hfile Hfault. unfold os_Stat, bind, emit, getFs, ret. cbn [fs].
  by rewrite Hfault, Hfile.
Qed.

Lemma hasSubmittedTree_eq env nodeAddress index b s :
  submittedFlag env nodeAddress index b ->
  hasSubmittedTree env nodeAddress index s = (Ok b, s).
Proof.
  intros (buf & Hfill & Hget). unfold hasSubmittedTree, bind, orPanic, lift.
  rewrite Hfill. cbn [ret]. by rewrite Hget.
Qed.

Lemma ReadFile_present env path data s :
  fs s !! path = Some data -> ReadFault env path = None ->
  ReadFile env path s = (Ok data, after s [EvReadFile path]).
Proof.
  intros Hfile Hfault. unfold ReadFile, bind, emit, getFs. cbn [fs].
  by rewrite Hfault, Hfile.
Qed.

(** A submission that goes through: estimated, sent, mined. *)
Lemma submitRewardsSnapshot_Ok env index cb eb rewardsFile cid intervalsPassed s
    root arrays opts gas hash :
  submits env rewardsFile root arrays
    (submissionOf env index cb eb rewardsFile root cid intervalsPassed arrays) opts gas hash ->
  submitRewardsSnapshot env index cb eb rewardsFile cid intervalsPassed s =
    (Ok tt,
     after s
       [EvEstimateGas (submissionOf env index cb eb rewardsFile root cid intervalsPassed arrays);
        EvSubmitTx (submissionOf env index cb eb rewardsFile root cid intervalsPassed arrays)
          (sendOpts env opts gas);
        EvWaitTx hash]).
Proof.
  intros (Hroot & Harr & Hopts & Hgas & Hcheck & Hsend & Hwait).
  unfold submitRewardsSnapshot, bind, wrapErr, lift, liftR.
  rewrite Hroot, Harr, Hopts. cbn [emit].
  unfold submissionOf, sendOpts in *. rewrite Hgas, Hcheck. cbn [negb emit].
  rewrite Hsend. cbn [emit]. rewrite Hwait. unfold after. cbn.
  by rewrite <- !app_assoc.
Qed.

Lemma bind_assoc {A B C} (m : M A) (k : A -> M B) (k' : B -> M C) s :
  bind (bind m k) k' s = bind m (fun x => bind (k x) k') s.
Proof. unfold bind. by destruct (m s) as [[a | e | |] s1]. Qed.

(** The resume stage never starts a task. *)
Lemma resumeStored_then_None env nodeAccount nodeTrusted intervalsPassed slot elBlockIndex
    currentIndexBig currentIndex path compressedPath s :
  match fst (bind (resumeStored env nodeAccount nodeTrusted intervalsPassed slot elBlockIndex
                     currentIndexBig currentIndex path compressedPath)
                  (fun _ => ret (@None Task)) s) with
  | Ok (Some _) => False
  | _ => True
  end.
Proof. unfold bind. by destruct (resumeStored _ _ _ _ _ _ _ _ _ _ s) as [[[] | | |] ?]. Qed.

(** C6. Resume decision: with the rewards file of the current interval on
    disk and the node a trusted member, [run] never builds the tree and never
    starts the background task.  If the registry says the node has submitted,
    [run] returns nil having only looked at the file: no upload, no
    transaction.  If it says the node has not, [run] reads the file,
    uploads its bytes as they are (compressed), and submits the Merkle root
    decoded from the file it read, then returns nil. *)
Theorem run_resumes_from_stored_file
    (env : Env) (nodeAccount : Address) (startTime endTime : Time)
    (intervalsPassed : Duration) (slot elBlockIndex : Z) (header : Header)
    (currentIndexBig currentIndex : Z) (s : State) (data : bytes) :
  let path := GetRewardsTreePath env currentIndex in
  let compressedPath := (path ++ RewardsTreeIpfsExtension env)%string in
  let resume :=
    resumeOrGenerate env nodeAccount true startTime endTime intervalsPassed slot
      elBlockIndex header currentIndexBig currentIndex in
  fs s !! path = Some data ->
  StatFault env path = None ->
  (* never the tree builder, never the task *)
  (forallb (fun e => negb (isGenerateTree e || isGo e)) (newEvents s (snd (resume s))) = true /\
   match fst (resume s) with Ok (Some _) => False | _ => True end) /\
  (* already submitted *)
  (submittedFlag env nodeAccount currentIndexBig true ->
   resume s = (Ok None, after s [EvStat path])) /\
  (* not yet submitted *)
  (forall proofWrapper cid root arrays opts gas hash,
     let submission :=
       submissionOf env currentIndexBig slot elBlockIndex proofWrapper root cid
         intervalsPassed arrays in
     submittedFlag env nodeAccount currentIndexBig false ->
     ReadFault env path = None ->
     json_Unmarshal env data = Got proofWrapper ->
     uploads env compressedPath data cid ->
     submits env proofWrapper root arrays submission opts gas hash ->
     fst (resume s) = Ok None /\
     newEvents s (snd (resume s)) =
       [EvStat path;
        EvLog (LogResubmitting currentIndex path);
        EvReadFile path;
        EvCreate compressedPath true;
        EvFileWrite compressedPath (zstd_EncodeAll env data) true;
        EvPut (zstd_EncodeAll env data) true;
        EvLog (LogUploadedCid cid);
        EvEstimateGas submission;
        EvSubmitTx submission (sendOpts env opts gas);
        EvWaitTx hash;
        EvLog (LogSubmitted currentIndex)] /\
     SubMerkleRoot submission = BytesToHash env root /\
     hex_DecodeString env (RemovePrefix env (MerkleRoot proofWrapper)) = Got root).
Proof.
  intros path compressedPath resume Hfile Hfault.
  assert (Hstat := os_Stat_present env path data s Hfile Hfault).
  assert (Hres : forall st, resume st =
            bind (os_Stat env path)
                 (fun stat => if negb (os_IsNotExist stat)
                              then bind (resumeStored env nodeAccount true intervalsPassed slot
                                           elBlockIndex currentIndexBig currentIndex path
                                           compressedPath) (fun _ => ret None)
                              else _) st) by reflexivity.
  split; [split|split].
  - rewrite Hres, (bind_Ok _ _ _ _ _ Hstat). cbn [os_IsNotExist negb].
    match goal with
    | |- context [snd (?rest (after s [EvStat path]))] =>
        assert (Hrest : emitsOnly (fun e => negb (isGenerateTree e || isGo e)) rest) by emits;
        destruct (Hrest (after s [EvStat path])) as (l2 & E2 & F2)
    end.
    unfold newEvents. rewrite E2. cbn [after trace].
    rewrite <- !app_assoc, drop_app_length. simpl. exact F2.
  - rewrite Hres, (bind_Ok _ _ _ _ _ Hstat). cbn [os_IsNotExist negb].
    apply resumeStored_then_None.
  - intros Hsub. rewrite Hres, (bind_Ok _ _ _ _ _ Hstat). cbn [os_IsNotExist negb].
    unfold resumeStored. cbn [negb]. rewrite bind_assoc.
    rewrite (bind_Ok _ _ _ _ _ (wrapErr_Ok _ _ _ _ _ (hasSubmittedTree_eq _ _ _ _ _ Hsub))).
    reflexivity.
  - intros proofWrapper cid root arrays opts gas hash submission Hsub Hread Hjson Hup Hsubmit.
    assert (Hrun : resume s =
      (Ok None,
       {| isRunning := isRunning s;
          fs := <[compressedPath := zstd_EncodeAll env data]> (<[compressedPath := []]> (fs s));
          trace := trace s ++
            [EvStat path; EvLog (LogResubmitting currentIndex path); EvReadFile path;
             EvCreate compressedPath true;
             EvFileWrite compressedPath (zstd_EncodeAll env data) true;
             EvPut (zstd_EncodeAll env data) true;
             EvLog (LogUploadedCid cid);
             EvEstimateGas submission;
             EvSubmitTx submission (sendOpts env opts gas);
             EvWaitTx hash;
             EvLog (LogSubmitted currentIndex)] |})).
    { rewrite Hres, (bind_Ok _ _ _ _ _ Hstat). cbn [os_IsNotExist negb].
      unfold resumeStored. cbn [negb]. rewrite bind_assoc.
      rewrite (bind_Ok _ _ _ _ _ (wrapErr_Ok _ _ _ _ _ (hasSubmittedTree_eq _ _ _ _ _ Hsub))).
      rewrite bind_assoc, (bind_Ok _ _ _ _ _ (emit_eq _ _)). norm.
      assert (Hfile' : fs (after s [EvStat path; EvLog (LogResubmitting currentIndex path)])
                         !! path = Some data) by exact Hfile.
      rewrite after_after. cbn [app].
      rewrite bind_assoc,
        (bind_Ok _ _ _ _ _ (wrapErr_Ok _ _ _ _ _ (ReadFile_present _ _ _ _ Hfile' Hread))).
      rewrite after_after. cbn [app].
      rewrite bind_assoc.
      match goal with
      | |- bind (wrapErr ?msg ?m) ?k ?st = _ =>
          assert (Hj : m st = (Ok proofWrapper, st)) by (unfold lift; by rewrite Hjson);
          rewrite (bind_Ok _ _ _ _ _ (wrapErr_Ok _ _ _ _ _ Hj))
      end.
      rewrite bind_assoc,
        (bind_Ok _ _ _ _ _ (wrapErr_Ok _ _ _ _ _ (uploadFileToWeb3Storage_Ok _ _ _ _ _ _ Hup))).
      norm.
      rewrite bind_assoc, (bind_Ok _ _ _ _ _ (emit_eq _ _)). norm.
      rewrite bind_assoc,
        (bind_Ok _ _ _ _ _
           (wrapErr_Ok _ _ _ _ _ (submitRewardsSnapshot_Ok _ _ _ _ _ _ _ _ _ _ _ _ _ Hsubmit))).
      norm.
      rewrite (bind_Ok _ _ _ _ _ (emit_eq _ _)).
      unfold ret, after. cbn [isRunning fs trace]. rewrite <- !app_assoc. reflexivity. }
    rewrite Hrun. split; [reflexivity|]. split.
    + unfold newEvents. cbn [snd trace]. by rewrite drop_app_length.
    + split; [reflexivity | by destruct Hsubmit].
Qed.

(** The stored file of interval 7 is on disk, the node is trusted and has
    not submitted: the stored bytes are uploaded and the root decoded from
    the stored file is submitted. *)
Lemma run_resumes_from_stored_file_witness :
  let env := Scenario.envOf (Scenario.knobs true 2250 5 false true) in
  let resume :=
    resumeOrGenerate env [Byte.x01] true (Unix 2000) (Unix 2200) 2 127 5127
      {| Number := 5127; HeaderTime := 0 |} 7 7 in
  let submission :=
    submissionOf env 7 127 5127 Scenario.sampleFile Scenario.rootBytes "cid-1" 2
      ([10; 20; 30], [11; 21; 31], [12; 22; 32]) in
  let opts := {| From := [Byte.x01]; GasFeeCap := 200; GasTipCap := 3; GasLimit := 150 |} in
  fst (resume Scenario.storedState) = Ok None /\
  newEvents Scenario.storedState (snd (resume Scenario.storedState)) =
    [EvStat "rewards.json";
     EvLog (LogResubmitting 7 "rewards.json");
     EvReadFile "rewards.json";
     EvCreate "rewards.json.zst" true;
     EvFileWrite "rewards.json.zst" Scenario.storedBytes true;
     EvPut Scenario.storedBytes true;
     EvLog (LogUploadedCid "cid-1");
     EvEstimateGas submission;
     EvSubmitTx submission opts;
     EvWaitTx [Byte.xff];
     EvLog (LogSubmitted 7)].
Proof.
  intros env resume submission opts.
  destruct (run_resumes_from_stored_file env [Byte.x01] (Unix 2000) (Unix 2200) 2 127 5127
              {| Number := 5127; HeaderTime := 0 |} 7 7 Scenario.storedState
              Scenario.storedBytes eq_refl eq_refl) as (_ & _ & Hresume).
  assert (P1 : submittedFlag env [Byte.x01] 7 false).
  { eexists. split; [vm_compute; reflexivity | reflexivity]. }
  assert (P4 : uploads env "rewards.json.zst" Scenario.storedBytes "cid-1").
  { unfold uploads. repeat split; reflexivity. }
  assert (P5 : submits env Scenario.sampleFile Scenario.rootBytes
                 ([10; 20; 30], [11; 21; 31], [12; 22; 32]) submission
                 {| From := [Byte.x01]; GasFeeCap := 0; GasTipCap := 0; GasLimit := 0 |}
                 {| EstGasLimit := 100; SafeGasLimit := 150 |} [Byte.xff]).
  { unfold submits. repeat split; reflexivity. }
  destruct (Hresume Scenario.sampleFile "cid-1"%string Scenario.rootBytes
              ([10; 20; 30], [11; 21; 31], [12; 22; 32])
              {| From := [Byte.x01]; GasFeeCap := 0; GasTipCap := 0; GasLimit := 0 |}
              {| EstGasLimit := 100; SafeGasLimit := 150 |} [Byte.xff]
              P1 eq_refl eq_refl P4 P5) as (H1 & H2 & _).
  split; [exact H1 | exact H2].
Defined.

(** ** The interval clock *)

Lemma Sub_exact t u : minInt64 <= t - u <= maxInt64 -> Sub t u = t - u.
Proof.
  intros H. unfold Sub.
  destruct (t - u <? minInt64) eqn:H1; [lia|].
  destruct (maxInt64 <? t - u) eqn:H2; [lia|]. reflexivity.
Qed.

(** The interval times the quotient lies between zero and the span, and
    the quotient is no further from zero than that. *)
Lemma quot_bounds span d :
  d <> 0 ->
  Z.abs (d * Z.quot span d) <= Z.abs span /\ Z.abs (Z.quot span d) <= Z.abs span.
Proof.
  intros Hd.
  assert (H1 : Z.abs (d * Z.quot span d) <= Z.abs span).
  { destruct (Z.le_ge_cases 0 span) as [Hs | Hs].
    - pose proof (Z.mul_quot_le span d Hs Hd). lia.
    - pose proof (Z.mul_quot_ge span d Hs Hd). lia. }
  split; [exact H1|]. rewrite Z.abs_mul in H1. nia.
Qed.

(** Within the range of a [Duration], the clock is the truncated quotient
    and the end time needs no wrap-around. *)
Lemma intervalClock_exact startTime intervalTime latestBlockTime :
  intervalTime <> 0 ->
  minInt64 < latestBlockTime - startTime <= maxInt64 ->
  intervalClock startTime intervalTime latestBlockTime =
    Some (Z.quot (latestBlockTime - startTime) intervalTime,
          startTime + intervalTime * Z.quot (latestBlockTime - startTime) intervalTime).
Proof.
  intros Hd Hspan. unfold intervalClock, div_i64, mul_i64, Add.
  rewrite Sub_exact by lia.
  destruct (intervalTime =? 0) eqn:Hz; [lia|].
  destruct (quot_bounds (latestBlockTime - startTime) intervalTime Hd) as [Hm Hq].
  unfold minInt64, maxInt64 in *.
  rewrite (wrap_i64_small (Z.quot _ _)) by lia.
  rewrite wrap_i64_small by lia. reflexivity.
Qed.

(** The background task logs the warning of line 241 exactly when more than
    one interval has gone by. *)
Lemma generationTask_warns env tk s :
  existsb isWarnIntervals (newEvents s (snd (generationTask env tk s))) =
    (1 <? wrap_u64 (tkIntervalsPassed tk)).
Proof.
  unfold generationTask, lock, unlock.
  rewrite !(bind_Ok _ _ _ _ _ (emit_eq _ _)).
  unfold setRunning at 1. unfold bind at 1. unfold bind at 1. rewrite emit_eq. norm.
  set (warn := if 1 <? wrap_u64 (tkIntervalsPassed tk)
               then [EvLog (LogWarnIntervals (wrap_u64 (tkIntervalsPassed tk)))] else []).
  match goal with
  | |- context [bind (if ?c then ?a else ?b) ?k ?st] =>
      assert (Hw : (if c then a else b) st = (Ok tt, after st warn));
      [ unfold warn; destruct (1 <? _); [apply emit_eq | by rewrite after_nil] |];
      rewrite (bind_Ok _ _ _ _ _ Hw); clear Hw
  end.
  match goal with
  | |- context [snd (?rest ?st)] =>
      assert (Hrest : emitsOnly (fun e => negb (isWarnIntervals e)) rest) by emits;
      destruct (Hrest st) as (l2 & E2 & F2)
  end.
  unfold newEvents. rewrite E2. norm.
  rewrite <- !app_assoc, drop_app_length. cbn [app].
  cbn [existsb isWarnIntervals orb]. rewrite existsb_app.
  assert (Hl2 : existsb isWarnIntervals l2 = false).
  { clear -F2. induction l2 as [|e l2 IH]; simpl in *; [done|].
    apply andb_prop in F2 as [He Hl]. rewrite (IH Hl).
    by destruct (isWarnIntervals e). }
  rewrite Hl2, orb_false_r. unfold warn. by destruct (1 <? _).
Qed.

(** *** What a computation emits, and what it returns *)

Import Keeping.

Lemma emitsPost_any {A} P (m : M A) : emitsOnly P m -> emitsPost P (fun _ => True) m.
Proof. intros Hm s. destruct (Hm s) as (l & E & F). by exists l. Qed.

Lemma emitsPost_ret {A} P (Q : A -> Prop) a : Q a -> emitsPost P Q (ret a).
Proof.
  intros Ha s. exists []. cbn. rewrite app_nil_r. split; [done|]. split; [done|].
  by intros a' [= <-].
Qed.

Lemma emitsPost_lift {A} P (Q : A -> Prop) (r : answer A) :
  (forall a, r = Got a -> Q a) -> emitsPost P Q (lift r).
Proof.
  intros Hr s. exists []. unfold lift. destruct r as [a | e]; cbn; rewrite app_nil_r.
  - split; [done|]. split; [done|]. intros a' [= <-]. by apply Hr.
  - split; [done|]. split; [done|]. discriminate.
Qed.

Lemma emitsPost_bind {A B} P (Q1 : A -> Prop) (Q : B -> Prop) (m : M A) (k : A -> M B) :
  emitsPost P Q1 m -> (forall a, Q1 a -> emitsPost P Q (k a)) -> emitsPost P Q (bind m k).
Proof.
  intros Hm Hk s. unfold bind. destruct (Hm s) as (l1 & E1 & F1 & Hq).
  destruct (m s) as [[a | e | | ] s1]; cbn [fst snd] in *;
    try (exists l1; split; [done|]; split; [done|]; discriminate).
  destruct (Hk a (Hq a eq_refl) s1) as (l2 & E2 & F2 & Hq2).
  exists (l1 ++ l2). rewrite E2, E1, app_assoc, forallb_app, F1, F2. done.
Qed.

Lemma emitsPost_bind_any {A B} P (Q : B -> Prop) (m : M A) (k : A -> M B) :
  emitsOnly P m -> (forall a, emitsPost P Q (k a)) -> emitsPost P Q (bind m k).
Proof.
  intros Hm Hk. eapply emitsPost_bind; [by apply emitsPost_any | by intros a _].
Qed.

Lemma emitsPost_emitsOnly {A} P (Q : A -> Prop) (m : M A) : emitsPost P Q m -> emitsOnly P m.
Proof. intros Hm s. destruct (Hm s) as (l & E & F & _). by exists l. Qed.

(** The task that [run] starts carries the count of the interval clock
    (line 240 reads the [intervalsPassed] of line 138). *)
Lemma runInterval_task_count env fuel nodeAccount nodeTrusted startTime endTime
    intervalsPassed s tk :
  fst (runInterval env fuel nodeAccount nodeTrusted startTime endTime intervalsPassed s)
    = Ok (Some tk) ->
  tkIntervalsPassed tk = intervalsPassed.
Proof.
  assert (Hpost : emitsPost (fun _ => true)
                    (fun started => forall tk, started = Some tk ->
                       tkIntervalsPassed tk = intervalsPassed)
                    (runInterval env fuel nodeAccount nodeTrusted startTime endTime
                       intervalsPassed)).
  { unfold runInterval.
    apply emitsPost_bind_any; [emits | intros snapshot].
    apply emitsPost_bind_any; [emits | intros snapshotElBlockHeader].
    apply emitsPost_bind_any; [emits | intros currentIndexBig].
    apply emitsPost_bind_any; [emits | intros _].
    apply emitsPost_bind_any; [emits | intros running].
    destruct running.
    - apply emitsPost_bind_any; [emits | intros _].
      apply emitsPost_bind_any; [emits | intros _]. by apply emitsPost_ret.
    - apply emitsPost_bind_any; [emits | intros _]. unfold resumeOrGenerate.
      apply emitsPost_bind_any; [emits | intros stat].
      destruct (negb (os_IsNotExist stat)).
      + apply emitsPost_bind_any; [emits | intros _]. by apply emitsPost_ret.
      + apply emitsPost_bind_any; [emits | intros _].
        apply emitsPost_ret. by intros tk' [= <-]. }
  intros Hstarted. destruct (Hpost s) as (l & _ & _ & Hq). by apply (Hq (Some tk)).
Qed.

(** The count that the warning of line 241 prints is [uint64(intervalsPassed)]. *)
Lemma generationTask_warning_count env tk s count :
  In (EvLog (LogWarnIntervals count)) (newEvents s (snd (generationTask env tk s))) ->
  count = wrap_u64 (tkIntervalsPassed tk).
Proof.
  intros Hin.
  assert (Hm : emitsOnly (fun e => match e with
                                   | EvLog (LogWarnIntervals c) =>
                                       c =? wrap_u64 (tkIntervalsPassed tk)
                                   | _ => true
                                   end) (generationTask env tk)).
  { emits_by ltac:(first [reflexivity | apply Z.eqb_refl]). }
  pose proof (emitsOnly_newEvents _ _ s Hm) as Hall.
  rewrite forallb_forall in Hall. apply Hall in Hin. cbn in Hin. lia.
Qed.

(** [uint64] of a count within the range of a [Duration]. *)
Lemma wrap_u64_of_count n :
  minInt64 < n <= maxInt64 ->
  wrap_u64 n = (if n <? 0 then n + 2 ^ 64 else n) /\
  (1 <? wrap_u64 n) = ((1 <? n) || (n <? 0)).
Proof.
  unfold minInt64, maxInt64, wrap_u64. intros Hn.
  destruct (n <? 0) eqn:Hneg.
  - apply Z.ltb_lt in Hneg.
    assert (Hmod : n mod 2 ^ 64 = n + 2 ^ 64).
    { symmetry. apply (Z.mod_unique n (2 ^ 64) (-1)); lia. }
    rewrite Hmod. split; [done|]. rewrite orb_true_r. apply Z.ltb_lt. lia.
  - apply Z.ltb_ge in Hneg. rewrite Z.mod_small by lia. split; [done|].
    by rewrite orb_false_r.
Qed.

(** C2 (as amended). Interval clock: with [span] the time from the
    registry's start time to the latest block, within the range of a
    [Duration], [run] takes as [intervalsPassed] the quotient of [span] by
    the interval truncated toward zero, which is the floor when the latest
    block is not before the start.  When it is 0, [run] returns nil having
    done no more than log its first line and read the latest header.
    Otherwise it goes on to the snapshot selection with the end time
    [startTime + intervalTime * intervalsPassed].  The warning about several
    intervals is not logged by [run] itself: the background task logs it,
    with the count of this clock, exactly when [uint64(intervalsPassed) > 1],
    that is when [intervalsPassed > 1] or [intervalsPassed < 0], and the
    count it prints is [uint64(intervalsPassed)]: [intervalsPassed + 2^64]
    for a negative one. *)
Theorem run_interval_clock
    (env : Env) (fuel : nat) (s : State) (nodeAccount : Address) (nodeTrusted : bool)
    (startTime : Time) (intervalTime : Duration) (header : Header) :
  WaitEthClientSynced env = None ->
  WaitBeaconClientSynced env = None ->
  GetNodeAccount env = Got nodeAccount ->
  GetMemberExists env nodeAccount = Got nodeTrusted ->
  nodeTrusted = true \/ RewardsTreeMode env = RewardsMode_Generate ->
  GetClaimIntervalTimeStart env = Got startTime ->
  GetClaimIntervalTime env = Got intervalTime ->
  HeaderByNumber env None = Got header ->
  let latestBlockTime := Unix (wrap_i64 (HeaderTime header)) in
  let span := latestBlockTime - startTime in
  let intervalsPassed := Z.quot span intervalTime in
  let endTime := startTime + intervalTime * intervalsPassed in
  let s1 := after s [EvLog LogChecking; EvHeaderByNumber None] in
  intervalTime <> 0 ->
  minInt64 < span <= maxInt64 ->
  intervalClock startTime intervalTime latestBlockTime = Some (intervalsPassed, endTime) /\
  (startTime <= latestBlockTime -> 0 < intervalTime -> intervalsPassed = span / intervalTime) /\
  (intervalsPassed = 0 -> run env fuel s = (Ok None, s1)) /\
  (intervalsPassed <> 0 ->
   run env fuel s =
     runInterval env fuel nodeAccount nodeTrusted startTime endTime intervalsPassed s1) /\
  forallb (fun e => negb (isWarnIntervals e)) (newEvents s (snd (run env fuel s))) = true /\
  (forall tk, fst (run env fuel s) = Ok (Some tk) -> tkIntervalsPassed tk = intervalsPassed) /\
  (forall tk s0,
     tkIntervalsPassed tk = intervalsPassed ->
     existsb isWarnIntervals (newEvents s0 (snd (generationTask env tk s0))) =
       ((1 <? intervalsPassed) || (intervalsPassed <? 0)) /\
     forall count,
       In (EvLog (LogWarnIntervals count)) (newEvents s0 (snd (generationTask env tk s0))) ->
       count = if intervalsPassed <? 0 then intervalsPassed + 2 ^ 64 else intervalsPassed).
Proof.
  intros Heth Hbeacon Hacct Hmember Hmode Hstart Hinterval Hheader
         latestBlockTime span intervalsPassed endTime s1 Hd Hspan.
  assert (Hclock := intervalClock_exact startTime intervalTime latestBlockTime Hd Hspan).
  fold span in Hclock. fold intervalsPassed in Hclock. fold endTime in Hclock.
  assert (Hrun : run env fuel s =
            if intervalsPassed =? 0 then (Ok None, s1)
            else runInterval env fuel nodeAccount nodeTrusted startTime endTime
                   intervalsPassed s1).
  { unfold run. rewrite Heth, Hbeacon. cbn [liftE]. unfold bind at 1, ret at 1.
    unfold bind at 1, ret at 1. unfold bind at 1, lift at 1. rewrite Hacct.
    unfold bind at 1, lift at 1. rewrite Hmember.
    assert (Hgate : negb nodeTrusted &&
                    negb (RewardsMode_eqb (RewardsTreeMode env) RewardsMode_Generate) = false).
    { destruct Hmode as [-> | ->]; [done | by rewrite andb_false_r]. }
    rewrite Hgate.
    rewrite (bind_Ok _ _ _ _ _ (emit_eq _ _)).
    unfold bind at 1, wrapErr at 1, lift at 1. rewrite Hstart.
    unfold bind at 1, wrapErr at 1, lift at 1. rewrite Hinterval.
    unfold bind at 1, wrapErr at 1. rewrite (bind_Ok _ _ _ _ _ (emit_eq _ _)).
    unfold lift at 1. rewrite Hheader. rewrite after_after. cbn [app].
    fold latestBlockTime. rewrite Hclock. unfold bind at 1, orPanic, ret.
    cbn [fst snd]. fold s1. by destruct (intervalsPassed =? 0). }
  split; [exact Hclock|]. split; [|split; [|split; [|split; [|split]]]].
  - intros Hle Hpos. unfold intervalsPassed. apply Z.quot_div_nonneg; lia.
  - intros H0. by rewrite Hrun, H0.
  - intros Hne. rewrite Hrun. destruct (intervalsPassed =? 0) eqn:E; [lia | done].
  - apply emitsOnly_newEvents. emits.
  - intros tk. rewrite Hrun. destruct (intervalsPassed =? 0); [discriminate|].
    apply runInterval_task_count.
  - intros tk s0 Htk.
    destruct (quot_bounds span intervalTime Hd) as [_ Hq]. fold intervalsPassed in Hq.
    assert (Hrange : minInt64 < intervalsPassed <= maxInt64)
      by (unfold minInt64, maxInt64 in *; lia).
    destruct (wrap_u64_of_count intervalsPassed Hrange) as [Hcount Hwarn].
    split.
    + by rewrite generationTask_warns, Htk.
    + intros count Hin. apply generationTask_warning_count in Hin.
      by rewrite Hin, Htk.
Qed.

(** Registry start at 2000 s, intervals of 100 s, latest block at 2250 s:
    two intervals have gone by, the end time is 2200 s, and the task that
    is started logs the warning. *)
Lemma run_interval_clock_witness :
  let env := Scenario.envOf (Scenario.knobs true 2250 5 false true) in
  intervalClock (Unix 2000) (100 * Second) (Unix 2250) = Some (2, Unix 2200) /\
  run env 10 Scenario.emptyState =
    runInterval env 10 [Byte.x01] true (Unix 2000) (Unix 2200) 2
      (after Scenario.emptyState [EvLog LogChecking; EvHeaderByNumber None]) /\
  existsb isWarnIntervals
    (newEvents Scenario.emptyState
       (snd (generationTask env (Scenario.sampleTask true) Scenario.emptyState))) = true.
Proof.
  intros env.
  destruct (run_interval_clock env 10 Scenario.emptyState [Byte.x01] true (Unix 2000)
              (100 * Second) {| Number := 900; HeaderTime := 2250 |}
              eq_refl eq_refl eq_refl eq_refl (or_introl eq_refl) eq_refl eq_refl eq_refl
              ltac:(vm_compute; discriminate) ltac:(vm_compute; split; [reflexivity | discriminate]))
    as (H1 & _ & _ & H4 & _ & _ & H7).
  split; [exact H1|]. split; [apply H4; vm_compute; discriminate|].
  exact (proj1 (H7 (Scenario.sampleTask true) Scenario.emptyState eq_refl)).
Defined.

(** C2 as stated fails on the code in two places.  With the latest block
    5 s before the registry's start, [run] computes 0 intervals where the
    floor is -1.  And with two intervals gone by, a trusted node that finds
    the rewards file on disk submits it (two intervals in one submission)
    without any warning being logged. *)
Lemma run_interval_clock_counterexample :
  (intervalClock (Unix 2000) (100 * Second) (Unix 1995) = Some (0, Unix 2000) /\
   (Unix 1995 - Unix 2000) / (100 * Second) = -1) /\
  (let r := runThenTask (Scenario.envOf (Scenario.knobs true 2250 5 false true)) 10
              Scenario.storedState in
   intervalClock (Unix 2000) (100 * Second) (Unix 2250) = Some (2, Unix 2200) /\
   fst r = Ok tt /\
   existsb isSubmitTx (trace (snd r)) = true /\
   existsb isWarnIntervals (trace (snd r)) = false).
Proof. vm_compute. repeat split; reflexivity. Qed.

(** ** The guard under interleaving *)

Section Guard.
Import Interleaving.
Local Open Scope nat_scope.

Lemma lookup_setThread s i p j q :
  i < length (threads s) ->
  setThread i p s !! j = Some q ->
  (j = i /\ q = p) \/ (j <> i /\ threads s !! j = Some q).
Proof.
  intros Hi. unfold setThread. destruct (decide (j = i)) as [->|Hne].
  - rewrite list_lookup_insert_eq by done. intros [= <-]. by left.
  - rewrite list_lookup_insert_ne by done. intros H. by right.
Qed.

Lemma setThread_is_Some s i p h :
  is_Some (threads s !! h) -> is_Some (setThread i p s !! h).
Proof.
  intros H. apply lookup_lt_is_Some in H. apply lookup_lt_is_Some.
  unfold setThread. by rewrite length_insert.
Qed.

Lemma lockInv_initial n : lockInv (initial n).
Proof.
  split; [intros h H; discriminate|].
  intros j p Hj. apply lookup_replicate in Hj as [-> _]. simpl. split; discriminate.
Qed.

Lemma flagInv_initial n : flagInv (initial n).
Proof. intros H. discriminate. Qed.

(** Thread [i] moves on without touching the lock. *)
Lemma lockInv_move s i p next fl :
  lockInv s -> threads s !! i = Some p -> holds next = holds p ->
  lockInv {| flag := fl; mutex := mutex s; threads := setThread i next s |}.
Proof.
  intros [Hval Hinv] Hi Hsame.
  assert (Hlen : i < length (threads s)) by (by eapply lookup_lt_Some).
  split; cbn [threads mutex].
  - intros h Hh. by apply setThread_is_Some, Hval.
  - intros j q Hj.
    apply (lookup_setThread s _ _ _ _ Hlen) in Hj as [[-> ->] | [Hne Hj]].
    + rewrite Hsame. by apply Hinv.
    + by apply Hinv.
Qed.

(** Thread [i] takes the free lock. *)
Lemma lockInv_acquire s i p next s' :
  lockInv s -> threads s !! i = Some p -> holds next = true ->
  acquire i next s = Some s' -> lockInv s'.
Proof.
  intros [Hval Hinv] Hi Hnext Hacq. unfold acquire in Hacq.
  assert (Hlen : i < length (threads s)) by (by eapply lookup_lt_Some).
  destruct (mutex s) as [h|] eqn:Hm; [discriminate|]. injection Hacq as <-.
  split; cbn [threads mutex].
  - intros h [= <-]. apply setThread_is_Some. by exists p.
  - intros j q Hj.
    apply (lookup_setThread s _ _ _ _ Hlen) in Hj as [[-> ->] | [Hne Hj]].
    + by rewrite Hnext.
    + destruct (Hinv j q Hj) as [H1 H2]. split.
      * intros Hq. by specialize (H1 Hq).
      * intros [= ->]. done.
Qed.

(** Thread [i], which holds the lock, gives it back. *)
Lemma lockInv_release s i p next s' :
  lockInv s -> threads s !! i = Some p -> holds p = true -> holds next = false ->
  release i next s = Some s' -> lockInv s'.
Proof.
  intros [Hval Hinv] Hi Hp Hnext Hrel. injection Hrel as <-.
  assert (Hlen : i < length (threads s)) by (by eapply lookup_lt_Some).
  assert (Hm : mutex s = Some i) by (by apply (Hinv i p Hi)).
  split; cbn [threads mutex]; [intros h H; discriminate|].
  intros j q Hj.
  apply (lookup_setThread s _ _ _ _ Hlen) in Hj as [[-> ->] | [Hne Hj]].
  - by rewrite Hnext.
  - destruct (Hinv j q Hj) as [H1 H2]. rewrite Hm in H1. split; [|done].
    intros Hq. specialize (H1 Hq). congruence.
Qed.

(** Thread [i] starts a task: one more thread, at the end of the list. *)
Lemma lockInv_spawn s i p next :
  lockInv s -> threads s !! i = Some p -> holds next = holds p ->
  lockInv {| flag := flag s; mutex := mutex s;
             threads := setThread i next s ++ [TaskStart] |}.
Proof.
  intros Hinv Hi Hsame.
  destruct (lockInv_move s i p next (flag s) Hinv Hi Hsame) as [Hval' Hinv'].
  cbn [threads mutex] in *.
  split; cbn [threads mutex].
  - intros h Hh. destruct (Hval' h Hh) as [q Hq]. exists q.
    by apply lookup_app_l_Some.
  - intros j q Hj. apply lookup_app_Some in Hj as [Hj | [Hge Hj]]; [by apply Hinv'|].
    apply list_lookup_singleton_Some in Hj as [Hz <-]. simpl. split; [discriminate|].
    intros Hm. destruct (Hval' j Hm) as [q Hq]. apply lookup_lt_Some in Hq. lia.
Qed.

Lemma lockInv_step i c s s' : lockInv s -> step i c s = Some s' -> lockInv s'.
Proof.
  intros Hinv Hstep. unfold step in Hstep.
  destruct (threads s !! i) as [p|] eqn:Hi; [|discriminate].
  destruct p; try discriminate.
  - refine (lockInv_acquire s i _ _ s' Hinv Hi _ Hstep); reflexivity.
  - injection Hstep as <-. apply (lockInv_move s i _ _ _ Hinv Hi). by destruct (flag s).
  - refine (lockInv_release s i _ _ s' Hinv Hi _ _ Hstep); reflexivity.
  - refine (lockInv_release s i _ _ s' Hinv Hi _ _ Hstep); reflexivity.
  - destruct c; injection Hstep as <-.
    + refine (lockInv_move s i _ _ _ Hinv Hi _); reflexivity.
    + refine (lockInv_spawn s i _ _ Hinv Hi _); reflexivity.
  - refine (lockInv_acquire s i _ _ s' Hinv Hi _ Hstep); reflexivity.
  - injection Hstep as <-. refine (lockInv_move s i _ _ _ Hinv Hi _); reflexivity.
  - refine (lockInv_release s i _ _ s' Hinv Hi _ _ Hstep); reflexivity.
  - injection Hstep as <-. refine (lockInv_move s i _ _ _ Hinv Hi _); reflexivity.
  - refine (lockInv_acquire s i _ _ s' Hinv Hi _ Hstep); reflexivity.
  - injection Hstep as <-. refine (lockInv_move s i _ _ _ Hinv Hi _); reflexivity.
  - refine (lockInv_release s i _ _ s' Hinv Hi _ _ Hstep); reflexivity.
Qed.

Lemma flagInv_step i c s s' : flagInv s -> step i c s = Some s' -> flagInv s'.
Proof.
  intros Hinv Hstep. unfold step in Hstep.
  destruct (threads s !! i) as [p|] eqn:Hi; [|discriminate].
  assert (Hlen : i < length (threads s)) by (by eapply lookup_lt_Some).
  (* a thread other than [i] that is marked stays so; [i] stays marked
     unless it clears the flag itself *)
  assert (Hkeep : forall next fl mu extra,
            (marked p = true -> marked next = true) ->
            (fl = true -> flag s = true \/ marked next = true) ->
            flagInv {| flag := fl; mutex := mu; threads := setThread i next s ++ extra |}).
  { intros next fl mu extra Hmark Hfl Hflag. cbn [flag threads] in *.
    destruct (Hfl Hflag) as [Hold | Hnew].
    - destruct (Hinv Hold) as (j & q & Hj & Hq).
      destruct (decide (j = i)) as [-> | Hne].
      + exists i, next. split.
        * apply lookup_app_l_Some. unfold setThread. by apply list_lookup_insert_eq.
        * apply Hmark. congruence.
      + exists j, q. split; [|done].
        apply lookup_app_l_Some. unfold setThread. by rewrite list_lookup_insert_ne.
    - exists i, next. split; [|done].
      apply lookup_app_l_Some. unfold setThread. by apply list_lookup_insert_eq. }
  assert (Hkeep0 : forall next fl mu,
            (marked p = true -> marked next = true) ->
            (fl = true -> flag s = true \/ marked next = true) ->
            flagInv {| flag := fl; mutex := mu; threads := setThread i next s |}).
  { intros next fl mu H1 H2. specialize (Hkeep next fl mu [] H1 H2).
    by rewrite app_nil_r in Hkeep. }
  unfold acquire, release, goto in Hstep.
  destruct p; try discriminate;
    repeat match type of Hstep with
           | context [match ?x with _ => _ end] => destruct x eqn:?
           end;
    try discriminate; injection Hstep as <-;
    first [ by (unfold flagInv; cbn [flag]; intros H; discriminate)
          | apply Hkeep0; [simpl; try done | intros ?; try (by left); try (by right)]
          | apply Hkeep; [simpl; try done | intros ?; try (by left); try (by right)] ].
Qed.

Lemma exec_invariant schedule :
  forall s s', lockInv s -> flagInv s -> exec schedule s = Some s' -> lockInv s' /\ flagInv s'.
Proof.
  induction schedule as [|[i c] rest IH]; intros s s' Hl Hf Hexec; simpl in Hexec.
  - injection Hexec as <-. by split.
  - destruct (step i c s) as [s1|] eqn:Hstep; [|discriminate].
    eapply IH; [by eapply lockInv_step | by eapply flagInv_step | done].
Qed.

End Guard.

(** In every state that overlapping invocations can reach, at most one
    thread is between a [Lock] and its [Unlock], so every read and every
    write of [isRunning] is done with the lock held by the thread doing it;
    and [isRunning] is true only while a task that raised it has not yet
    cleared it: when no task is under way, the flag is down. *)
Theorem guard_invariants (n : nat) (s : Interleaving.state) :
  Interleaving.reachable n s ->
  (forall i j p q,
     Interleaving.threads s !! i = Some p -> Interleaving.threads s !! j = Some q ->
     Interleaving.holds p = true -> Interleaving.holds q = true -> i = j) /\
  ((forall j p, Interleaving.threads s !! j = Some p -> Interleaving.marked p = false) ->
   Interleaving.flag s = false).
Proof.
  intros [schedule Hexec].
  destruct (exec_invariant schedule _ _ (lockInv_initial n) (flagInv_initial n) Hexec)
    as [[_ Hlock] Hflag].
  split.
  - intros i j p q Hi Hj Hp Hq.
    apply (Hlock i p Hi) in Hp. apply (Hlock j q Hj) in Hq. congruence.
  - intros Hnone. destruct (Interleaving.flag s) eqn:Hf; [|done].
    destruct (Hflag Hf) as (j & p & Hj & Hp). rewrite (Hnone j p Hj) in Hp. discriminate.
Qed.

(** Two invocations.  The first has passed the check and started its task
    (thread 2); the task has raised the flag, generated, failed, and is in
    [handleError] between [isRunning = false] and the last [Unlock], while
    the second invocation waits to take the lock.  The task is the only
    thread in a critical section, and with no task left between raising
    and clearing the flag, the flag is down. *)
Lemma guard_invariants_witness :
  let schedule :=
    [ (0, false); (0, false); (0, false); (0, false);   (* run: Lock, read, Unlock, go *)
      (2, false); (2, false); (2, false);               (* task: Lock, set, Unlock *)
      (2, true);                                        (* the generation fails *)
      (2, false); (2, false) ]%nat in                   (* handleError: Lock, clear *)
  let s := {| Interleaving.flag := false;
              Interleaving.mutex := Some 2%nat;
              Interleaving.threads :=
                [Interleaving.RunDone Interleaving.Spawned; Interleaving.RunStart;
                 Interleaving.TaskCleared] |} in
  Interleaving.exec schedule (Interleaving.initial 2) = Some s /\
  Interleaving.holds Interleaving.TaskCleared = true /\
  (forall i p,
     Interleaving.threads s !! i = Some p -> Interleaving.holds p = true -> i = 2%nat) /\
  Interleaving.flag s = false.
Proof.
  intros schedule s.
  assert (Hexec : Interleaving.exec schedule (Interleaving.initial 2) = Some s)
    by reflexivity.
  destruct (guard_invariants 2 s (ex_intro _ schedule Hexec)) as [Hone Hdown].
  split; [exact Hexec|]. split; [reflexivity|]. split.
  - intros i p Hi Hp.
    exact (Hone i 2%nat p Interleaving.TaskCleared Hi eq_refl Hp eq_refl).
  - apply Hdown. intros j p Hj.
    destruct j as [|[|[|j]]]; cbn in Hj; try discriminate Hj; by injection Hj as <-.
Defined.

(** C1 fails on the code: the check of [isRunning] (lines 171-177) and the
    raising of it (lines 234-236, inside the task) are two critical
    sections.  Two invocations that both pass the check before either task
    has raised the flag both start a task, and both tasks generate. *)
Theorem guard_check_then_set_race :
  Interleaving.exec Interleaving.raceSchedule (Interleaving.initial 2) =
    Some {| Interleaving.flag := true;
            Interleaving.mutex := None;
            Interleaving.threads :=
              [Interleaving.RunDone Interleaving.Spawned;
               Interleaving.RunDone Interleaving.Spawned;
               Interleaving.TaskGenerating; Interleaving.TaskGenerating] |} /\
  Interleaving.countGenerating
    {| Interleaving.flag := true;
       Interleaving.mutex := None;
       Interleaving.threads :=
         [Interleaving.RunDone Interleaving.Spawned;
          Interleaving.RunDone Interleaving.Spawned;
          Interleaving.TaskGenerating; Interleaving.TaskGenerating] |} = 2%nat.
Proof. split; reflexivity. Qed.

(** ** The order of the writes of the background task *)

Section WriteOrder.
Variables (path perfPath : string) (trusted : bool).



End WriteOrder.



Lemma newEvents_eq s l s' : trace s' = trace s ++ l -> newEvents s s' = l.
Proof. intros H. unfold newEvents. by rewrite H, drop_app_length. Qed.







(** ** Binary64 division of two integers, and its ceiling *)

Section Binary64.
Import Float64.

(** *** The number of binary digits *)

Lemma digits2_size p : digits2_pos p = Pos.size p.
Proof. induction p as [p IH | p IH |]; simpl; by rewrite ?IH. Qed.

Lemma digits_bounds p :
  2 ^ (Z.pos (digits2_pos p) - 1) <= Z.pos p < 2 ^ Z.pos (digits2_pos p).
Proof.
  rewrite digits2_size. split.
  - pose proof (Pos.size_le p) as H.
    assert (H' : 2 ^ Z.pos (Pos.size p) <= 2 * Z.pos p).
    { rewrite <- Pos2Z.inj_pow. change (2 * Z.pos p) with (Z.pos p~0). lia. }
    replace (Z.pos (Pos.size p)) with (Z.pos (Pos.size p) - 1 + 1) in H' by lia.
    rewrite Z.pow_add_r in H' by lia. lia.
  - pose proof (Pos.size_gt p) as H. rewrite <- Pos2Z.inj_pow. lia.
Qed.

Lemma digits_unique p d :
  2 ^ (d - 1) <= Z.pos p < 2 ^ d -> Z.pos (digits2_pos p) = d.
Proof.
  intros [Hlo Hhi]. pose proof (digits_bounds p) as [Hlo' Hhi'].
  assert (Hd : 0 < d).
  { destruct (Z.lt_ge_cases 0 d) as [|Hd]; [done|].
    assert (2 ^ d <= 1).
    { destruct (Z.eq_dec d 0) as [-> | ?]; [simpl; lia|].
      rewrite Z.pow_neg_r by lia. lia. }
    lia. }
  destruct (Z.lt_trichotomy (Z.pos (digits2_pos p)) d) as [Hlt | [Heq | Hgt]]; [|done|].
  - assert (2 ^ Z.pos (digits2_pos p) <= 2 ^ (d - 1)) by (apply Z.pow_le_mono_r; lia). lia.
  - assert (2 ^ d <= 2 ^ (Z.pos (digits2_pos p) - 1)) by (apply Z.pow_le_mono_r; lia). lia.
Qed.

Lemma Zdigits2_eq z d : 2 ^ (d - 1) <= z < 2 ^ d -> 0 < z -> Zdigits2 z = d.
Proof.
  intros Hb Hz. destruct z as [|p|p]; try lia. simpl. by apply digits_unique.
Qed.

Lemma iter_xO m d : Z.pos (Pos.iter xO m d) = Z.pos m * 2 ^ Z.pos d.
Proof.
  induction d as [|d IH] using Pos.peano_ind.
  - simpl. lia.
  - rewrite Pos.iter_succ, Pos2Z.inj_succ, Z.pow_succ_r by lia.
    rewrite Pos2Z.inj_xO, IH. lia.
Qed.

(** *** Rounding a mantissa that is already in place *)

Lemma fexp_normal e : -1021 <= e -> fexp prec emax e = e - 53.
Proof. intros H. unfold fexp, emin, prec, emax. lia. Qed.

(** A mantissa of 53 digits with nothing to round. *)
Lemma binary_round_aux_exact m e :
  Z.pos (digits2_pos m) = 53 -> -1074 <= e <= 971 ->
  binary_round_aux prec emax false (Z.pos m) e loc_Exact = S754_finite false m e.
Proof.
  intros Hd He. unfold binary_round_aux, shr_fexp. cbn [Zdigits2].
  rewrite Hd, fexp_normal by lia.
  replace (53 + e - 53 - e) with 0 by lia. cbn [shr_record_of_loc shr shr_m loc_of_shr_record
    round_nearest_even Zdigits2].
  rewrite Hd, fexp_normal by lia.
  replace (53 + e - 53 - e) with 0 by lia. cbn [shr shr_m].
  unfold prec, emax. destruct (e <=? 1024 - 53) eqn:E; [done | lia].
Qed.

(** [float64(a)] for [0 < a < 2^53]: the integer itself, its mantissa moved
    up to 53 digits. *)
Lemma of_int_pos (a : positive) :
  Z.pos a < 2 ^ 53 ->
  exists m e, of_int (Z.pos a) = S754_finite false m e /\
              Z.pos (digits2_pos m) = 53 /\ -52 <= e <= 0 /\
              Z.pos m = Z.pos a * 2 ^ (- e).
Proof.
  intros Ha. pose proof (digits_bounds a) as [Hlo Hhi].
  set (d := Z.pos (digits2_pos a)) in *.
  assert (Hd : 1 <= d <= 53).
  { split; [unfold d; lia|].
    destruct (Z.le_gt_cases d 53) as [|Hgt]; [done|].
    assert (2 ^ 53 <= 2 ^ (d - 1)) by (apply Z.pow_le_mono_r; lia). lia. }
  unfold of_int, binary_normalize, binary_round.
  rewrite Z.add_0_r. fold d. rewrite fexp_normal by lia.
  unfold shl_align. rewrite Z.sub_0_r.
  destruct (d - 53) as [|n|n] eqn:Hn; try lia.
  - exists a, 0. rewrite binary_round_aux_exact by (fold d; lia).
    repeat split; try lia; fold d; lia.
  - exists (Pos.iter xO a n), (Z.neg n).
    assert (Hm : Z.pos (Pos.iter xO a n) = Z.pos a * 2 ^ Z.pos n) by apply iter_xO.
    assert (Hdig : Z.pos (digits2_pos (Pos.iter xO a n)) = 53).
    { apply digits_unique. rewrite Hm.
      replace 53 with (d + Z.pos n) by lia.
      replace (d + Z.pos n - 1) with (d - 1 + Z.pos n) by lia.
      rewrite !Z.pow_add_r by lia. nia. }
    rewrite binary_round_aux_exact by (try done; lia).
    repeat split; try done; try lia.
Qed.

(** *** Division of two 53-digit mantissas *)

Lemma div_eucl_eq a b : Z.div_eucl a b = (a / b, a mod b).
Proof. unfold Z.div, Z.modulo. by destruct (Z.div_eucl a b). Qed.

Lemma SFdiv_core_53 (ma mb : positive) (ea eb : Z) :
  Z.pos (digits2_pos ma) = 53 -> Z.pos (digits2_pos mb) = 53 ->
  -52 <= ea <= 0 -> -52 <= eb <= 0 ->
  SFdiv_core_binary prec emax (Z.pos ma) ea (Z.pos mb) eb =
    (Z.pos ma * 2 ^ 53 / Z.pos mb, ea - eb - 53,
     new_location (Z.pos mb) ((Z.pos ma * 2 ^ 53) mod Z.pos mb)).
Proof.
  intros Hda Hdb Hea Heb. unfold SFdiv_core_binary. cbn [Zdigits2].
  rewrite Hda, Hdb.
  replace (53 + ea - (53 + eb)) with (ea - eb) by lia.
  rewrite fexp_normal by lia.
  rewrite Z.min_l by lia.
  replace (ea - eb - (ea - eb - 53)) with 53 by lia.
  rewrite Z.shiftl_mul_pow2 by lia.
  by rewrite div_eucl_eq.
Qed.

Lemma shr_fexp_keep q e lz :
  2 ^ 52 <= q < 2 ^ 53 -> -1074 <= e ->
  shr_fexp prec emax q e lz = (shr_record_of_loc q lz, e).
Proof.
  intros Hq He. unfold shr_fexp.
  rewrite (Zdigits2_eq q 53) by (simpl; lia).
  rewrite fexp_normal by lia.
  by replace (53 + e - 53 - e) with 0 by lia.
Qed.

Lemma shr_fexp_one q e lz :
  2 ^ 53 <= q < 2 ^ 54 -> -1074 <= e ->
  shr_fexp prec emax q e lz = (shr_1 (shr_record_of_loc q lz), e + 1).
Proof.
  intros Hq He. unfold shr_fexp.
  rewrite (Zdigits2_eq q 54) by (simpl; lia).
  rewrite fexp_normal by lia.
  by replace (54 + e - 53 - e) with 1 by lia.
Qed.

Lemma loc_of_shr_record_of_loc q lz :
  loc_of_shr_record (shr_record_of_loc q lz) = lz /\
  shr_m (shr_record_of_loc q lz) = q.
Proof. by destruct lz as [|[]]. Qed.

(** The last step of [binary_round_aux]: a rounded mantissa of 53 digits
    stays, and 2^53 becomes 2^52 one exponent up. *)
Lemma round_finish m1 E :
  2 ^ 52 <= m1 <= 2 ^ 53 -> -1074 <= E <= 970 ->
  exists m e,
    (let '(mrs, e2) := shr_fexp prec emax m1 E loc_Exact in
     match shr_m mrs with
     | Z0 => S754_zero false
     | Z.pos m => if e2 <=? emax - prec then S754_finite false m e2 else S754_infinity false
     | Z.neg _ => S754_nan
     end) = S754_finite false m e /\
    ((e = E /\ Z.pos m = m1) \/ (e = E + 1 /\ 2 * Z.pos m = m1 /\ m1 = 2 ^ 53)).
Proof.
  intros Hm HE. destruct (Z.eq_dec m1 (2 ^ 53)) as [-> | Hne].
  - rewrite shr_fexp_one by lia.
    change (2 ^ 53) with 9007199254740992.
    cbn [shr_record_of_loc shr_1 shr_m]. unfold emax, prec.
    destruct (E + 1 <=? 1024 - 53) eqn:Hle; [|lia].
    eexists _, _. split; [reflexivity|]. right. split; [done|]. split; reflexivity.
  - rewrite shr_fexp_keep by lia. cbn [shr_record_of_loc shr_m].
    destruct m1 as [|p|p]; try lia.
    unfold emax, prec. destruct (E <=? 1024 - 53) eqn:Hle; [|lia].
    exists p, E. split; [done|]. by left.
Qed.

(** Which way [round_nearest_even] goes after [new_location]: down only
    with a remainder of at most half, up only with a remainder. *)
Lemma round_new_location q D r :
  0 < D -> 0 <= r < D ->
  let m1 := round_nearest_even q (new_location D r) in
  (m1 = q /\ 2 * r <= D) \/ (m1 = q + 1 /\ 0 < r).
Proof.
  intros HD Hr. cbn zeta. unfold new_location, new_location_even, new_location_odd.
  destruct (Z.eqb_spec r 0) as [-> | Hr0].
  - destruct (Z.even D); simpl; left; lia.
  - pose proof (proj2 (Z.eqb_neq r 0) Hr0) as E0.
    destruct (Z.even D) eqn:Hev; rewrite ?E0.
    + destruct (Z.compare_spec (2 * r) D) as [Heq | Hlt | Hgt]; simpl.
      * destruct (Z.even q); [left | right]; lia.
      * left; lia.
      * right; lia.
    + destruct (Z.compare_spec (2 * r + 1) D) as [Heq | Hlt | Hgt]; simpl.
      * left; lia.
      * left; lia.
      * right; lia.
Qed.

Lemma new_location_cases D r :
  (r = 0 /\ new_location D r = loc_Exact) \/
  (r <> 0 /\ exists c, new_location D r = loc_Inexact c).
Proof.
  unfold new_location, new_location_even, new_location_odd.
  destruct (Z.eqb_spec r 0) as [-> | Hr0].
  - left. by destruct (Z.even D).
  - right. split; [done|]. pose proof (proj2 (Z.eqb_neq r 0) Hr0) as E0.
    destruct (Z.even D); rewrite ?E0; eauto.
Qed.

(** The same after one more digit was shifted out: the digit is the
    rounding bit and the remainder of the division is the sticky bit. *)
Lemma round_shr_one (p : positive) D r :
  0 < D -> 0 <= r < D ->
  let q := Z.pos p in
  let mrs := shr_1 (shr_record_of_loc q (new_location D r)) in
  let m1 := round_nearest_even (shr_m mrs) (loc_of_shr_record mrs) in
  let R := (q - 2 * (q / 2)) * D + r in
  (m1 = q / 2 /\ R <= D) \/ (m1 = q / 2 + 1 /\ 0 < R).
Proof.
  intros HD Hr. cbn zeta.
  assert (Hodd : forall p', Z.pos p'~1 / 2 = Z.pos p' /\ Z.pos p'~1 - 2 * Z.pos p' = 1).
  { intros p'. split; [symmetry; apply Z.div_unique with 1; lia | lia]. }
  assert (Hev : forall p', Z.pos p'~0 / 2 = Z.pos p' /\ Z.pos p'~0 - 2 * Z.pos p' = 0).
  { intros p'. split; [symmetry; apply Z.div_unique with 0; lia | lia]. }
  destruct (new_location_cases D r) as [[-> ->] | [Hr0 [c ->]]];
    destruct p as [p | p |];
    try (destruct (Hodd p) as [-> ->]); try (destruct (Hev p) as [-> ->]);
    try change (1 / 2) with 0;
    try destruct c;
    cbn [shr_1 shr_record_of_loc shr_m shr_r shr_s loc_of_shr_record
         round_nearest_even orb];
    try (destruct (Z.even (Z.pos p)));
    first [left; split; [reflexivity | lia] | right; split; [reflexivity | lia]].
Qed.

(** The quotient of two floats with 53-digit mantissas: the integer
    quotient [qt] of the scaled mantissas, rounded to [m1] (down only with at
    most half a unit left, up only with something left), then normalised. *)
Lemma SFdiv_53 (ma mb : positive) (ea eb : Z) :
  Z.pos (digits2_pos ma) = 53 -> Z.pos (digits2_pos mb) = 53 ->
  -52 <= ea <= 0 -> -52 <= eb <= 0 ->
  exists (m : positive) (e t m1 : Z),
    div (S754_finite false ma ea) (S754_finite false mb eb) = S754_finite false m e /\
    (t = 0 \/ t = 1) /\
    let N := Z.pos ma * 2 ^ 53 in
    let GD := 2 ^ t * Z.pos mb in
    let qt := N / GD in
    let E := ea - eb - 53 + t in
    2 ^ 52 <= qt < 2 ^ 53 /\
    ((m1 = qt /\ 2 * (N - qt * GD) <= GD) \/ (m1 = qt + 1 /\ 0 < N - qt * GD)) /\
    ((e = E /\ Z.pos m = m1) \/ (e = E + 1 /\ 2 * Z.pos m = m1 /\ m1 = 2 ^ 53)).
Proof.
  intros Hda Hdb Hea Heb.
  pose proof (digits_bounds ma) as Ba. pose proof (digits_bounds mb) as Bb.
  rewrite Hda in Ba. rewrite Hdb in Bb.
  change (2 ^ (53 - 1)) with (2 ^ 52) in *.
  unfold div, SFdiv. cbn [xorb].
  rewrite SFdiv_core_53 by done.
  set (N := Z.pos ma * 2 ^ 53). set (D := Z.pos mb).
  set (q := N / D). set (r := N mod D).
  assert (HD : 0 < D) by (unfold D; lia).
  assert (Hr : 0 <= r < D) by (apply Z.mod_pos_bound; lia).
  assert (HN : N = D * q + r) by (apply Z.div_mod; lia).
  assert (Hq : 2 ^ 52 <= q < 2 ^ 54).
  { split.
    - apply Z.div_le_lower_bound; [lia|]. unfold N, D. nia.
    - apply Z.div_lt_upper_bound; [lia|]. unfold N, D. nia. }
  unfold binary_round_aux.
  destruct (Z_lt_le_dec q (2 ^ 53)) as [Hlt | Hge].
  - (* the quotient has 53 digits *)
    rewrite shr_fexp_keep by lia.
    destruct (loc_of_shr_record_of_loc q (new_location D r)) as [-> ->].
    pose proof (round_new_location q D r HD Hr) as Hround. cbn zeta in Hround.
    set (m1 := round_nearest_even q (new_location D r)) in *.
    destruct (round_finish m1 (ea - eb - 53)) as (m & e & Hfin & Hme); [lia | lia |].
    exists m, e, 0, m1. split; [exact Hfin|]. split; [by left|].
    cbn zeta. change (2 ^ 0) with 1. rewrite Z.mul_1_l, Z.add_0_r. fold q.
    split; [lia|]. split; [|exact Hme].
    destruct Hround as [[H1 H2] | [H1 H2]]; [left | right]; (split; [done | lia]).
  - (* the quotient has 54 digits *)
    rewrite shr_fexp_one by lia.
    destruct q as [|p|p] eqn:Eq; try lia.
    pose proof (round_shr_one p D r HD Hr) as Hround. cbn zeta in Hround.
    set (mrs := shr_1 (shr_record_of_loc (Z.pos p) (new_location D r))) in *.
    set (m1 := round_nearest_even (shr_m mrs) (loc_of_shr_record mrs)) in *.
    assert (Hhalf : 2 ^ 52 <= Z.pos p / 2 < 2 ^ 53).
    { split; [apply Z.div_le_lower_bound; lia | apply Z.div_lt_upper_bound; lia]. }
    assert (Hqt : N / (2 ^ 1 * D) = Z.pos p / 2).
    { rewrite (Z.mul_comm (2 ^ 1) D), <- Z.div_div by lia. fold q. by rewrite Eq. }
    pose proof (Z.div_mod (Z.pos p) 2 ltac:(lia)) as Hp2.
    pose proof (Z.mod_pos_bound (Z.pos p) 2 ltac:(lia)) as Hp2b.
    destruct (round_finish m1 (ea - eb - 53 + 1)) as (m & e & Hfin & Hme); [lia | lia |].
    exists m, e, 1, m1. split; [exact Hfin|]. split; [by right|].
    cbn zeta. rewrite Hqt. split; [lia|]. split; [|exact Hme].
    change (2 ^ 1) with 2.
    destruct Hround as [[H1 H2] | [H1 H2]]; [left | right]; (split; [done | nia]).
Qed.

(** *** Back to integers *)

Lemma to_uint64_of_int arch n :
  0 <= n < 2 ^ 53 -> to_uint64 arch (of_int n) = n.
Proof.
  intros Hn. destruct n as [|a|a]; [reflexivity | | lia].
  destruct (of_int_pos a) as (m & e & -> & _ & He & Hm); [lia|].
  unfold to_uint64. rewrite Hm.
  assert (Hp : 0 < 2 ^ (- e)) by (apply Z.pow_pos_nonneg; lia).
  destruct (0 <=? e) eqn:H0.
  - assert (e = 0) as -> by lia. change (2 ^ (- 0)) with 1. change (2 ^ 0) with 1.
    rewrite !Z.mul_1_r. destruct (Z.pos a <? 2 ^ 64) eqn:Hlt; [done | lia].
  - rewrite Z.div_mul by lia. destruct (Z.pos a <? 2 ^ 64) eqn:Hlt; [done | lia].
Qed.

(** A positive float strictly above [k - 1] and at most [k] has ceiling [k]. *)
Lemma ceil_to_uint64 arch (m : positive) e k :
  e <= 0 -> 0 < k < 2 ^ 53 ->
  (k - 1) * 2 ^ (- e) < Z.pos m <= k * 2 ^ (- e) ->
  to_uint64 arch (ceil (S754_finite false m e)) = k.
Proof.
  intros He Hk Hm. unfold ceil.
  destruct (0 <=? e) eqn:H0.
  - assert (e = 0) as -> by lia. change (2 ^ (- 0)) with 1 in Hm.
    unfold to_uint64. cbn [Z.leb Z.compare]. change (2 ^ 0) with 1.
    rewrite Z.mul_1_r. destruct (Z.pos m <? 2 ^ 64) eqn:Hlt; lia.
  - cbn zeta. set (d := 2 ^ (- e)) in *.
    assert (Hd : 0 < d) by (apply Z.pow_pos_nonneg; lia).
    assert (Hq : - Z.pos m / d = - k).
    { symmetry. apply Z.div_unique with (k * d - Z.pos m); lia. }
    rewrite Hq, Z.opp_involutive. apply to_uint64_of_int. lia.
Qed.

(** The integer argument: rounding the quotient of the mantissas to 53
    digits cannot carry it across an integer when the dividend is below
    2^53. *)
Lemma rounded_quotient_between a b P qt m1 k :
  0 < a < 2 ^ 53 -> 0 < b -> 1 <= P ->
  2 ^ 52 <= qt ->
  qt * b <= a * P < (qt + 1) * b ->
  (m1 = qt /\ 2 * (a * P - qt * b) <= b) \/ (m1 = qt + 1 /\ 0 < a * P - qt * b) ->
  (k - 1) * b < a <= k * b ->
  (k - 1) * P < m1 <= k * P.
Proof.
  intros Ha Hb HP Hqt [H1 H2] Hround [Hk1 Hk2].
  assert (HkP : a * P <= k * P * b) by nia.
  destruct Hround as [[-> Hhalf] | [-> Hpos]].
  - split.
    + destruct (Z_lt_le_dec ((k - 1) * P) qt) as [|Hcontra]; [done|].
      exfalso.
      assert (Hgap : P <= a * P - qt * b) by nia.
      assert (H2P : 2 * P <= b) by lia.
      assert (Hk : 2 ^ 52 <= (k - 1) * P) by lia.
      assert (Hbig : 2 * ((k - 1) * P) <= (k - 1) * b) by nia.
      lia.
    + apply Z.mul_le_mono_pos_r with b; [lia|]. lia.
  - split.
    + destruct (Z_lt_le_dec ((k - 1) * P) (qt + 1)) as [|Hcontra]; [done|].
      exfalso.
      assert ((qt + 1) * b <= (k - 1) * P * b) by nia.
      assert ((k - 1) * P * b < a * P) by nia.
      lia.
    + assert (qt < k * P); [|lia].
      apply Z.mul_lt_mono_pos_r with b; [lia|]. lia.
Qed.

Lemma ceilDiv_bounds a b :
  0 < a -> 0 < b ->
  let k := (a + b - 1) / b in
  (k - 1) * b < a <= k * b /\ 0 < k <= a.
Proof.
  intros Ha Hb. cbn zeta.
  pose proof (Z.div_mod (a + b - 1) b ltac:(lia)) as Hdm.
  pose proof (Z.mod_pos_bound (a + b - 1) b Hb) as Hmb.
  set (k := (a + b - 1) / b) in *.
  assert (H1 : (k - 1) * b < a) by nia.
  assert (H2 : a <= k * b) by nia.
  split; [done|]. split; nia.
Qed.

(** [float64(a) / float64(b)], rounded up: the integer ceiling. *)
Lemma ceil_div_of_int arch (a b : positive) :
  Z.pos a < 2 ^ 53 -> Z.pos b < 2 ^ 53 ->
  to_uint64 arch (ceil (div (of_int (Z.pos a)) (of_int (Z.pos b)))) =
    (Z.pos a + Z.pos b - 1) / Z.pos b.
Proof.
  intros Ha Hb.
  destruct (of_int_pos a Ha) as (ma & ea & -> & Hda & Hea & Hma).
  destruct (of_int_pos b Hb) as (mb & eb & -> & Hdb & Heb & Hmb).
  destruct (SFdiv_53 ma mb ea eb Hda Hdb Hea Heb)
    as (m & e & t & m1 & -> & Ht & Hrest).
  cbn zeta in Hrest. destruct Hrest as (Hqt & Hround & Hfin).
  destruct (ceilDiv_bounds (Z.pos a) (Z.pos b)) as [Hk Hk0]; [lia | lia |].
  cbn zeta in Hk, Hk0.
  set (k := (Z.pos a + Z.pos b - 1) / Z.pos b) in *.
  set (E := ea - eb - 53 + t) in *.
  set (P := 2 ^ (- E)).
  set (S := 2 ^ t * 2 ^ (- eb)).
  assert (HE : E <= 0) by (unfold E; lia).
  assert (HP : 0 < P) by (apply Z.pow_pos_nonneg; lia).
  assert (HS : 0 < S).
  { unfold S. apply Z.mul_pos_pos; apply Z.pow_pos_nonneg; lia. }
  assert (HN : Z.pos ma * 2 ^ 53 = Z.pos a * P * S).
  { assert (Hpow : 2 ^ (- ea) * 2 ^ 53 = P * S).
    { unfold P, S, E. rewrite <- !Z.pow_add_r by lia. f_equal. lia. }
    rewrite Hma, <- Z.mul_assoc, Hpow. lia. }
  assert (HGD : 2 ^ t * Z.pos mb = Z.pos b * S).
  { rewrite Hmb. unfold S. lia. }
  rewrite HN, HGD in Hqt, Hround.
  set (qt := Z.pos a * P * S / (Z.pos b * S)) in *.
  assert (Hdm : qt * Z.pos b <= Z.pos a * P < (qt + 1) * Z.pos b).
  { pose proof (Z.div_mod (Z.pos a * P * S) (Z.pos b * S) ltac:(lia)) as Hdm.
    pose proof (Z.mod_pos_bound (Z.pos a * P * S) (Z.pos b * S) ltac:(lia)) as Hmod.
    fold qt in Hdm. split.
    - apply Z.mul_le_mono_pos_r with S; [done|]. lia.
    - apply Z.mul_lt_mono_pos_r with S; [done|]. lia. }
  assert (Hbetween : (k - 1) * P < m1 <= k * P).
  { apply (rounded_quotient_between (Z.pos a) (Z.pos b) P qt m1 k); try lia.
    destruct Hround as [[H1 H2] | [H1 H2]]; [left | right]; (split; [done|]).
    - replace (Z.pos a * P * S - qt * (Z.pos b * S))
        with ((Z.pos a * P - qt * Z.pos b) * S) in H2 by lia.
      replace (2 * ((Z.pos a * P - qt * Z.pos b) * S))
        with (2 * (Z.pos a * P - qt * Z.pos b) * S) in H2 by lia.
      by apply Z.mul_le_mono_pos_r in H2.
    - replace (Z.pos a * P * S - qt * (Z.pos b * S))
        with ((Z.pos a * P - qt * Z.pos b) * S) in H2 by lia.
      nia. }
  destruct Hfin as [[-> Hm] | (-> & Hm & Htop)].
  - apply ceil_to_uint64; [done | lia |]. fold P. lia.
  - destruct (Z.eq_dec E 0) as [HE0 | HE0].
    + (* the rounded mantissa would be 2^53 at exponent 0 *)
      exfalso. unfold P in Hbetween. rewrite HE0 in Hbetween.
      change (2 ^ (- 0)) with 1 in Hbetween.
      lia.
    + assert (HP2 : P = 2 * 2 ^ (- (E + 1))).
      { unfold P. replace (- E) with (1 + - (E + 1)) by lia.
        rewrite Z.pow_add_r by lia. reflexivity. }
      apply ceil_to_uint64; [lia | lia |].
      rewrite HP2 in Hbetween. lia.
Qed.

End Binary64.

(** ** The snapshot target and the finality gate *)

Section SnapshotTarget.
Import Float64.

(** A whole number of seconds has no nanosecond part to add. *)
Lemma Duration_Seconds_whole a :
  0 <= a < 2 ^ 53 -> Duration_Seconds (a * Second) = of_int a.
Proof.
  intros Ha. unfold Duration_Seconds.
  assert (HS : Second <> 0) by (unfold Second; lia).
  rewrite Z.quot_mul, Z.rem_mul by done.
  assert (Hz : div (of_int 0) (of_int (10 ^ 9)) = S754_zero false)
    by (vm_compute; reflexivity).
  rewrite Hz. destruct a as [|a|a]; [reflexivity | | lia].
  destruct (of_int_pos a) as (m & e & -> & _); [lia|]. reflexivity.
Qed.

Lemma ceilSlot_exact env span sps :
  0 <= span < 2 ^ 53 -> 0 < sps < 2 ^ 53 ->
  ceilSlot env (span * Second) sps = ceilDiv span sps.
Proof.
  intros Hspan Hsps. unfold ceilSlot, ceilDiv.
  rewrite Duration_Seconds_whole by done.
  destruct sps as [|b|b]; try lia.
  destruct span as [|a|a]; try lia.
  - destruct (of_int_pos b) as (m & e & -> & _); [lia|].
    rewrite Z.div_small by lia. reflexivity.
  - apply ceil_div_of_int; lia.
Qed.

Lemma ceilDiv_scale a b S :
  0 <= a -> 0 < b -> 0 < S -> ceilDiv (a * S) (b * S) = ceilDiv a b.
Proof.
  intros Ha Hb HS. unfold ceilDiv.
  destruct (Z.eq_dec a 0) as [-> | Hne].
  - rewrite !Z.div_small; [done | lia | nia].
  - destruct (ceilDiv_bounds a b) as [[Hk1 Hk2] Hk3]; [lia | lia |].
    cbn zeta in Hk1, Hk2, Hk3. set (k := (a + b - 1) / b) in *.
    symmetry. apply Z.div_unique with (a * S + b * S - 1 - b * S * k); nia.
Qed.

(** For an end time of whole seconds at or after genesis the code derives
    the target the specification words. *)
Lemma snapshotTarget_exact env cfg endSec :
  0 <= GenesisTime cfg < 2 ^ 63 -> GenesisTime cfg <= endSec ->
  (endSec - GenesisTime cfg) * Second <= maxInt64 ->
  0 < SecondsPerSlot cfg < 2 ^ 53 -> 0 < SlotsPerEpoch cfg < 2 ^ 63 ->
  snapshotTarget env cfg (Unix endSec) = Some (targetOf cfg (Unix endSec)).
Proof.
  intros Hg Hend Hfit Hsps Hspe.
  unfold snapshotTarget, targetOf, targetSlotOf.
  rewrite wrap_i64_small by lia.
  set (span := endSec - GenesisTime cfg) in *.
  assert (Hspan : 0 <= span < 2 ^ 34).
  { unfold Second, maxInt64 in Hfit. lia. }
  assert (Hdiff : Unix endSec - Unix (GenesisTime cfg) = span * Second)
    by (unfold Unix, span; lia).
  rewrite Sub_exact by (rewrite Hdiff; unfold minInt64, maxInt64, Second in *; lia).
  rewrite Hdiff, ceilSlot_exact by lia.
  rewrite ceilDiv_scale by (unfold Second; lia).
  set (T := ceilDiv span (SecondsPerSlot cfg)).
  assert (HT : 0 <= T <= span).
  { unfold T, ceilDiv. destruct (Z.eq_dec span 0) as [-> | Hne].
    - rewrite Z.div_small; lia.
    - destruct (ceilDiv_bounds span (SecondsPerSlot cfg)) as [_ Hk]; [lia | lia |].
      cbn zeta in Hk. lia. }
  unfold div_u64. destruct (Z.eqb_spec (SlotsPerEpoch cfg) 0) as [|_]; [lia|].
  pose proof (Z.div_mod T (SlotsPerEpoch cfg) ltac:(lia)) as Hdm.
  pose proof (Z.mod_pos_bound T (SlotsPerEpoch cfg) ltac:(lia)) as Hmod.
  set (E := T / SlotsPerEpoch cfg) in *.
  assert (HE : 0 <= E) by (apply Z.div_pos; lia).
  assert (HEs : 0 <= E * SlotsPerEpoch cfg <= T) by nia.
  assert (HEle : E <= T) by nia.
  unfold add_u64, mul_u64, sub_u64.
  rewrite (wrap_u64_small (E * SlotsPerEpoch cfg)) by lia.
  rewrite (wrap_u64_small (SlotsPerEpoch cfg - 1)) by lia.
  rewrite (wrap_u64_small (E + 1)) by lia.
  rewrite wrap_u64_small by lia.
  do 3 f_equal. lia.
Qed.

(** The rounded slot is the last one of the epoch that holds the target. *)
Lemma targetOf_last_slot cfg endTime :
  0 < SlotsPerEpoch cfg ->
  let targetEpoch := fst (fst (targetOf cfg endTime)) in
  let lastSlot := snd (fst (targetOf cfg endTime)) in
  targetSlotOf cfg endTime <= lastSlot /\
  lastSlot / SlotsPerEpoch cfg = targetEpoch /\
  (lastSlot + 1) / SlotsPerEpoch cfg = targetEpoch + 1.
Proof.
  intros Hspe. cbn zeta. unfold targetOf. cbn [fst snd].
  set (T := targetSlotOf cfg endTime). set (n := SlotsPerEpoch cfg) in *.
  pose proof (Z.div_mod T n ltac:(lia)) as Hdm.
  pose proof (Z.mod_pos_bound T n Hspe) as Hmod.
  set (E := T / n) in *.
  split; [nia|]. split.
  - symmetry. apply Z.div_unique with (n - 1); lia.
  - symmetry. apply Z.div_unique with 0; lia.
Qed.

(** Line 503 computes the slot in [float64].  For a span of whole seconds
    the result is the integer ceiling of the quotient, whatever the
    architecture does with out-of-range conversions: the least [k] with
    [span <= k * secondsPerSlot]. *)
Theorem ceilSlot_whole_seconds env span sps :
  0 <= span < 2 ^ 53 -> 0 < sps < 2 ^ 53 ->
  ceilSlot env (span * Second) sps = ceilDiv span sps /\
  (ceilDiv span sps - 1) * sps < span <= ceilDiv span sps * sps.
Proof.
  intros Hspan Hsps. split; [by apply ceilSlot_exact|].
  unfold ceilDiv. destruct (Z.eq_dec span 0) as [-> | Hne].
  - rewrite Z.div_small; lia.
  - destruct (ceilDiv_bounds span sps) as [Hk _]; [lia | lia |]. exact Hk.
Qed.

Lemma ceilSlot_whole_seconds_witness :
  ceilSlot (Scenario.envOf (Scenario.knobs true 2250 0 false true)) (1205 * Second) 12 = 101.
Proof.
  exact (proj1 (ceilSlot_whole_seconds _ 1205 12 ltac:(lia) ltac:(lia))).
Defined.

End SnapshotTarget.

(** C3, amended.  For an end time of whole seconds at or after genesis
    (with the span inside the [Duration] range, a slot time below 2^53 s
    and a positive epoch length), [getSnapshotConsensusBlock] derives
    [targetSlot = ceil((endTime - genesisTime) / secondsPerSlot)], rounds it
    up to the last slot of the epoch [targetEpoch] that holds it, and
    requires epoch [targetEpoch + 1] to be finalized.  When the finalized
    epoch is below that, the selection returns the non-nil
    "not yet finalized" error, [run]'s continuation hands the same error to
    its caller, and nothing has happened: no file is created, no task is
    started, no event is recorded.  When it is not below, the walk over the
    slots starts at that last slot. *)
Theorem getSnapshotConsensusBlock_finality_gate env cfg head endSec :
  GetEth2Config env = Got cfg -> GetBeaconHead env = Got head ->
  0 <= GenesisTime cfg < 2 ^ 63 -> GenesisTime cfg <= endSec ->
  (endSec - GenesisTime cfg) * Second <= maxInt64 ->
  0 < SecondsPerSlot cfg < 2 ^ 53 -> 0 < SlotsPerEpoch cfg < 2 ^ 63 ->
  let endTime := Unix endSec in
  let targetEpoch := fst (fst (targetOf cfg endTime)) in
  let lastSlot := snd (fst (targetOf cfg endTime)) in
  let requiredEpoch := snd (targetOf cfg endTime) in
  snapshotTarget env cfg endTime = Some (targetEpoch, lastSlot, requiredEpoch) /\
  targetSlotOf cfg endTime <= lastSlot /\
  lastSlot / SlotsPerEpoch cfg = targetEpoch /\
  requiredEpoch = targetEpoch + 1 /\
  (FinalizedEpoch head < requiredEpoch ->
   forall fuel s,
     let waiting :=
       ErrWaitFinalized endTime lastSlot targetEpoch requiredEpoch (FinalizedEpoch head) in
     getSnapshotConsensusBlock env fuel endTime s = (Err waiting, s) /\
     forall nodeAccount nodeTrusted startTime intervalsPassed,
       runInterval env fuel nodeAccount nodeTrusted startTime endTime intervalsPassed s
       = (Err waiting, s)) /\
  (requiredEpoch <= FinalizedEpoch head ->
   forall fuel s,
     getSnapshotConsensusBlock env fuel endTime s
     = slotWalk env fuel cfg (Unix (GenesisTime cfg)) requiredEpoch lastSlot s).
Proof.
  intros Hcfg Hhead Hg Hend Hfit Hsps Hspe. cbn zeta.
  pose proof (snapshotTarget_exact env cfg endSec Hg Hend Hfit Hsps Hspe) as Htarget.
  destruct (targetOf_last_slot cfg (Unix endSec)) as (Hle & Hlast & _); [lia|].
  cbn zeta in Hle, Hlast.
  assert (Hsel : forall fuel s,
    getSnapshotConsensusBlock env fuel (Unix endSec) s =
    (if FinalizedEpoch head <? snd (targetOf cfg (Unix endSec))
     then fail (ErrWaitFinalized (Unix endSec) (snd (fst (targetOf cfg (Unix endSec))))
                  (fst (fst (targetOf cfg (Unix endSec))))
                  (snd (targetOf cfg (Unix endSec))) (FinalizedEpoch head))
     else slotWalk env fuel cfg (Unix (GenesisTime cfg))
            (snd (targetOf cfg (Unix endSec)))
            (snd (fst (targetOf cfg (Unix endSec))))) s).
  { intros fuel s. unfold getSnapshotConsensusBlock.
    rewrite (bind_Ok _ _ s cfg s) by (apply wrapErr_Ok; unfold lift; by rewrite Hcfg).
    rewrite (bind_Ok _ _ s head s) by (apply wrapErr_Ok; unfold lift; by rewrite Hhead).
    rewrite Htarget.
    rewrite (bind_Ok _ _ s (targetOf cfg (Unix endSec)) s) by reflexivity.
    rewrite wrap_i64_small by lia. reflexivity. }
  split.
  { rewrite Htarget. by destruct (targetOf cfg (Unix endSec)) as [[? ?] ?]. }
  split; [exact Hle|]. split; [exact Hlast|]. split; [reflexivity|].
  split.
  - intros Hbelow fuel s. cbn zeta.
    assert (Hget : getSnapshotConsensusBlock env fuel (Unix endSec) s =
      (Err (ErrWaitFinalized (Unix endSec) (snd (fst (targetOf cfg (Unix endSec))))
              (fst (fst (targetOf cfg (Unix endSec))))
              (snd (targetOf cfg (Unix endSec))) (FinalizedEpoch head)), s)).
    { rewrite Hsel. destruct (Z.ltb_spec (FinalizedEpoch head)
                                (snd (targetOf cfg (Unix endSec)))); [reflexivity | lia]. }
    split; [exact Hget|].
    intros nodeAccount nodeTrusted startTime intervalsPassed.
    unfold runInterval. by apply bind_Err.
  - intros Hfinal fuel s. rewrite Hsel.
    destruct (Z.ltb_spec (FinalizedEpoch head) (snd (targetOf cfg (Unix endSec))));
      [lia | reflexivity].
Qed.

Lemma getSnapshotConsensusBlock_finality_gate_witness :
  let env := Scenario.envOf (Scenario.knobs true 2250 0 false true) in
  snapshotTarget env
    {| GenesisTime := 1000; SecondsPerSlot := 12; SlotsPerEpoch := 32;
       SecondsPerEpoch := 384 |} (Unix 2200) = Some (3, 127, 4) /\
  getSnapshotConsensusBlock env 10 (Unix 2200) Scenario.emptyState
  = (Err (ErrWaitFinalized (Unix 2200) 127 3 4 0), Scenario.emptyState).
Proof.
  pose proof (getSnapshotConsensusBlock_finality_gate
                (Scenario.envOf (Scenario.knobs true 2250 0 false true))
                {| GenesisTime := 1000; SecondsPerSlot := 12; SlotsPerEpoch := 32;
                   SecondsPerEpoch := 384 |}
                {| FinalizedEpoch := 0 |} 2200 eq_refl eq_refl
                ltac:(cbn; lia) ltac:(cbn; lia) ltac:(vm_compute; discriminate)
                ltac:(cbn; lia) ltac:(cbn; lia))
    as (H1 & _ & _ & _ & Hgate & _).
  split; [exact H1|].
  exact (proj1 (Hgate ltac:(vm_compute; reflexivity) 10%nat Scenario.emptyState)).
Defined.

(** C3 as stated fails on the code in two places.  The slot is computed in
    floating point, and an end time that is not a whole number of seconds
    can lose its nanoseconds there: 19199988 s and 1 ns after genesis, with
    slots of 12 s, the target slot is 1600000 and epoch 50001 has to be
    finalized, but the code computes slot 1599999, asks for epoch 50000
    only, and with epoch 50000 finalized it selects a block.  And the
    "not yet finalized" outcome is a Go error like any other: [run] returns
    it to its caller as its error. *)
Lemma getSnapshotConsensusBlock_finality_gate_counterexample :
  (let cfg := {| GenesisTime := 1000; SecondsPerSlot := 12; SlotsPerEpoch := 32;
                 SecondsPerEpoch := 384 |} in
   let endTime := Unix (1000 + 19199988) + 1 in
   let env := Scenario.envOf (Scenario.knobs true 2250 50000 false true) in
   GetEth2Config env = Got cfg /\
   GetBeaconHead env = Got {| FinalizedEpoch := 50000 |} /\
   targetSlotOf cfg endTime = 1600000 /\
   targetOf cfg endTime = (50000, 1600031, 50001) /\
   snapshotTarget env cfg endTime = Some (49999, 1599999, 50000) /\
   is_Ok (fst (getSnapshotConsensusBlock env 10 endTime Scenario.emptyState)) = true) /\
  (let r := run (Scenario.envOf (Scenario.knobs true 2250 0 false true)) 10
              Scenario.emptyState in
   fst r = Err (ErrWaitFinalized (Unix 2200) 127 3 4 0) /\
   is_Err (fst r) = true).
Proof. vm_compute. repeat split; reflexivity. Qed.

(** * More of the code *)

(** ** The state locker under interleaving *)

Section StateLocker.
Import Collectors.
Local Open Scope nat_scope.

Lemma lockerInv_start programs : lockerInv (concat programs) (start programs).
Proof.
  unfold lockerInv, start. cbn [locker threads NewStateLocker lock state totalEffectiveStake].
  split; [|split; [|split]].
  - intros j t Hj. apply list_lookup_fmap_Some in Hj as (p & -> & Hp). cbn. split; [done | done].
  - intros j t Hj. apply list_lookup_fmap_Some in Hj as (p & -> & Hp). cbn. split.
    + intros c Hc. apply in_concat. exists p. split; [|done].
      apply list_elem_of_In. by eapply list_elem_of_lookup_2.
    + intros c Hc. discriminate.
  - intros j t total Hj. apply list_lookup_fmap_Some in Hj as (p & -> & Hp). cbn. discriminate.
  - intros _. by left.
Qed.

Lemma lookup_move i t l w j u :
  threads (move i t l w) !! j = Some u ->
  (i = j /\ u = t /\ is_Some (threads w !! i)) \/ (i <> j /\ threads w !! j = Some u).
Proof.
  unfold move. cbn [threads]. intros H. destruct (decide (i = j)) as [-> | Hne].
  - left. assert (Hlt : j < length (threads w)).
    { apply lookup_lt_Some in H. by rewrite length_insert in H. }
    rewrite list_lookup_insert_eq in H by done. injection H as <-.
    split; [done|]. split; [done|]. by apply lookup_lt_is_Some.
  - right. by rewrite list_lookup_insert_ne in H.
Qed.

Lemma lockerInv_step calls i w w' :
  lockerInv calls w -> step i w = Some w' -> lockerInv calls w'.
Proof.
  intros (Hlock & Hcalls & Hmid & Hpair) Hstep. unfold step in Hstep.
  destruct (threads w !! i) as [t|] eqn:Hi; [|discriminate].
  assert (Hothers : forall j u, i <> j -> threads w !! j = Some u ->
                      lock (locker w) = Some i -> at_pc u = Idle).
  { intros j u Hne Hj Hheld. destruct (at_pc u) eqn:Hu; [done | | |];
      (assert (Hnot : at_pc u <> Idle) by (rewrite Hu; discriminate));
      apply (Hlock j u Hj) in Hnot; congruence. }
  destruct (at_pc t) as [|c|total|v] eqn:Hpc.
  - (* Lock *)
    destruct (todo t) as [|c rest] eqn:Htodo; [discriminate|].
    destruct (lock (locker w)) as [h|] eqn:Hfree; [discriminate|]. injection Hstep as <-.
    assert (Hidle : forall j u, threads w !! j = Some u -> at_pc u = Idle).
    { intros j u Hj. destruct (at_pc u) eqn:Hu; [done | | |];
        (assert (Hnot : at_pc u <> Idle) by (rewrite Hu; discriminate));
        apply (Hlock j u Hj) in Hnot; congruence. }
    split; [|split; [|split]]; cbn [locker lock state totalEffectiveStake].
    + intros j u Hj. apply lookup_move in Hj as [(-> & -> & _) | (Hne & Hj)]; cbn.
      * split; [done | discriminate].
      * rewrite (Hidle j u Hj). split; [done | congruence].
    + intros j u Hj. apply lookup_move in Hj as [(-> & -> & _) | (Hne & Hj)]; cbn.
      * destruct (Hcalls j t Hi) as [Htd _]. rewrite Htodo in Htd. split.
        -- intros c' Hc'. apply Htd. by right.
        -- intros c' [= <-]. apply Htd. by left.
      * apply (Hcalls j u Hj).
    + intros j u total Hj Hu. apply lookup_move in Hj as [(-> & -> & _) | (Hne & Hj)].
      * discriminate.
      * rewrite (Hidle j u Hj) in Hu. discriminate.
    + intros _. apply Hpair. intros j u total Hj. rewrite (Hidle j u Hj). discriminate.
  - (* the body *)
    assert (Hheld : lock (locker w) = Some i).
    { apply (Hlock i t Hi). rewrite Hpc. discriminate. }
    destruct c as [st total | |]; injection Hstep as <-.
    + (* l.state = state *)
      split; [|split; [|split]]; cbn [locker lock state totalEffectiveStake].
      * intros j u Hj. apply lookup_move in Hj as [(-> & -> & _) | (Hne & Hj)]; cbn.
        -- split; [done | discriminate].
        -- rewrite (Hothers j u Hne Hj Hheld). split; [done | congruence].
      * intros j u Hj. apply lookup_move in Hj as [(-> & -> & _) | (Hne & Hj)]; cbn.
        -- split; [apply (Hcalls j t Hi) | discriminate].
        -- apply (Hcalls j u Hj).
      * intros j u total' Hj Hu. apply lookup_move in Hj as [(-> & -> & _) | (Hne & Hj)].
        -- cbn in Hu. injection Hu as <-. by apply (Hcalls j t Hi).
        -- rewrite (Hothers j u Hne Hj Hheld) in Hu. discriminate.
      * intros Hnone. exfalso.
        apply (Hnone i {| at_pc := StateSet total; todo := todo t; got := got t |} total);
          [|reflexivity].
        unfold move. cbn [threads]. apply list_lookup_insert_eq. by eapply lookup_lt_Some.
    + (* return l.state *)
      split; [|split; [|split]].
      * intros j u Hj. apply lookup_move in Hj as [(-> & -> & _) | (Hne & Hj)]; cbn.
        -- split; [done | discriminate].
        -- by apply Hlock.
      * intros j u Hj. apply lookup_move in Hj as [(-> & -> & _) | (Hne & Hj)]; cbn.
        -- split; [apply (Hcalls j t Hi) | discriminate].
        -- apply (Hcalls j u Hj).
      * intros j u total' Hj Hu. apply lookup_move in Hj as [(-> & -> & _) | (Hne & Hj)].
        -- discriminate.
        -- by apply (Hmid j u).
      * intros Hnone. apply Hpair. intros j u total' Hj Hu.
        destruct (decide (i = j)) as [<- | Hne]; [congruence|].
        rewrite (Hothers j u Hne Hj Hheld) in Hu. discriminate.
    + (* return l.totalEffectiveStake *)
      split; [|split; [|split]].
      * intros j u Hj. apply lookup_move in Hj as [(-> & -> & _) | (Hne & Hj)]; cbn.
        -- split; [done | discriminate].
        -- by apply Hlock.
      * intros j u Hj. apply lookup_move in Hj as [(-> & -> & _) | (Hne & Hj)]; cbn.
        -- split; [apply (Hcalls j t Hi) | discriminate].
        -- apply (Hcalls j u Hj).
      * intros j u total' Hj Hu. apply lookup_move in Hj as [(-> & -> & _) | (Hne & Hj)].
        -- discriminate.
        -- by apply (Hmid j u).
      * intros Hnone. apply Hpair. intros j u total' Hj Hu.
        destruct (decide (i = j)) as [<- | Hne]; [congruence|].
        rewrite (Hothers j u Hne Hj Hheld) in Hu. discriminate.
  - (* l.totalEffectiveStake = totalEffectiveStake *)
    assert (Hheld : lock (locker w) = Some i).
    { apply (Hlock i t Hi). rewrite Hpc. discriminate. }
    injection Hstep as <-.
    split; [|split; [|split]]; cbn [locker lock state totalEffectiveStake].
    + intros j u Hj. apply lookup_move in Hj as [(-> & -> & _) | (Hne & Hj)]; cbn.
      * split; [done | discriminate].
      * rewrite (Hothers j u Hne Hj Hheld). split; [done | congruence].
    + intros j u Hj. apply lookup_move in Hj as [(-> & -> & _) | (Hne & Hj)]; cbn.
      * split; [apply (Hcalls j t Hi) | discriminate].
      * apply (Hcalls j u Hj).
    + intros j u total' Hj Hu. apply lookup_move in Hj as [(-> & -> & _) | (Hne & Hj)].
      * discriminate.
      * rewrite (Hothers j u Hne Hj Hheld) in Hu. discriminate.
    + intros _. right. cbn. by apply (Hmid i t).
  - (* the deferred Unlock *)
    assert (Hheld : lock (locker w) = Some i).
    { apply (Hlock i t Hi). rewrite Hpc. discriminate. }
    injection Hstep as <-.
    split; [|split; [|split]]; cbn [locker lock state totalEffectiveStake].
    + intros j u Hj. apply lookup_move in Hj as [(-> & -> & _) | (Hne & Hj)]; cbn.
      * split; [done | discriminate].
      * rewrite (Hothers j u Hne Hj Hheld). split; [done | discriminate].
    + intros j u Hj. apply lookup_move in Hj as [(-> & -> & _) | (Hne & Hj)]; cbn.
      * split; [apply (Hcalls j t Hi) | discriminate].
      * apply (Hcalls j u Hj).
    + intros j u total' Hj Hu. apply lookup_move in Hj as [(-> & -> & _) | (Hne & Hj)].
      * discriminate.
      * rewrite (Hothers j u Hne Hj Hheld) in Hu. discriminate.
    + intros _.
      assert (Hp : paired calls (locker w)).
      { apply Hpair. intros j u total' Hj Hu.
        destruct (decide (i = j)) as [<- | Hne]; [congruence|].
        rewrite (Hothers j u Hne Hj Hheld) in Hu. discriminate. }
      exact Hp.
Qed.

Lemma lockerInv_exec calls schedule :
  forall w w', lockerInv calls w -> exec schedule w = Some w' -> lockerInv calls w'.
Proof.
  induction schedule as [|i rest IH]; intros w w' Hinv Hexec; cbn in Hexec.
  - by injection Hexec as <-.
  - destruct (step i w) as [w1|] eqn:Hstep; [|discriminate].
    eapply IH; [|exact Hexec]. by eapply lockerInv_step.
Qed.

(** Whatever the goroutines call and however their statements interleave:
    at most one goroutine is inside a method of the locker, and the two
    fields are out of step only while a goroutine is between the two
    assignments of [UpdateState] (holding the lock); at every other moment
    they are both nil or the two arguments of one and the same
    [UpdateState]. *)
Theorem locker_fields_change_together programs w :
  reachable programs w ->
  (forall i j t u,
     threads w !! i = Some t -> threads w !! j = Some u ->
     at_pc t <> Idle -> at_pc u <> Idle -> i = j) /\
  (paired (concat programs) (locker w) \/
   exists j t total,
     threads w !! j = Some t /\ at_pc t = StateSet total /\ lock (locker w) = Some j).
Proof.
  intros [schedule Hexec].
  destruct (lockerInv_exec _ schedule _ _ (lockerInv_start programs) Hexec)
    as (Hlock & _ & _ & Hpair).
  split.
  - intros i j t u Hi Hj Ht Hu.
    apply (Hlock i t Hi) in Ht. apply (Hlock j u Hj) in Hu. congruence.
  - set (mid := fun t => match at_pc t with StateSet _ => true | _ => false end).
    destruct (existsb mid (threads w)) eqn:Hex.
    + right. apply existsb_exists in Hex as (t & Hin & Ht).
      apply list_elem_of_In, list_elem_of_lookup_1 in Hin as [j Hj].
      unfold mid in Ht. destruct (at_pc t) as [| |total|] eqn:Hpc; try discriminate.
      exists j, t, total. split; [done|]. split; [done|].
      apply (Hlock j t Hj). rewrite Hpc. discriminate.
    + left. apply Hpair. intros j t total Hj Ht.
      assert (existsb mid (threads w) = true); [|congruence].
      apply existsb_exists. exists t. split.
      * apply list_elem_of_In. by eapply list_elem_of_lookup_2.
      * unfold mid. by rewrite Ht.
Qed.

Lemma locker_fields_change_together_witness :
  let programs := [[UpdateState (Some 1%Z) (Some 2%Z)]; [GetState]] in
  let w := {| locker := {| state := Some 1%Z; totalEffectiveStake := None; lock := Some 0 |};
              threads := [{| at_pc := StateSet (Some 2%Z); todo := []; got := [] |};
                          {| at_pc := Idle; todo := [GetState]; got := [] |}] |} in
  reachable programs w /\
  (paired (concat programs) (locker w) \/
   exists j t total,
     threads w !! j = Some t /\ at_pc t = StateSet total /\ lock (locker w) = Some j).
Proof.
  cbn zeta. split; [by exists [0; 0] |].
  apply (locker_fields_change_together
           [[UpdateState (Some 1%Z) (Some 2%Z)]; [GetState]]). by exists [0; 0].
Defined.

(** The locker gives no snapshot across two calls: a goroutine that calls
    [GetState] and then [GetTotalEffectiveRPLStake] can get the state of one
    [UpdateState] and the stake of the next. *)
Theorem getters_are_separate_reads (st1 total1 st2 total2 : ptr) :
  exists schedule w reader,
    exec schedule (start [[UpdateState st1 total1; UpdateState st2 total2];
                          [GetState; GetTotalEffectiveRPLStake]]) = Some w /\
    Forall finished (threads w) /\
    threads w !! 1 = Some reader /\
    got reader = [st1; total2].
Proof.
  exists [0; 0; 0; 0; 1; 1; 1; 0; 0; 0; 0; 1; 1; 1].
  exists {| locker := {| state := st2; totalEffectiveStake := total2; lock := None |};
            threads := [{| at_pc := Idle; todo := []; got := [] |};
                        {| at_pc := Idle; todo := []; got := [st1; total2] |}] |}.
  exists {| at_pc := Idle; todo := []; got := [st1; total2] |}.
  split; [reflexivity|]. split; [|split; reflexivity].
  apply Forall_cons. split; [by split|]. apply Forall_cons. split; [by split|].
  by apply Forall_nil.
Qed.

Lemma fieldsAfter_app p : forall st total q,
  fieldsAfter st total (p ++ q) =
    fieldsAfter (fst (fieldsAfter st total p)) (snd (fieldsAfter st total p)) q.
Proof.
  induction p as [|c p IH]; intros st total q; [reflexivity|].
  destruct c; cbn; apply IH.
Qed.

Lemma replay_app p : forall st total q,
  replay st total (p ++ q) =
    replay st total p ++
    replay (fst (fieldsAfter st total p)) (snd (fieldsAfter st total p)) q.
Proof.
  induction p as [|c p IH]; intros st total q; [reflexivity|].
  destruct c; cbn; by rewrite ?IH.
Qed.

Lemma writerInv_start p readers :
  Forall (Forall (fun c => isUpdate c = false)) readers ->
  writerInv p (start (p :: readers)).
Proof.
  intros Hreaders. split.
  - exists {| at_pc := Idle; todo := p; got := [] |}, []. split; [reflexivity|]. cbn. done.
  - intros j t Hj Ht. destruct j as [|j]; [done|]. cbn in Ht.
    apply list_lookup_fmap_Some in Ht as (q & -> & Hq). cbn.
    split; [|split; [discriminate | discriminate]].
    intros c Hc. apply list_elem_of_lookup_2 in Hq.
    rewrite Forall_forall in Hreaders. specialize (Hreaders q Hq).
    rewrite Forall_forall in Hreaders. apply Hreaders. by apply list_elem_of_In.
Qed.

Lemma lookup_move_same i t l w :
  is_Some (threads w !! i) -> threads (move i t l w) !! i = Some t.
Proof.
  intros Hi. unfold move. cbn [threads]. apply list_lookup_insert_eq.
  by apply lookup_lt_is_Some.
Qed.

Lemma lookup_move_other i t l w j :
  i <> j -> threads (move i t l w) !! j = threads w !! j.
Proof. intros Hne. unfold move. cbn [threads]. by apply list_lookup_insert_ne. Qed.

Lemma writerInv_step p i w w' :
  writerInv p w -> step i w = Some w' -> writerInv p w'.
Proof.
  intros [(t & done & H0 & Hw) Hreaders] Hstep. unfold step in Hstep.
  destruct (decide (i = 0)) as [-> | Hne].
  - (* the writer moves *)
    rewrite H0 in Hstep. cbn zeta in Hw.
    assert (Hrest : forall l' t' j u, j <> 0 -> threads (move 0 t' l' w) !! j = Some u ->
              (forall c, In c (todo u) -> isUpdate c = false) /\
              (forall c, at_pc u = Locked c -> isUpdate c = false) /\
              (forall total, at_pc u <> StateSet total)).
    { intros l' t' j u Hj Hu. rewrite lookup_move_other in Hu by done.
      by apply (Hreaders j u). }
    destruct (at_pc t) as [|c|total|v] eqn:Hpc.
    + destruct (todo t) as [|c rest] eqn:Htodo; [discriminate|].
      destruct (lock (locker w)); [discriminate|]. injection Hstep as <-.
      split; [|apply Hrest].
      eexists _, done. split; [by apply lookup_move_same|]. exact Hw.
    + destruct Hw as (Hp & Hfields & Hgot).
      destruct c as [st total | |]; injection Hstep as <-; (split; [|apply Hrest]).
      * eexists _, done. split; [by apply lookup_move_same|]. cbn.
        split; [exact Hp|]. split; [|exact Hgot]. by rewrite <- Hfields.
      * eexists _, done. split; [by apply lookup_move_same|]. cbn.
        exists GetState. split; [by rewrite <- app_assoc|]. split; [done|].
        split; [exact Hfields|]. rewrite replay_app, <- Hfields, Hgot. reflexivity.
      * eexists _, done. split; [by apply lookup_move_same|]. cbn.
        exists GetTotalEffectiveRPLStake. split; [by rewrite <- app_assoc|]. split; [done|].
        split; [exact Hfields|]. rewrite replay_app, <- Hfields, Hgot. reflexivity.
    + destruct Hw as (Hp & Htotal & Hgot). injection Hstep as <-.
      split; [|apply Hrest].
      eexists _, (done ++ [UpdateState (state (locker w)) total]).
      split; [by apply lookup_move_same|]. cbn.
      split; [by rewrite <- app_assoc|]. split.
      * rewrite fieldsAfter_app. reflexivity.
      * rewrite replay_app, Hgot. cbn. by rewrite app_nil_r.
    + injection Hstep as <-. split; [|apply Hrest].
      destruct v as [v|].
      * destruct Hw as (c & Hp & Hc & Hfields & Hgot).
        eexists _, (done ++ [c]). split; [by apply lookup_move_same|]. cbn.
        split; [exact Hp|]. split; [|exact Hgot].
        rewrite fieldsAfter_app, <- Hfields. destruct c; [discriminate | done | done].
      * destruct Hw as (Hp & Hfields & Hgot).
        eexists _, done. split; [by apply lookup_move_same|]. cbn.
        split; [exact Hp|]. split; [exact Hfields|]. by rewrite app_nil_r.
  - (* a reader moves *)
    destruct (threads w !! i) as [u|] eqn:Hi; [|discriminate].
    destruct (Hreaders i u Hne Hi) as (Htodo & Hlocked & Hmid).
    assert (Hkeep : forall l' u',
              state l' = state (locker w) ->
              totalEffectiveStake l' = totalEffectiveStake (locker w) ->
              (forall c, In c (todo u') -> isUpdate c = false) ->
              (forall c, at_pc u' = Locked c -> isUpdate c = false) ->
              (forall total, at_pc u' <> StateSet total) ->
              writerInv p (move i u' l' w)).
    { intros l' u' Hs Ht H1 H2 H3. split.
      - exists t, done. split; [by rewrite lookup_move_other|].
        cbn [locker move]. rewrite Hs, Ht. exact Hw.
      - intros j v Hj Hv. destruct (decide (i = j)) as [<- | Hij].
        + rewrite lookup_move_same in Hv by (by rewrite Hi). injection Hv as <-. done.
        + rewrite lookup_move_other in Hv by done. by apply (Hreaders j v). }
    destruct (at_pc u) as [|c|total|v] eqn:Hpc.
    + destruct (todo u) as [|c rest] eqn:Hrest; [discriminate|].
      destruct (lock (locker w)); [discriminate|]. injection Hstep as <-.
      apply Hkeep; cbn; try done.
      * intros c' Hc'. apply Htodo. by right.
      * intros c' [= <-]. apply Htodo. by left.
    + specialize (Hlocked c eq_refl).
      destruct c as [st total | |]; [discriminate | |]; injection Hstep as <-;
        apply Hkeep; cbn; done.
    + by destruct (Hmid total).
    + injection Hstep as <-. apply Hkeep; cbn; done.
Qed.

Lemma writerInv_exec p schedule :
  forall w w', writerInv p w -> exec schedule w = Some w' -> writerInv p w'.
Proof.
  induction schedule as [|i rest IH]; intros w w' Hinv Hexec; cbn in Hexec.
  - by injection Hexec as <-.
  - destruct (step i w) as [w1|] eqn:Hstep; [|discriminate].
    eapply IH; [|exact Hexec]. by eapply writerInv_step.
Qed.

(** Reading back what was written: when one goroutine alone calls
    [UpdateState], every getter it calls returns the argument of its last
    [UpdateState] before that call (nil before the first), however many
    other goroutines call the getters meanwhile and however the statements
    interleave. *)
Theorem single_writer_reads_its_writes p readers w t :
  Forall (Forall (fun c => isUpdate c = false)) readers ->
  reachable (p :: readers) w ->
  threads w !! 0 = Some t -> finished t ->
  got t = replay None None p /\
  (state (locker w), totalEffectiveStake (locker w)) = fieldsAfter None None p.
Proof.
  intros Hreaders [schedule Hexec] Ht [Hidle Hnil].
  destruct (writerInv_exec p schedule _ _ (writerInv_start p readers Hreaders) Hexec)
    as [(t' & done & H0 & Hw) _].
  rewrite Ht in H0. injection H0 as <-. cbn zeta in Hw.
  rewrite Hidle, Hnil, app_nil_r in Hw. destruct Hw as (-> & Hfields & Hgot). done.
Qed.

Lemma single_writer_reads_its_writes_witness :
  let p := [GetState; UpdateState (Some 1%Z) (Some 2%Z); GetState;
            UpdateState (Some 3%Z) None; GetTotalEffectiveRPLStake; GetState] in
  let w := {| locker := {| state := Some 3%Z; totalEffectiveStake := None; lock := None |};
              threads := [{| at_pc := Idle; todo := [];
                             got := [None; Some 1%Z; None; Some 3%Z] |};
                          {| at_pc := Idle; todo := []; got := [Some 1%Z] |}] |} in
  reachable [p; [GetState]] w /\
  [None; Some 1%Z; None; Some 3%Z] = replay None None p.
Proof.
  cbn zeta.
  assert (Hreach : reachable
            [[GetState; UpdateState (Some 1%Z) (Some 2%Z); GetState;
              UpdateState (Some 3%Z) None; GetTotalEffectiveRPLStake; GetState]; [GetState]]
            {| locker := {| state := Some 3%Z; totalEffectiveStake := None; lock := None |};
               threads := [{| at_pc := Idle; todo := [];
                              got := [None; Some 1%Z; None; Some 3%Z] |};
                           {| at_pc := Idle; todo := []; got := [Some 1%Z] |}] |}).
  { by exists [0; 0; 0; 0; 0; 0; 0; 1; 1; 1; 0; 0; 0; 0; 0; 0; 0; 0; 0; 0; 0; 0; 0]. }
  split; [exact Hreach|].
  exact (proj1 (single_writer_reads_its_writes _ [[GetState]] _ _
                  ltac:(repeat constructor) Hreach eq_refl ltac:(by split))).
Defined.

End StateLocker.

(** ** The constructor *)

(** [newSubmitRewardsTree] asks for the five services in the order config,
    wallet, execution client, beacon client, Rocket Pool.  It returns the
    error of the first one that fails, having asked for no service after
    it; when all five answer, the task holds exactly the five handles and
    the two loggers it was given, its mutex is unlocked and [isRunning] is
    false. *)
Theorem newSubmitRewardsTree_first_failure (svc : Constructor.Services) (c logger errorLogger : Z) :
  let r := Constructor.newSubmitRewardsTree svc c logger errorLogger in
  match snd r with
  | Got t =>
      Forall (fun a => snd a = None) (Constructor.inOrder svc) /\
      fst r = map fst (Constructor.inOrder svc) /\
      Constructor.isRunning t = false /\ Constructor.lock t = false /\
      Constructor.GetConfig svc = Got (Constructor.cfg t) /\
      Constructor.GetWallet svc = Got (Constructor.w t) /\
      Constructor.GetEthClient svc = Got (Constructor.ec t) /\
      Constructor.GetBeaconClient svc = Got (Constructor.bc t) /\
      Constructor.GetRocketPool svc = Got (Constructor.rp t) /\
      Constructor.c t = c /\ Constructor.log t = logger /\ Constructor.errLog t = errorLogger
  | Failed e =>
      exists pre s post,
        Constructor.inOrder svc = pre ++ (s, Some e) :: post /\
        Forall (fun a => snd a = None) pre /\
        fst r = map fst pre ++ [s]
  end.
Proof.
  cbn zeta. unfold Constructor.newSubmitRewardsTree, Constructor.inOrder.
  destruct (Constructor.GetConfig svc) as [cfg | e1].
  2: { exists [], Constructor.SvcConfig. eexists. cbn. split; [reflexivity|]. by split. }
  destruct (Constructor.GetWallet svc) as [w | e2].
  2: { exists [(Constructor.SvcConfig, None)], Constructor.SvcWallet. eexists. cbn.
       split; [reflexivity|]. split; [|reflexivity]. by repeat constructor. }
  destruct (Constructor.GetEthClient svc) as [ec | e3].
  2: { exists [(Constructor.SvcConfig, None); (Constructor.SvcWallet, None)],
         Constructor.SvcEthClient. eexists. cbn.
       split; [reflexivity|]. split; [|reflexivity]. by repeat constructor. }
  destruct (Constructor.GetBeaconClient svc) as [bc | e4].
  2: { exists [(Constructor.SvcConfig, None); (Constructor.SvcWallet, None);
               (Constructor.SvcEthClient, None)], Constructor.SvcBeaconClient. eexists. cbn.
       split; [reflexivity|]. split; [|reflexivity]. by repeat constructor. }
  destruct (Constructor.GetRocketPool svc) as [rp | e5].
  2: { exists [(Constructor.SvcConfig, None); (Constructor.SvcWallet, None);
               (Constructor.SvcEthClient, None); (Constructor.SvcBeaconClient, None)],
         Constructor.SvcRocketPool, []. cbn.
       split; [reflexivity|]. split; [|reflexivity]. by repeat constructor. }
  cbn. split; [by repeat constructor|]. by repeat split.
Qed.

Import Looking.

(** ** The walk over the slots, at its edges *)

(** With the configuration and the head at hand and the required epoch
    finalized, the selection is the walk from the last slot of the target
    epoch. *)
Lemma getSnapshotConsensusBlock_walk env cfg head fuel endTime s epoch slot required :
  GetEth2Config env = Got cfg -> GetBeaconHead env = Got head ->
  snapshotTarget env cfg endTime = Some (epoch, slot, required) ->
  required <= FinalizedEpoch head ->
  getSnapshotConsensusBlock env fuel endTime s =
    slotWalk env fuel cfg (Unix (wrap_i64 (GenesisTime cfg))) required slot s.
Proof.
  intros Hcfg Hhead Htarget Hfinal. unfold getSnapshotConsensusBlock.
  rewrite (bind_Ok _ _ s cfg s) by (apply wrapErr_Ok; unfold lift; by rewrite Hcfg).
  rewrite (bind_Ok _ _ s head s) by (apply wrapErr_Ok; unfold lift; by rewrite Hhead).
  rewrite Htarget. rewrite (bind_Ok _ _ s (epoch, slot, required) s) by reflexivity.
  cbn [fst snd]. destruct (Z.ltb_spec (FinalizedEpoch head) required); [lia | reflexivity].
Qed.

Lemma slotWalk_missing_step env cfg genesisTime requiredEpoch fuel slot s :
  missing env slot ->
  slotWalk env (S fuel) cfg genesisTime requiredEpoch slot s =
    slotWalk env fuel cfg genesisTime requiredEpoch (sub_u64 slot 1)
      (after s [EvGetBeaconBlock slot; EvLog (LogSlotMissing slot)]).
Proof.
  intros [block Hmiss]. cbn [slotWalk].
  rewrite (bind_Ok _ _ s (block, false) (after s [EvGetBeaconBlock slot])).
  2: { apply wrapErr_Ok. rewrite (bind_Ok _ _ _ _ _ (emit_eq _ _)). unfold lift.
       by rewrite Hmiss. }
  cbn [snd negb]. rewrite (bind_Ok _ _ _ _ _ (emit_eq _ _)). by rewrite after_after.
Qed.

Lemma slotWalk_found_step env cfg genesisTime requiredEpoch fuel slot s block :
  GetBeaconBlock env slot = Got (block, true) ->
  slotWalk env (S fuel) cfg genesisTime requiredEpoch slot s =
    (Ok (slot, ExecutionBlockNumber block,
         Add genesisTime
           (mul_i64 (wrap_i64 (mul_u64 requiredEpoch (SecondsPerEpoch cfg))) Second)),
     after s [EvGetBeaconBlock slot]).
Proof.
  intros Hblock. cbn [slotWalk].
  rewrite (bind_Ok _ _ s (block, true) (after s [EvGetBeaconBlock slot])).
  2: { apply wrapErr_Ok. rewrite (bind_Ok _ _ _ _ _ (emit_eq _ _)). unfold lift.
       by rewrite Hblock. }
  reflexivity.
Qed.

Lemma slotWalk_error_step env cfg genesisTime requiredEpoch fuel slot s e :
  GetBeaconBlock env slot = Failed e ->
  slotWalk env (S fuel) cfg genesisTime requiredEpoch slot s =
    (Err (ErrWrap "Error getting Beacon block" e), after s [EvGetBeaconBlock slot]).
Proof.
  intros Hblock. cbn [slotWalk]. apply bind_Err, wrapErr_Err.
  rewrite (bind_Ok _ _ _ _ _ (emit_eq _ _)). unfold lift. by rewrite Hblock.
Qed.

(** [k] slots without a block, one after the other: the walk asks for each
    and goes on below them. *)
Lemma slotWalk_missing_prefix env cfg genesisTime requiredEpoch (k : nat) :
  forall fuel slot s,
    (forall i : nat, (i < k)%nat -> missing env (wrap_u64 (slot - Z.of_nat i))) ->
    0 <= slot < 2 ^ 64 ->
    slotWalk env (k + fuel) cfg genesisTime requiredEpoch slot s =
      slotWalk env fuel cfg genesisTime requiredEpoch (wrap_u64 (slot - Z.of_nat k))
        (after s (walkEvents slot k)).
Proof.
  induction k as [|k IH]; intros fuel slot s Hmiss Hslot.
  - cbn [Nat.add walkEvents]. rewrite after_nil, Z.sub_0_r, wrap_u64_small by done. reflexivity.
  - cbn [Nat.add]. rewrite slotWalk_missing_step.
    2: { specialize (Hmiss 0%nat ltac:(lia)).
         by rewrite Z.sub_0_r, wrap_u64_small in Hmiss. }
    assert (Hwrap : forall j, wrap_u64 (sub_u64 slot 1 - j) = wrap_u64 (slot - 1 - j)).
    { intros j. unfold sub_u64, wrap_u64. by rewrite Zminus_mod_idemp_l. }
    rewrite IH.
    + rewrite after_after, Hwrap. cbn [walkEvents app].
      do 2 f_equal. lia.
    + intros i Hi. rewrite Hwrap.
      replace (slot - 1 - Z.of_nat i) with (slot - Z.of_nat (S i)) by lia.
      apply Hmiss. lia.
    + unfold sub_u64, wrap_u64. apply Z.mod_pos_bound. lia.
Qed.

Lemma snapshotTarget_slot_range env cfg endTime epoch slot required :
  snapshotTarget env cfg endTime = Some (epoch, slot, required) -> 0 <= slot < 2 ^ 64.
Proof.
  unfold snapshotTarget. destruct (div_u64 _ _); [|discriminate].
  intros [= _ <- _]. unfold add_u64, wrap_u64. apply Z.mod_pos_bound. lia.
Qed.

(** The walk has no lower end.  When no slot from the target slot down to
    slot 0 holds a block, the next slot asked for is 2^64 - 1 (the [uint64]
    slot number wraps), and a block found there is returned as the
    snapshot. *)
Theorem getSnapshotConsensusBlock_wraps_below_slot_zero
    (env : Env) (fuel : nat) (endTime : Time) (s : State)
    (cfg : Eth2Config) (head : BeaconHead) (epoch slot required : Z) (block : BeaconBlock) :
  GetEth2Config env = Got cfg ->
  GetBeaconHead env = Got head ->
  snapshotTarget env cfg endTime = Some (epoch, slot, required) ->
  required <= FinalizedEpoch head ->
  (Z.to_nat slot + 1 < fuel)%nat ->
  (forall i, 0 <= i <= slot -> missing env i) ->
  GetBeaconBlock env (2 ^ 64 - 1) = Got (block, true) ->
  exists blockTime,
    getSnapshotConsensusBlock env fuel endTime s =
      (Ok (2 ^ 64 - 1, ExecutionBlockNumber block, blockTime),
       after s (walkEvents slot (Z.to_nat slot + 1) ++ [EvGetBeaconBlock (2 ^ 64 - 1)])).
Proof.
  intros Hcfg Hhead Htarget Hfinal Hfuel Hmiss Hblock.
  pose proof (snapshotTarget_slot_range _ _ _ _ _ _ Htarget) as Hslot.
  rewrite (getSnapshotConsensusBlock_walk env cfg head fuel endTime s epoch slot required)
    by done.
  replace fuel with ((Z.to_nat slot + 1) + S (fuel - (Z.to_nat slot + 1) - 1))%nat by lia.
  rewrite slotWalk_missing_prefix; [| |done].
  2: { intros i Hi. rewrite wrap_u64_small by lia. apply Hmiss. lia. }
  replace (wrap_u64 (slot - Z.of_nat (Z.to_nat slot + 1))) with (2 ^ 64 - 1).
  2: { replace (slot - Z.of_nat (Z.to_nat slot + 1)) with (-1) by lia. reflexivity. }
  eexists. rewrite (slotWalk_found_step _ _ _ _ _ _ _ block) by done.
  by rewrite after_after.
Qed.

Lemma getSnapshotConsensusBlock_wraps_below_slot_zero_witness :
  let env := Scenario.envOf (Cases.withBlocks (Scenario.knobs true 2250 1 false true)
                               (Cases.onlyAt (2 ^ 64 - 1) 9)) in
  exists blockTime,
    getSnapshotConsensusBlock env 40 (Unix 1000) Scenario.emptyState =
      (Ok (2 ^ 64 - 1, 9, blockTime),
       after Scenario.emptyState (walkEvents 31 32 ++ [EvGetBeaconBlock (2 ^ 64 - 1)])).
Proof.
  cbn zeta.
  refine (getSnapshotConsensusBlock_wraps_below_slot_zero
            (Scenario.envOf (Cases.withBlocks (Scenario.knobs true 2250 1 false true)
                               (Cases.onlyAt (2 ^ 64 - 1) 9)))
            40 (Unix 1000) Scenario.emptyState
            {| GenesisTime := 1000; SecondsPerSlot := 12; SlotsPerEpoch := 32;
               SecondsPerEpoch := 384 |}
            {| FinalizedEpoch := 1 |} 0 31 1 {| ExecutionBlockNumber := 9 |}
            eq_refl eq_refl ltac:(vm_compute; reflexivity) ltac:(cbn; lia)
            ltac:(vm_compute; lia) _ eq_refl).
  intros i Hi. exists {| ExecutionBlockNumber := 0 |}.
  cbn. unfold Cases.onlyAt. destruct (Z.eqb_spec i (2 ^ 64 - 1)); [lia | reflexivity].
Defined.

(** The walk has no end of its own either.  While the beacon client
    reports every slot as missing, the loop goes on: whatever the number of
    rounds it is given, it has asked for that many slots, one below the
    other, and is still running. *)
Theorem getSnapshotConsensusBlock_loops_while_slots_missing
    (env : Env) (endTime : Time) (cfg : Eth2Config) (head : BeaconHead)
    (epoch slot required : Z) :
  GetEth2Config env = Got cfg ->
  GetBeaconHead env = Got head ->
  snapshotTarget env cfg endTime = Some (epoch, slot, required) ->
  required <= FinalizedEpoch head ->
  (forall slot, missing env slot) ->
  forall fuel s,
    getSnapshotConsensusBlock env fuel endTime s = (NoFuel, after s (walkEvents slot fuel)).
Proof.
  intros Hcfg Hhead Htarget Hfinal Hmiss fuel s.
  pose proof (snapshotTarget_slot_range _ _ _ _ _ _ Htarget) as Hslot.
  rewrite (getSnapshotConsensusBlock_walk env cfg head fuel endTime s epoch slot required)
    by done.
  replace fuel with (fuel + 0)%nat at 1 by lia.
  rewrite slotWalk_missing_prefix by done. reflexivity.
Qed.

Lemma getSnapshotConsensusBlock_loops_while_slots_missing_witness :
  let env := Scenario.envOf (Cases.withBlocks (Scenario.knobs true 2250 4 false true)
                               Cases.noBlocks) in
  getSnapshotConsensusBlock env 3 (Unix 2200) Scenario.emptyState =
    (NoFuel,
     after Scenario.emptyState
       [EvGetBeaconBlock 127; EvLog (LogSlotMissing 127);
        EvGetBeaconBlock 126; EvLog (LogSlotMissing 126);
        EvGetBeaconBlock 125; EvLog (LogSlotMissing 125)]).
Proof.
  cbn zeta.
  refine (getSnapshotConsensusBlock_loops_while_slots_missing
            (Scenario.envOf (Cases.withBlocks (Scenario.knobs true 2250 4 false true)
                               Cases.noBlocks))
            (Unix 2200)
            {| GenesisTime := 1000; SecondsPerSlot := 12; SlotsPerEpoch := 32;
               SecondsPerEpoch := 384 |}
            {| FinalizedEpoch := 4 |} 3 127 4
            eq_refl eq_refl ltac:(vm_compute; reflexivity) ltac:(cbn; lia) _
            3%nat Scenario.emptyState).
  intros slot. by exists {| ExecutionBlockNumber := 0 |}.
Defined.

(** An error of the beacon client ends the walk where it happens: after
    [k] slots without a block the selection returns that error, wrapped,
    and asks for no further slot. *)
Theorem getSnapshotConsensusBlock_stops_at_beacon_error
    (env : Env) (fuel : nat) (endTime : Time) (s : State)
    (cfg : Eth2Config) (head : BeaconHead) (epoch slot required : Z) (k : nat) (e : error) :
  GetEth2Config env = Got cfg ->
  GetBeaconHead env = Got head ->
  snapshotTarget env cfg endTime = Some (epoch, slot, required) ->
  required <= FinalizedEpoch head ->
  (k < fuel)%nat ->
  Z.of_nat k <= slot ->
  (forall i, 0 <= i < Z.of_nat k -> missing env (slot - i)) ->
  GetBeaconBlock env (slot - Z.of_nat k) = Failed e ->
  getSnapshotConsensusBlock env fuel endTime s =
    (Err (ErrWrap "Error getting Beacon block" e),
     after s (walkEvents slot k ++ [EvGetBeaconBlock (slot - Z.of_nat k)])).
Proof.
  intros Hcfg Hhead Htarget Hfinal Hfuel Hk Hmiss Hfail.
  pose proof (snapshotTarget_slot_range _ _ _ _ _ _ Htarget) as Hslot.
  rewrite (getSnapshotConsensusBlock_walk env cfg head fuel endTime s epoch slot required)
    by done.
  replace fuel with (k + S (fuel - k - 1))%nat by lia.
  rewrite slotWalk_missing_prefix; [| |done].
  2: { intros i Hi. rewrite wrap_u64_small by lia. apply Hmiss. lia. }
  rewrite wrap_u64_small by lia.
  rewrite (slotWalk_error_step _ _ _ _ _ _ _ e) by done. by rewrite after_after.
Qed.

Lemma getSnapshotConsensusBlock_stops_at_beacon_error_witness :
  let env := Scenario.envOf (Cases.withBlocks (Scenario.knobs true 2250 4 false true)
                               (Cases.failingAt 126 (ErrExternal "beacon"))) in
  getSnapshotConsensusBlock env 10 (Unix 2200) Scenario.emptyState =
    (Err (ErrWrap "Error getting Beacon block" (ErrExternal "beacon")),
     after Scenario.emptyState
       [EvGetBeaconBlock 127; EvLog (LogSlotMissing 127); EvGetBeaconBlock 126]).
Proof.
  cbn zeta.
  refine (getSnapshotConsensusBlock_stops_at_beacon_error
            (Scenario.envOf (Cases.withBlocks (Scenario.knobs true 2250 4 false true)
                               (Cases.failingAt 126 (ErrExternal "beacon"))))
            10 (Unix 2200) Scenario.emptyState
            {| GenesisTime := 1000; SecondsPerSlot := 12; SlotsPerEpoch := 32;
               SecondsPerEpoch := 384 |}
            {| FinalizedEpoch := 4 |} 3 127 4 1 (ErrExternal "beacon")
            eq_refl eq_refl ltac:(vm_compute; reflexivity) ltac:(cbn; lia)
            ltac:(lia) ltac:(lia) _ eq_refl).
  intros i Hi. assert (i = 0) as -> by lia. by exists {| ExecutionBlockNumber := 0 |}.
Defined.

(** ** Before the walk *)

(** A beacon configuration with no slots in an epoch makes the selection
    panic (integer division by zero, line 504) once the configuration and
    the head are at hand: no error is returned. *)
Theorem getSnapshotConsensusBlock_panics_without_slots_per_epoch
    (env : Env) (fuel : nat) (endTime : Time) (s : State)
    (cfg : Eth2Config) (head : BeaconHead) :
  GetEth2Config env = Got cfg ->
  GetBeaconHead env = Got head ->
  SlotsPerEpoch cfg = 0 ->
  getSnapshotConsensusBlock env fuel endTime s = (Panic, s).
Proof.
  intros Hcfg Hhead Hzero. unfold getSnapshotConsensusBlock.
  rewrite (bind_Ok _ _ s cfg s) by (apply wrapErr_Ok; unfold lift; by rewrite Hcfg).
  rewrite (bind_Ok _ _ s head s) by (apply wrapErr_Ok; unfold lift; by rewrite Hhead).
  unfold snapshotTarget, div_u64. rewrite Hzero. reflexivity.
Qed.

Lemma getSnapshotConsensusBlock_panics_without_slots_per_epoch_witness :
  let cfg := {| GenesisTime := 1000; SecondsPerSlot := 12; SlotsPerEpoch := 0;
                SecondsPerEpoch := 384 |} in
  let env := Cases.withEth2Config (Scenario.envOf (Scenario.knobs true 2250 4 false true))
               (Got cfg) in
  getSnapshotConsensusBlock env 10 (Unix 2200) Scenario.emptyState
  = (Panic, Scenario.emptyState).
Proof.
  cbn zeta.
  exact (getSnapshotConsensusBlock_panics_without_slots_per_epoch
           (Cases.withEth2Config (Scenario.envOf (Scenario.knobs true 2250 4 false true))
              (Got {| GenesisTime := 1000; SecondsPerSlot := 12; SlotsPerEpoch := 0;
                      SecondsPerEpoch := 384 |}))
           10 (Unix 2200) Scenario.emptyState
           {| GenesisTime := 1000; SecondsPerSlot := 12; SlotsPerEpoch := 0;
              SecondsPerEpoch := 384 |}
           {| FinalizedEpoch := 4 |} eq_refl eq_refl eq_refl).
Defined.

Lemma newEvents_same s : newEvents s s = [].
Proof. unfold newEvents. apply drop_all. Qed.

Lemma slotWalk_first_event env cfg genesisTime requiredEpoch fuel slot s :
  exists rest,
    newEvents s (snd (slotWalk env (S fuel) cfg genesisTime requiredEpoch slot s)) =
      EvGetBeaconBlock slot :: rest.
Proof.
  destruct (GetBeaconBlock env slot) as [[block [|]] | e] eqn:Hblock.
  - rewrite (slotWalk_found_step _ _ _ _ _ _ _ block) by done.
    exists []. cbn [snd]. apply newEvents_after.
  - rewrite slotWalk_missing_step by (by exists block).
    destruct (emitsOnly_slotWalk (fun _ => true) env fuel cfg genesisTime requiredEpoch
                (sub_u64 slot 1) ltac:(done) ltac:(done)
                (after s [EvGetBeaconBlock slot; EvLog (LogSlotMissing slot)]))
      as (l & Htrace & _).
    exists (EvLog (LogSlotMissing slot) :: l). apply newEvents_eq.
    rewrite Htrace. cbn [after trace]. by rewrite <- app_assoc.
  - rewrite (slotWalk_error_step _ _ _ _ _ _ _ e) by done.
    exists []. cbn [snd]. apply newEvents_after.
Qed.

(** The beacon client is asked for a block only when the configuration and
    the head were obtained and the required epoch is finalized; the first
    slot asked for is then the last slot of the target epoch. *)
Theorem no_beacon_block_asked_before_finality
    (env : Env) (fuel : nat) (endTime : Time) (s : State) :
  existsb isGetBeaconBlock
    (newEvents s (snd (getSnapshotConsensusBlock env fuel endTime s))) = true ->
  exists cfg beaconHead epoch slot required,
    GetEth2Config env = Got cfg /\
    GetBeaconHead env = Got beaconHead /\
    snapshotTarget env cfg endTime = Some (epoch, slot, required) /\
    required <= FinalizedEpoch beaconHead /\
    hd_error (newEvents s (snd (getSnapshotConsensusBlock env fuel endTime s))) =
      Some (EvGetBeaconBlock slot).
Proof.
  intros Hasked.
  destruct (GetEth2Config env) as [cfg | e] eqn:Hcfg.
  2: { exfalso. unfold getSnapshotConsensusBlock in Hasked.
       rewrite (bind_Err _ _ s (ErrWrap "Error getting Beacon config" e) s) in Hasked
         by (apply wrapErr_Err; unfold lift; by rewrite Hcfg).
       cbn [snd] in Hasked. by rewrite newEvents_same in Hasked. }
  destruct (GetBeaconHead env) as [beaconHead | e] eqn:Hhead.
  2: { exfalso. unfold getSnapshotConsensusBlock in Hasked.
       rewrite (bind_Ok _ _ s cfg s) in Hasked
         by (apply wrapErr_Ok; unfold lift; by rewrite Hcfg).
       rewrite (bind_Err _ _ s (ErrWrap "Error getting Beacon head" e) s) in Hasked
         by (apply wrapErr_Err; unfold lift; by rewrite Hhead).
       cbn [snd] in Hasked. by rewrite newEvents_same in Hasked. }
  destruct (snapshotTarget env cfg endTime) as [[[epoch slot] required]|] eqn:Htarget.
  2: { exfalso. unfold getSnapshotConsensusBlock in Hasked.
       rewrite (bind_Ok _ _ s cfg s) in Hasked
         by (apply wrapErr_Ok; unfold lift; by rewrite Hcfg).
       rewrite (bind_Ok _ _ s beaconHead s) in Hasked
         by (apply wrapErr_Ok; unfold lift; by rewrite Hhead).
       rewrite Htarget in Hasked. cbn in Hasked. by rewrite newEvents_same in Hasked. }
  destruct (Z.ltb_spec (FinalizedEpoch beaconHead) required) as [Hlt | Hge].
  { exfalso. unfold getSnapshotConsensusBlock in Hasked.
    rewrite (bind_Ok _ _ s cfg s) in Hasked
      by (apply wrapErr_Ok; unfold lift; by rewrite Hcfg).
    rewrite (bind_Ok _ _ s beaconHead s) in Hasked
      by (apply wrapErr_Ok; unfold lift; by rewrite Hhead).
    rewrite Htarget in Hasked.
    rewrite (bind_Ok _ _ s (epoch, slot, required) s) in Hasked by reflexivity.
    cbn [fst snd] in Hasked.
    destruct (Z.ltb_spec (FinalizedEpoch beaconHead) required); [|lia].
    cbn in Hasked. by rewrite newEvents_same in Hasked. }
  exists cfg, beaconHead, epoch, slot, required. repeat (split; [done|]).
  rewrite (getSnapshotConsensusBlock_walk env cfg beaconHead fuel endTime s epoch slot required)
    in * by done.
  destruct fuel as [|fuel].
  - exfalso. cbn in Hasked. by rewrite newEvents_same in Hasked.
  - destruct (slotWalk_first_event env cfg (Unix (wrap_i64 (GenesisTime cfg))) required fuel
                slot s) as [rest ->]. reflexivity.
Qed.

Lemma no_beacon_block_asked_before_finality_witness :
  let env := Scenario.envOf (Scenario.knobs true 2250 4 false true) in
  GetBeaconHead env = Got {| FinalizedEpoch := 4 |} /\
  hd_error (newEvents Scenario.emptyState
              (snd (getSnapshotConsensusBlock env 10 (Unix 2200) Scenario.emptyState))) =
    Some (EvGetBeaconBlock 127).
Proof.
  cbn zeta.
  destruct (no_beacon_block_asked_before_finality
              (Scenario.envOf (Scenario.knobs true 2250 4 false true)) 10 (Unix 2200)
              Scenario.emptyState ltac:(vm_compute; reflexivity))
    as (cfg & beaconHead & epoch & slot & required & Hcfg & Hhead & Htarget & Hfinal & Hfirst).
  split; [reflexivity|].
  injection Hcfg as <-. vm_compute in Htarget. injection Htarget as <- <- <-.
  exact Hfirst.
Defined.

(** ** The first lines of [run] *)

(** Once both clients are synced and the node account and its Oracle DAO
    membership have been read (lines 96-113), a node that is not a member
    and is not set to generate trees leaves [run] at line 115: nil is
    returned before the first log line.  Whatever the collaborators of the
    later lines would answer, none of them is asked: no line is logged, no
    header or beacon block is requested, the lock is not taken, no file is
    read or written, no task is started, and [isRunning] and the files are
    as they were. *)
Theorem run_idle_without_membership_or_generate_mode
    (env : Env) (fuel : nat) (s : State) (nodeAccount : Address) :
  WaitEthClientSynced env = None ->
  WaitBeaconClientSynced env = None ->
  GetNodeAccount env = Got nodeAccount ->
  GetMemberExists env nodeAccount = Got false ->
  RewardsTreeMode env <> RewardsMode_Generate ->
  run env fuel s = (Ok None, s).
Proof.
  intros Heth Hbeacon Hacct Hmember Hmode. unfold run.
  rewrite Heth, Hbeacon. cbn [liftE]. unfold bind at 1, ret at 1.
  unfold bind at 1, ret at 1. unfold bind at 1, lift at 1. rewrite Hacct.
  unfold bind at 1, lift at 1. rewrite Hmember.
  destruct (RewardsTreeMode env); [reflexivity | reflexivity | done].
Qed.

Lemma run_idle_without_membership_or_generate_mode_witness :
  let env := Cases.withMode (Scenario.envOf (Scenario.knobs false 2250 5 false true))
               RewardsMode_Download in
  run env 10 Scenario.storedState = (Ok None, Scenario.storedState).
Proof.
  cbn zeta.
  exact (run_idle_without_membership_or_generate_mode
           (Cases.withMode (Scenario.envOf (Scenario.knobs false 2250 5 false true))
              RewardsMode_Download)
           10 Scenario.storedState [Byte.x01] eq_refl eq_refl eq_refl eq_refl
           ltac:(discriminate)).
Defined.

(** Up to the interval clock: what [run] has done when it divides. *)
Lemma run_to_clock env fuel s nodeAccount nodeTrusted startTime intervalTime header :
  WaitEthClientSynced env = None ->
  WaitBeaconClientSynced env = None ->
  GetNodeAccount env = Got nodeAccount ->
  GetMemberExists env nodeAccount = Got nodeTrusted ->
  nodeTrusted = true \/ RewardsTreeMode env = RewardsMode_Generate ->
  GetClaimIntervalTimeStart env = Got startTime ->
  GetClaimIntervalTime env = Got intervalTime ->
  HeaderByNumber env None = Got header ->
  run env fuel s =
    bind (orPanic (intervalClock startTime intervalTime (Unix (wrap_i64 (HeaderTime header)))))
      (fun clock =>
         if fst clock =? 0 then ret None
         else runInterval env fuel nodeAccount nodeTrusted startTime (snd clock) (fst clock))
      (after s [EvLog LogChecking; EvHeaderByNumber None]).
Proof.
  intros Heth Hbeacon Hacct Hmember Hmode Hstart Hinterval Hheader.
  unfold run. rewrite Heth, Hbeacon. cbn [liftE]. unfold bind at 1, ret at 1.
  unfold bind at 1, ret at 1. unfold bind at 1, lift at 1. rewrite Hacct.
  unfold bind at 1, lift at 1. rewrite Hmember.
  assert (Hgate : negb nodeTrusted &&
                  negb (RewardsMode_eqb (RewardsTreeMode env) RewardsMode_Generate) = false).
  { destruct Hmode as [-> | ->]; [done | by rewrite andb_false_r]. }
  rewrite Hgate.
  rewrite (bind_Ok _ _ _ _ _ (emit_eq _ _)).
  unfold bind at 1, wrapErr at 1, lift at 1. rewrite Hstart.
  unfold bind at 1, wrapErr at 1, lift at 1. rewrite Hinterval.
  unfold bind at 1, wrapErr at 1. rewrite (bind_Ok _ _ _ _ _ (emit_eq _ _)).
  unfold lift at 1. rewrite Hheader. rewrite after_after. cbn [app]. reflexivity.
Qed.

(** An interval time of zero in the registry makes [run] panic at line 138
    (integer division by zero): it returns neither nil nor an error. *)
Theorem run_panics_on_zero_interval_time
    (env : Env) (fuel : nat) (s : State) (nodeAccount : Address) (nodeTrusted : bool)
    (startTime : Time) (header : Header) :
  WaitEthClientSynced env = None ->
  WaitBeaconClientSynced env = None ->
  GetNodeAccount env = Got nodeAccount ->
  GetMemberExists env nodeAccount = Got nodeTrusted ->
  nodeTrusted = true \/ RewardsTreeMode env = RewardsMode_Generate ->
  GetClaimIntervalTimeStart env = Got startTime ->
  GetClaimIntervalTime env = Got 0 ->
  HeaderByNumber env None = Got header ->
  run env fuel s = (Panic, after s [EvLog LogChecking; EvHeaderByNumber None]).
Proof.
  intros Heth Hbeacon Hacct Hmember Hmode Hstart Hinterval Hheader.
  rewrite (run_to_clock env fuel s nodeAccount nodeTrusted startTime 0 header) by done.
  reflexivity.
Qed.

Lemma run_panics_on_zero_interval_time_witness :
  let env := Scenario.envOf (Cases.withInterval (Scenario.knobs true 2250 5 false true) 0) in
  run env 10 Scenario.emptyState =
    (Panic, after Scenario.emptyState [EvLog LogChecking; EvHeaderByNumber None]).
Proof.
  cbn zeta.
  exact (run_panics_on_zero_interval_time
           (Scenario.envOf (Cases.withInterval (Scenario.knobs true 2250 5 false true) 0))
           10 Scenario.emptyState [Byte.x01] true (Unix 2000)
           {| Number := 900; HeaderTime := 2250 |}
           eq_refl eq_refl eq_refl eq_refl (or_introl eq_refl) eq_refl eq_refl eq_refl).
Defined.

(** The end time that [run] selects the snapshot for is the last interval
    boundary at or before the latest block: it is not before the start
    time, not after the latest block, and less than one interval before
    it. *)
Theorem intervalClock_end_is_last_boundary
    (startTime : Time) (intervalTime : Duration) (latestBlockTime : Time) :
  0 < intervalTime ->
  startTime <= latestBlockTime ->
  latestBlockTime - startTime <= maxInt64 ->
  exists intervalsPassed endTime,
    intervalClock startTime intervalTime latestBlockTime = Some (intervalsPassed, endTime) /\
    0 <= intervalsPassed /\
    endTime = startTime + intervalTime * intervalsPassed /\
    startTime <= endTime <= latestBlockTime /\
    latestBlockTime < endTime + intervalTime.
Proof.
  intros Hpos Hle Hfit.
  rewrite intervalClock_exact by (unfold minInt64, maxInt64 in *; lia).
  set (span := latestBlockTime - startTime) in *.
  assert (Hq : Z.quot span intervalTime = span / intervalTime)
    by (apply Z.quot_div_nonneg; lia).
  rewrite Hq.
  pose proof (Z.div_mod span intervalTime ltac:(lia)) as Hdm.
  pose proof (Z.mod_pos_bound span intervalTime Hpos) as Hmod.
  assert (Hn : 0 <= span / intervalTime) by (apply Z.div_pos; lia).
  eexists _, _. split; [reflexivity|]. split; [exact Hn|]. split; [reflexivity|]. nia.
Qed.

Lemma intervalClock_end_is_last_boundary_witness :
  exists intervalsPassed endTime,
    intervalClock (Unix 2000) (100 * Second) (Unix 2250) = Some (intervalsPassed, endTime) /\
    0 <= intervalsPassed /\
    endTime = Unix 2000 + 100 * Second * intervalsPassed /\
    Unix 2000 <= endTime <= Unix 2250 /\
    Unix 2250 < endTime + 100 * Second.
Proof.
  exact (intervalClock_end_is_last_boundary (Unix 2000) (100 * Second) (Unix 2250)
           ltac:(vm_compute; reflexivity) ltac:(vm_compute; discriminate)
           ltac:(vm_compute; discriminate)).
Defined.

(** ** The guard, seen from [run] *)

(** With a generation under way ([isRunning] is true at the check of line
    172), the invocation logs that and returns nil: between the [Lock] and
    the [Unlock] it only reads the flag, and it does not look at the disk,
    start a task, upload or submit. *)
Theorem runInterval_returns_while_generation_runs
    (env : Env) (fuel : nat) (nodeAccount : Address) (nodeTrusted : bool)
    (startTime endTime : Time) (intervalsPassed : Duration) (s s1 s2 : State)
    (slot elBlockNumber : Z) (referenceTime : Time) (header : Header) (currentIndexBig : Z) :
  getSnapshotConsensusBlock env fuel endTime s = (Ok (slot, elBlockNumber, referenceTime), s1) ->
  resolveElHeader env elBlockNumber referenceTime s1 = (Ok header, s2) ->
  GetRewardIndex env = Got currentIndexBig ->
  isRunning s2 = true ->
  runInterval env fuel nodeAccount nodeTrusted startTime endTime intervalsPassed s =
    (Ok None, after s2 [EvLock; EvReadRunning true; EvLog LogAlreadyRunning; EvUnlock]).
Proof.
  intros Hsnap Hresolve Hindex Hrunning. unfold runInterval.
  rewrite (bind_Ok _ _ _ _ _ Hsnap). cbn [fst snd].
  rewrite (bind_Ok _ _ _ _ _ Hresolve).
  rewrite (bind_Ok _ _ s2 currentIndexBig s2) by (unfold lift; by rewrite Hindex).
  unfold lock, unlock. rewrite (bind_Ok _ _ _ _ _ (emit_eq _ _)).
  rewrite (bind_Ok _ _ _ true (after s2 [EvLock; EvReadRunning true])).
  2: { unfold readRunning, after. cbn [isRunning fs trace]. rewrite Hrunning.
       by rewrite <- app_assoc. }
  rewrite (bind_Ok _ _ _ _ _ (emit_eq _ _)), (bind_Ok _ _ _ _ _ (emit_eq _ _)).
  unfold ret. by rewrite !after_after.
Qed.

Lemma runInterval_returns_while_generation_runs_witness :
  let env := Scenario.envOf (Scenario.knobs true 2250 5 false true) in
  let busy := {| isRunning := true; fs := ∅; trace := [] |} in
  runInterval env 10 [Byte.x01] true (Unix 2000) (Unix 2200) 2 busy =
    (Ok None,
     after busy [EvGetBeaconBlock 127; EvHeaderByNumber (Some 5127);
                 EvLock; EvReadRunning true; EvLog LogAlreadyRunning; EvUnlock]).
Proof.
  cbn zeta.
  rewrite (runInterval_returns_while_generation_runs
             (Scenario.envOf (Scenario.knobs true 2250 5 false true)) 10 [Byte.x01] true
             (Unix 2000) (Unix 2200) 2
             {| isRunning := true; fs := ∅; trace := [] |}
             {| isRunning := true; fs := ∅; trace := [EvGetBeaconBlock 127] |}
             {| isRunning := true; fs := ∅;
                trace := [EvGetBeaconBlock 127; EvHeaderByNumber (Some 5127)] |}
             127 5127 (Unix 2536) {| Number := 5127; HeaderTime := 0 |} 7
             ltac:(vm_compute; reflexivity) ltac:(vm_compute; reflexivity) eq_refl eq_refl).
  reflexivity.
Defined.

Import Keeping.

(** ** What every invocation keeps *)

Section Always.
Variable R : State -> State -> Prop.
Hypothesis HR : stable R.

Lemma always_ret {A} (a : A) : always R (ret a).
Proof. intros s. apply HR. Qed.

Lemma always_fail {A} e : always R (@fail A e).
Proof. intros s. apply HR. Qed.

Lemma always_panic {A} : always R (@panic A).
Proof. intros s. apply HR. Qed.

Lemma always_nofuel {A} : always R (@nofuel A).
Proof. intros s. apply HR. Qed.

Lemma always_lift {A} (r : answer A) : always R (lift r).
Proof. intros s. destruct r; apply HR. Qed.

Lemma always_liftR {A} (r : result A) : always R (liftR r).
Proof. intros s. apply HR. Qed.

Lemma always_liftE r : always R (liftE r).
Proof. destruct r; [apply always_fail | apply always_ret]. Qed.

Lemma always_orPanic {A} (r : option A) : always R (orPanic r).
Proof. destruct r; [apply always_ret | apply always_panic]. Qed.

Lemma always_emit e : always R (emit e).
Proof. intros s. rewrite emit_eq. apply HR. Qed.

Lemma always_setFile p d : always R (setFile p d).
Proof. intros s. apply HR. Qed.

Lemma always_getFs : always R getFs.
Proof. intros s. apply HR. Qed.

Lemma always_readRunning : always R readRunning.
Proof.
  intros s. destruct HR as (_ & _ & Hafter & _).
  apply (Hafter s [EvReadRunning (isRunning s)]).
Qed.

Lemma always_setRunning b : flagFree R -> always R (setRunning b).
Proof. intros Hfree s. apply Hfree. Qed.

Lemma always_bind {A B} (m : M A) (k : A -> M B) :
  always R m -> (forall a, always R (k a)) -> always R (bind m k).
Proof.
  intros Hm Hk s. unfold bind. specialize (Hm s).
  destruct (m s) as [[a | e | | ] s1]; cbn [snd] in *; try exact Hm.
  destruct HR as (_ & Htrans & _). eapply Htrans; [exact Hm | apply Hk].
Qed.

Lemma always_wrapErr {A} msg (m : M A) : always R m -> always R (wrapErr msg m).
Proof.
  intros Hm s. unfold wrapErr. specialize (Hm s).
  by destruct (m s) as [[a | e | | ] s1].
Qed.

Lemma always_orHandle {A} msg (m : M A) (k : A -> M unit) :
  always R m -> (forall a, always R (k a)) -> (forall e, always R (handleError e)) ->
  always R (orHandle msg m k).
Proof.
  intros Hm Hk Hh s. unfold orHandle. specialize (Hm s).
  destruct HR as (_ & Htrans & _).
  destruct (m s) as [[a | e | | ] s1]; cbn [snd] in *; try exact Hm.
  - eapply Htrans; [exact Hm | apply Hk].
  - eapply Htrans; [exact Hm | apply Hh].
Qed.

Lemma always_slotWalk env fuel cfg genesisTime requiredEpoch targetSlot :
  always R (slotWalk env fuel cfg genesisTime requiredEpoch targetSlot).
Proof.
  revert targetSlot. induction fuel as [|fuel IH]; intros targetSlot; simpl.
  - apply always_nofuel.
  - apply always_bind.
    + apply always_wrapErr, always_bind; [apply always_emit|].
      intros _. apply always_lift.
    + intros [b ex]. destruct ex; simpl.
      * apply always_ret.
      * apply always_bind; [apply always_emit | intros _; apply IH].
Qed.

Lemma always_logInvalidNetworkNodes nodes : always R (logInvalidNetworkNodes nodes).
Proof.
  induction nodes as [|an nodes IH]; simpl.
  - apply always_ret.
  - apply always_bind; [apply always_emit | by intros _].
Qed.

Lemma always_handleError e : flagFree R -> always R (handleError e).
Proof.
  intros Hfree. unfold handleError, lock, unlock.
  repeat (apply always_bind; [|intros ?]);
    first [apply always_emit | by apply always_setRunning].
Qed.

End Always.

Ltac always_step HR :=
  first
    [ apply (always_ret _ HR) | apply (always_fail _ HR) | apply (always_panic _ HR)
    | apply (always_nofuel _ HR) | apply (always_lift _ HR) | apply (always_liftR _ HR)
    | apply (always_liftE _ HR) | apply (always_orPanic _ HR)
    | apply (always_setFile _ HR) | apply (always_getFs _ HR)
    | apply (always_emit _ HR) | apply (always_readRunning _ HR)
    | apply (always_setRunning _ HR); assumption
    | apply (always_slotWalk _ HR) | apply (always_logInvalidNetworkNodes _ HR)
    | apply (always_handleError _ HR); assumption
    | apply always_wrapErr
    | apply (always_bind _ HR); [ | intros ? ]
    | apply (always_orHandle _ HR); [ | intros ? | intros ? ]
    | match goal with
      | |- always _ (if ?b then _ else _) => destruct b
      | |- always _ (match ?x with _ => _ end) => destruct x
      | |- always _ ((if ?b then _ else _) _) => destruct b
      end ].

Ltac always_all HR :=
  unfold run, runInterval, resumeOrGenerate, resumeStored, resolveElHeader, generationTask,
    getSnapshotConsensusBlock, hasSubmittedTree, uploadFileToWeb3Storage,
    submitRewardsSnapshot, os_Stat, ReadFile, WriteFile, lock, unlock;
  repeat always_step HR.

Lemma stable_sameFlag : stable sameFlag.
Proof.
  unfold sameFlag. split; [done|]. split; [|split; done].
  intros s1 s2 s3 H1 H2. by rewrite H2.
Qed.

Lemma stable_filesKept : stable filesKept.
Proof.
  unfold filesKept. split; [done|]. split; [|split].
  - intros s1 s2 s3 H1 H2 path Hp. by apply H2, H1.
  - done.
  - intros s path data p Hp. cbn [fs].
    destruct (decide (path = p)) as [-> | Hne].
    + rewrite lookup_insert_eq. by eexists.
    + by rewrite lookup_insert_ne.
Qed.

Lemma flagFree_filesKept : flagFree filesKept.
Proof. intros s b e path Hp. exact Hp. Qed.

(** [run] never changes [isRunning]: whatever the collaborators answer,
    the flag is after [run] what it was before.  Only the background task
    and [handleError] write it. *)
Theorem run_leaves_isRunning_alone (env : Env) (fuel : nat) (s : State) :
  isRunning (snd (run env fuel s)) = isRunning s.
Proof.
  revert s. change (always sameFlag (run env fuel)).
  pose proof stable_sameFlag as HR. always_all HR.
Qed.

(** Nothing is ever deleted: a file that is on the disk before [run], or
    before the background task, is on the disk after it, whatever the
    collaborators answer. *)
Theorem files_are_never_removed (env : Env) (fuel : nat) (tk : Task) (s : State)
    (path : string) :
  is_Some (fs s !! path) ->
  is_Some (fs (snd (run env fuel s)) !! path) /\
  is_Some (fs (snd (generationTask env tk s)) !! path).
Proof.
  intros Hfile. pose proof stable_filesKept as HR. pose proof flagFree_filesKept as HF.
  split.
  - revert s path Hfile. change (always filesKept (run env fuel)). always_all HR.
  - revert s path Hfile. change (always filesKept (generationTask env tk)). always_all HR.
Qed.

Lemma files_are_never_removed_witness :
  let env := Scenario.envOf (Scenario.knobs true 2250 5 false true) in
  is_Some (fs (snd (run env 10 Scenario.storedState)) !! "rewards.json"%string) /\
  is_Some (fs (snd (generationTask env (Scenario.sampleTask true) Scenario.storedState))
             !! "rewards.json"%string).
Proof.
  cbn zeta.
  apply (files_are_never_removed (Scenario.envOf (Scenario.knobs true 2250 5 false true))
           10 (Scenario.sampleTask true) Scenario.storedState "rewards.json").
  vm_compute. eauto.
Defined.

Import Keeping.

(** ** The lock around [isRunning], on every path *)

Lemma guarded_app l1 : forall held l2,
  guarded held (l1 ++ l2) = guarded held l1 && guarded (heldAfter held l1) l2.
Proof.
  induction l1 as [|e l1 IH]; intros held l2; [reflexivity|].
  destruct e; cbn [app guarded heldAfter]; rewrite ?IH; try reflexivity;
    by rewrite andb_assoc.
Qed.

Lemma heldAfter_app l1 : forall held l2,
  heldAfter held (l1 ++ l2) = heldAfter (heldAfter held l1) l2.
Proof.
  induction l1 as [|e l1 IH]; intros held l2; [reflexivity|].
  destruct e; cbn [app heldAfter]; by rewrite ?IH.
Qed.

Lemma guardless l held :
  forallb (fun e => negb (isGuardEvent e)) l = true ->
  guarded held l = true /\ heldAfter held l = held.
Proof.
  induction l as [|e l IH]; [done|]. cbn [forallb]. intros [He Hl]%andb_prop.
  destruct e; try discriminate; cbn [guarded heldAfter]; by apply IH.
Qed.

(** A computation without events of the guard, started with the lock free. *)
Lemma guards_free {A} (m : M A) :
  emitsOnly (fun e => negb (isGuardEvent e)) m -> guards false false m.
Proof.
  intros Hm s. destruct (Hm s) as (l & Htrace & Hl).
  destruct (guardless l false Hl) as [Hg Hh].
  exists l. split; [done|]. split; [done|]. rewrite Hh. by destruct (is_Ok _).
Qed.

Lemma guards_ret {A} held (a : A) : guards held held (ret a).
Proof. intros s. exists []. cbn. by rewrite app_nil_r. Qed.

Lemma guards_unlock : guards true false unlock.
Proof. intros s. by exists [EvUnlock]. Qed.

Lemma guards_bind {A B} held held1 held2 (m : M A) (k : A -> M B) :
  guards held held1 m -> (forall a, guards held1 held2 (k a)) ->
  guards held held2 (bind m k).
Proof.
  intros Hm Hk s. unfold bind. destruct (Hm s) as (l1 & E1 & G1 & H1).
  destruct (m s) as [[a | e | | ] s1]; cbn [fst snd is_Ok] in *;
    try (exists l1; by rewrite E1, G1, H1).
  destruct (Hk a s1) as (l2 & E2 & G2 & H2).
  exists (l1 ++ l2). rewrite E2, E1, app_assoc, guarded_app, heldAfter_app, G1, H1, G2, H2.
  done.
Qed.

Lemma guards_bind_free {A B} heldOk (m : M A) (k : A -> M B) :
  emitsOnly (fun e => negb (isGuardEvent e)) m -> (forall a, guards false heldOk (k a)) ->
  guards false heldOk (bind m k).
Proof. intros Hm Hk. eapply guards_bind; [by apply guards_free | exact Hk]. Qed.

Lemma guards_bind_lock {B} heldOk (k : unit -> M B) :
  (forall a, guards true heldOk (k a)) -> guards false heldOk (bind lock k).
Proof.
  intros Hk. eapply guards_bind; [|exact Hk]. intros s. by exists [EvLock].
Qed.

Lemma guards_bind_unlock {B} heldOk (k : unit -> M B) :
  (forall a, guards false heldOk (k a)) -> guards true heldOk (bind unlock k).
Proof. intros Hk. eapply guards_bind; [apply guards_unlock | exact Hk]. Qed.

Lemma guards_bind_readRunning {B} heldOk (k : bool -> M B) :
  (forall a, guards true heldOk (k a)) -> guards true heldOk (bind readRunning k).
Proof.
  intros Hk. eapply guards_bind; [|exact Hk]. intros s. by exists [EvReadRunning (isRunning s)].
Qed.

Lemma guards_bind_setRunning {B} heldOk b (k : unit -> M B) :
  (forall a, guards true heldOk (k a)) -> guards true heldOk (bind (setRunning b) k).
Proof.
  intros Hk. eapply guards_bind; [|exact Hk]. intros s. by exists [EvSetRunning b].
Qed.

Lemma guards_bind_emit {B} held heldOk e (k : unit -> M B) :
  isGuardEvent e = false ->
  (forall a, guards held heldOk (k a)) -> guards held heldOk (bind (emit e) k).
Proof.
  intros He Hk. eapply guards_bind; [|exact Hk]. intros s. exists [e].
  split; [done|]. by destruct e, held.
Qed.

Lemma guards_handleError e : guards false false (handleError e).
Proof.
  unfold handleError.
  apply guards_bind_emit; [done | intros _].
  apply guards_bind_emit; [done | intros _].
  apply guards_bind_lock; intros _.
  apply guards_bind_setRunning; intros _. apply guards_unlock.
Qed.

Lemma guards_orHandle {A} msg (m : M A) (k : A -> M unit) :
  emitsOnly (fun e => negb (isGuardEvent e)) m -> (forall a, guards false false (k a)) ->
  guards false false (orHandle msg m k).
Proof.
  intros Hm Hk s. unfold orHandle. destruct (guards_free m Hm s) as (l1 & E1 & G1 & H1).
  destruct (m s) as [[a | e | | ] s1]; cbn [fst snd is_Ok] in *;
    try (exists l1; by rewrite E1, G1, H1).
  - destruct (Hk a s1) as (l2 & E2 & G2 & H2).
    exists (l1 ++ l2). rewrite E2, E1, app_assoc, guarded_app, heldAfter_app, G1, H1, G2, H2.
    done.
  - destruct (guards_handleError (ErrWrap msg e) s1) as (l2 & E2 & G2 & H2).
    exists (l1 ++ l2). rewrite E2, E1, app_assoc, guarded_app, heldAfter_app, G1, H1, G2, H2.
    done.
Qed.

Ltac guards_step :=
  first
    [ apply guards_ret | apply guards_unlock
    | apply guards_bind_lock; intros ?
    | apply guards_bind_unlock; intros ?
    | apply guards_bind_readRunning; intros ?
    | apply guards_bind_setRunning; intros ?
    | apply guards_bind_emit; [reflexivity | intros ?]
    | apply guards_bind_free; [solve [emits] | intros ?]
    | apply guards_orHandle; [solve [emits] | intros ?]
    | apply guards_free; solve [emits]
    | match goal with
      | |- guards _ _ (if ?b then _ else _) => destruct b
      | |- guards _ _ ((if ?b then _ else _) _) => destruct b
      end ].

Lemma guards_run env fuel : guards false false (run env fuel).
Proof. unfold run, runInterval. repeat guards_step. Qed.

Lemma guards_generationTask env tk : guards false false (generationTask env tk).
Proof. unfold generationTask. repeat guards_step. Qed.

(** In one invocation -- [run], then the task it started, if any -- every
    read and every write of [isRunning] is made between a [Lock] and the
    next [Unlock], no [Lock] is taken while the lock is held, and the lock
    is free at the end, on every path and whatever the collaborators
    answer (errors, panics of the model included). *)
Theorem isRunning_is_touched_under_the_lock (env : Env) (fuel : nat) (s : State) :
  let events := newEvents s (snd (runThenTask env fuel s)) in
  guarded false events = true /\ heldAfter false events = false.
Proof.
  cbn zeta.
  assert (Hg : guards false false (runThenTask env fuel)).
  { unfold runThenTask. eapply guards_bind; [apply guards_run|].
    intros [tk|]; [apply guards_generationTask | apply guards_ret]. }
  destruct (Hg s) as (l & Htrace & Hguarded & Hheld).
  rewrite (newEvents_eq _ _ _ Htrace). split; [exact Hguarded|].
  rewrite Hheld. by destruct (is_Ok _).
Qed.

Import Keeping.

(** ** A node outside the Oracle DAO *)

(** The foreground of a node that is not trusted. *)
Lemma resumeOrGenerate_untrusted env nodeAccount startTime endTime intervalsPassed slot
    elBlockIndex header currentIndexBig currentIndex :
  emitsPost isOffline (fun started => forall tk, started = Some tk -> tkNodeTrusted tk = false)
    (resumeOrGenerate env nodeAccount false startTime endTime intervalsPassed slot
       elBlockIndex header currentIndexBig currentIndex).
Proof.
  unfold resumeOrGenerate, resumeStored. cbn [negb].
  apply emitsPost_bind_any; [emits | intros stat].
  destruct (negb (os_IsNotExist stat)).
  - apply emitsPost_bind_any; [emits | intros _]. by apply emitsPost_ret.
  - apply emitsPost_bind_any; [emits | intros _]. apply emitsPost_ret.
    by intros tk [= <-].
Qed.

Lemma generationTask_untrusted env tk :
  tkNodeTrusted tk = false -> emitsOnly isOffline (generationTask env tk).
Proof.
  intros Htk. unfold generationTask. rewrite Htk. cbv beta iota.
  unfold handleError, WriteFile, lock, unlock. repeat emits_step.
Qed.

(** A node that the registry does not list as a member of the Oracle DAO
    stays off the network's write side: in [run] and in the task it starts
    it never creates a compressed file, uploads nothing, estimates no gas
    and sends no transaction, whatever else the collaborators answer. *)
Theorem untrusted_node_stays_offline (env : Env) (fuel : nat) (s : State) :
  (forall a b, GetMemberExists env a = Got b -> b = false) ->
  forallb isOffline (newEvents s (snd (runThenTask env fuel s))) = true.
Proof.
  intros Hmember. apply emitsOnly_newEvents.
  apply (emitsPost_emitsOnly _ (fun _ => True)).
  unfold runThenTask.
  apply (emitsPost_bind _
           (fun started => forall tk, started = Some tk -> tkNodeTrusted tk = false)).
  2: { intros [tk|] Htk.
       - apply emitsPost_any, generationTask_untrusted. by apply Htk.
       - by apply emitsPost_ret. }
  unfold run.
  apply emitsPost_bind_any; [emits | intros _].
  apply emitsPost_bind_any; [emits | intros _].
  apply emitsPost_bind_any; [emits | intros nodeAccount].
  apply (emitsPost_bind _ (fun b => b = false)).
  { apply emitsPost_lift. intros b Hb. by apply (Hmember nodeAccount). }
  intros nodeTrusted ->. cbn [negb andb].
  destruct (negb _); [by apply emitsPost_ret|].
  apply emitsPost_bind_any; [emits | intros _].
  apply emitsPost_bind_any; [emits | intros startTime].
  apply emitsPost_bind_any; [emits | intros intervalTime].
  apply emitsPost_bind_any; [emits | intros latestBlockHeader].
  apply emitsPost_bind_any; [emits | intros clock].
  destruct (fst clock =? 0); [by apply emitsPost_ret|].
  unfold runInterval.
  apply emitsPost_bind_any; [emits | intros snapshot].
  apply emitsPost_bind_any; [emits | intros snapshotElBlockHeader].
  apply emitsPost_bind_any; [emits | intros currentIndexBig].
  apply emitsPost_bind_any; [emits | intros _].
  apply emitsPost_bind_any; [emits | intros running].
  destruct running.
  - apply emitsPost_bind_any; [emits | intros _].
    apply emitsPost_bind_any; [emits | intros _]. by apply emitsPost_ret.
  - apply emitsPost_bind_any; [emits | intros _]. apply resumeOrGenerate_untrusted.
Qed.

Lemma untrusted_node_stays_offline_witness :
  let env := Scenario.envOf (Scenario.knobs false 2250 5 false true) in
  forallb isOffline (newEvents Scenario.emptyState
                       (snd (runThenTask env 10 Scenario.emptyState))) = true /\
  existsb isGenerateTree (newEvents Scenario.emptyState
                            (snd (runThenTask env 10 Scenario.emptyState))) = true.
Proof.
  cbn zeta. split; [|vm_compute; reflexivity].
  apply (untrusted_node_stays_offline
           (Scenario.envOf (Scenario.knobs false 2250 5 false true)) 10 Scenario.emptyState).
  intros a b [= <-]. reflexivity.
Defined.

(** ** A rewards file that is already there *)

(** [run] takes every answer of [os.Stat] other than "does not exist" for
    a file that is there, a failure such as a permission error included.
    It then starts no task; and a node that is not trusted logs that the
    tree exists and returns nil, without reading the file. *)
Theorem resumeOrGenerate_never_rebuilds_a_present_file
    (env : Env) (nodeAccount : Address) (nodeTrusted : bool) (startTime endTime : Time)
    (intervalsPassed : Duration) (slot elBlockIndex : Z) (header : Header)
    (currentIndexBig currentIndex : Z) (s : State) :
  let path := GetRewardsTreePath env currentIndex in
  let r := resumeOrGenerate env nodeAccount nodeTrusted startTime endTime intervalsPassed
             slot elBlockIndex header currentIndexBig currentIndex s in
  is_Some (fs s !! path) \/ is_Some (StatFault env path) ->
  (forall tk, fst r <> Ok (Some tk)) /\
  existsb (fun e => isGo e || isGenerateTree e) (newEvents s (snd r)) = false /\
  (nodeTrusted = false ->
   r = (Ok None, after s [EvStat path; EvLog (LogTreeExists currentIndex path)])).
Proof.
  intros path r Hthere.
  set (stat := match StatFault env path with
               | Some e => StatOther e
               | None => match fs s !! path with Some _ => StatOk | None => StatNotExist end
               end).
  assert (Hstat : os_Stat env path s = (Ok stat, after s [EvStat path])).
  { unfold os_Stat. rewrite (bind_Ok _ _ _ _ _ (emit_eq _ _)). reflexivity. }
  assert (Hexists : negb (os_IsNotExist stat) = true).
  { unfold stat. destruct (StatFault env path); [done|].
    destruct Hthere as [[data Hd] | [e He]]; [by rewrite Hd | done]. }
  assert (Hr : r = bind (resumeStored env nodeAccount nodeTrusted intervalsPassed slot
                           elBlockIndex currentIndexBig currentIndex path
                           (path ++ RewardsTreeIpfsExtension env)%string)
                     (fun _ => ret None) (after s [EvStat path])).
  { unfold r, resumeOrGenerate. fold path. rewrite (bind_Ok _ _ _ _ _ Hstat).
    by rewrite Hexists. }
  split; [|split].
  - intros tk. rewrite Hr. unfold bind.
    by destruct (resumeStored _ _ _ _ _ _ _ _ _ _ _) as [[[] | e | | ] s1].
  - assert (Hquiet : emitsOnly (fun e => negb (isGo e || isGenerateTree e))
              (bind (resumeStored env nodeAccount nodeTrusted intervalsPassed slot
                       elBlockIndex currentIndexBig currentIndex path
                       (path ++ RewardsTreeIpfsExtension env)%string)
                    (fun _ => ret (@None Task)))) by emits.
    destruct (Hquiet (after s [EvStat path])) as (l & Htrace & Hl).
    rewrite <- Hr in Htrace. cbn [after trace] in Htrace. rewrite <- app_assoc in Htrace.
    rewrite (newEvents_eq _ _ _ Htrace). cbn [app existsb isGo isGenerateTree orb].
    apply not_true_is_false. intros Hex. apply existsb_exists in Hex as (e & Hin & He).
    rewrite forallb_forall in Hl. specialize (Hl e Hin). by rewrite He in Hl.
  - intros ->. rewrite Hr. unfold resumeStored. cbn [negb].
    rewrite (bind_Ok _ _ _ _ _ (emit_eq _ _)). unfold ret. by rewrite after_after.
Qed.

Lemma resumeOrGenerate_never_rebuilds_a_present_file_witness :
  let env := Cases.withStatFault (Scenario.envOf (Scenario.knobs false 2250 5 false true))
               (fun _ => Some (ErrExternal "permission denied")) in
  resumeOrGenerate env [Byte.x01] false (Unix 2000) (Unix 2200) 2 127 5127
    {| Number := 5127; HeaderTime := 0 |} 7 7 Scenario.emptyState =
  (Ok None,
   after Scenario.emptyState [EvStat "rewards.json"; EvLog (LogTreeExists 7 "rewards.json")]).
Proof.
  cbn zeta.
  destruct (resumeOrGenerate_never_rebuilds_a_present_file
              (Cases.withStatFault (Scenario.envOf (Scenario.knobs false 2250 5 false true))
                 (fun _ => Some (ErrExternal "permission denied")))
              [Byte.x01] false (Unix 2000) (Unix 2200) 2 127 5127
              {| Number := 5127; HeaderTime := 0 |} 7 7 Scenario.emptyState
              ltac:(right; cbn; eauto)) as (_ & _ & Hnil).
  exact (Hnil eq_refl).
Defined.

Import Looking.

(** ** The index buffer of [hasSubmittedTree] *)

Lemma byte_of_Z_value z : Z.of_N (Byte.to_N (byte_of_Z z)) = z mod 256.
Proof.
  unfold byte_of_Z.
  pose proof (Z.mod_pos_bound z 256 ltac:(lia)) as Hm.
  destruct (Byte.of_N (Z.to_N (z mod 256))) as [b|] eqn:Hb.
  - apply Byte.to_of_N in Hb. rewrite Hb. lia.
  - apply Byte.of_N_None_iff in Hb. lia.
Qed.

Lemma bigEndianValue_snoc buf b :
  bigEndianValue (buf ++ [b]) = bigEndianValue buf * 256 + Z.of_N (Byte.to_N b).
Proof. unfold bigEndianValue. by rewrite fold_left_app. Qed.

Lemma bigEndian_length n : forall z, length (bigEndian n z) = n.
Proof.
  induction n as [|n IH]; intros z; [reflexivity|].
  cbn [bigEndian]. rewrite length_app, IH. cbn. lia.
Qed.

Lemma bigEndian_value n : forall z,
  bigEndianValue (bigEndian n z) = z mod 256 ^ Z.of_nat n.
Proof.
  induction n as [|n IH]; intros z.
  - cbn. by rewrite Z.mod_1_r.
  - cbn [bigEndian]. rewrite bigEndianValue_snoc, IH, byte_of_Z_value.
    replace (Z.of_nat (S n)) with (1 + Z.of_nat n) by lia.
    rewrite Z.pow_add_r by lia. change (256 ^ 1) with 256.
    rewrite (Z.rem_mul_r z 256 (256 ^ Z.of_nat n)) by lia. lia.
Qed.

(** [hasSubmittedTree] reads the registry flag whose key is the hash of
    the prefix, the node address and the interval index as 32 bytes, most
    significant first: the buffer holds the absolute value of the index, so
    an index and its negative read the same flag, and two indices of
    different magnitude never share a buffer.  An index that does not fit
    into 32 bytes makes the call panic (line 537). *)
Theorem hasSubmittedTree_reads_the_flag_of_the_index
    (env : Env) (nodeAddress : Address) (index : Z) (s : State) :
  (Z.abs index < 2 ^ 256 ->
   exists indexBuffer,
     length indexBuffer = 32%nat /\
     bigEndianValue indexBuffer = Z.abs index /\
     FillBytes32 index = Some indexBuffer /\
     FillBytes32 (- index) = Some indexBuffer /\
     hasSubmittedTree env nodeAddress index s =
       lift (RocketStorage_GetBool env (submittedKey env nodeAddress indexBuffer)) s) /\
  (2 ^ 256 <= Z.abs index -> hasSubmittedTree env nodeAddress index s = (Panic, s)).
Proof.
  split.
  - intros Hfit. exists (bigEndian 32 (Z.abs index)).
    split; [apply bigEndian_length|]. split.
    { rewrite bigEndian_value. change (256 ^ Z.of_nat 32) with (2 ^ 256).
      apply Z.mod_small. lia. }
    assert (Hfill : FillBytes32 index = Some (bigEndian 32 (Z.abs index))).
    { unfold FillBytes32. destruct (Z.ltb_spec (Z.abs index) (2 ^ 256)); [done | lia]. }
    split; [exact Hfill|]. split.
    { unfold FillBytes32. rewrite Z.abs_opp.
      destruct (Z.ltb_spec (Z.abs index) (2 ^ 256)); [done | lia]. }
    unfold hasSubmittedTree. rewrite Hfill. reflexivity.
  - intros Hbig. unfold hasSubmittedTree, FillBytes32.
    destruct (Z.ltb_spec (Z.abs index) (2 ^ 256)); [lia | reflexivity].
Qed.

Import Looking Keeping.

(** ** The upload, step by step *)

(** [uploadFileToWeb3Storage] returns a CID exactly when the API token is
    set, the client is created, the compressed file is created and written
    and the storage service accepts it, and the CID is the one the service
    answered; the compressed file then holds the compressed bytes.  Without
    a token it returns at once, leaving the disk and the service alone; and
    the service is only ever called after the compressed file was created
    and written in full. *)
Theorem uploadFileToWeb3Storage_outcomes
    (env : Env) (data : bytes) (compressedPath description : string) (s : State) :
  let r := uploadFileToWeb3Storage env data compressedPath description s in
  (forall cid, fst r = Ok cid <-> uploads env compressedPath data cid) /\
  (forall cid, fst r = Ok cid ->
     fs (snd r) !! compressedPath = Some (zstd_EncodeAll env data)) /\
  (Web3StorageApiToken env = ""%string -> r = (Err ErrNoApiToken, s)) /\
  (existsb isPut (newEvents s (snd r)) = true ->
     os_Create env compressedPath = None /\
     File_Write env compressedPath (zstd_EncodeAll env data) = None /\
     newEvents s (snd r) =
       [EvCreate compressedPath true;
        EvFileWrite compressedPath (zstd_EncodeAll env data) true;
        EvPut (zstd_EncodeAll env data)
          (match w3s_Put env (zstd_EncodeAll env data) with Got _ => true | Failed _ => false end)]).
Proof.
  cbn zeta. unfold uploadFileToWeb3Storage, uploads.
  destruct (String.eqb_spec (Web3StorageApiToken env) "") as [Htoken | Htoken].
  { cbn. rewrite newEvents_same. split; [|split; [|split]]; try done.
    intros cid. split; [done | by intros [? _]]. }
  destruct (w3s_NewClient env) as [e|] eqn:Hclient.
  { cbn. rewrite newEvents_same. split; [|split; [|split]]; try done.
    intros cid. split; [done | by intros (_ & ? & _)]. }
  destruct (os_Create env compressedPath) as [e|] eqn:Hcreate.
  { cbn. split; [|split; [|split]]; try done.
    - intros cid. split; [done | by intros (_ & _ & ? & _)].
    - unfold newEvents. cbn. rewrite drop_app_length. done. }
  destruct (File_Write env compressedPath (zstd_EncodeAll env data)) as [e|] eqn:Hwrite.
  { cbn. split; [|split; [|split]]; try done.
    - intros cid. split; [done | by intros (_ & _ & _ & ? & _)].
    - unfold newEvents. cbn. rewrite <- app_assoc, drop_app_length. done. }
  destruct (w3s_Put env (zstd_EncodeAll env data)) as [cid0 | e] eqn:Hput.
  - cbn. split; [|split; [|split]]; try done.
    + intros cid. split; [by intros [= <-] | by intros (_ & _ & _ & _ & [= <-])].
    + intros cid _. by rewrite lookup_insert_eq.
    + intros _. unfold newEvents. cbn. rewrite <- !app_assoc, drop_app_length. done.
  - cbn. split; [|split; [|split]]; try done.
    + intros cid. split; [done | by intros (_ & _ & _ & _ & ?)].
    + intros _. unfold newEvents. cbn. rewrite <- !app_assoc, drop_app_length. done.
Qed.

Import Looking Keeping.

(** ** The submission, step by step *)

Ltac submit_events :=
  cbn [fst snd trace isRunning fs];
  first [ rewrite newEvents_same
        | erewrite newEvents_eq by (cbn [trace]; rewrite <- ?app_assoc; reflexivity) ];
  cbn [app filter List.filter isSubmitTx length].

(** [submitRewardsSnapshot] sends at most one transaction, and only for a
    submission whose Merkle root decoded, whose gas was estimated just
    before and passed the check against the maximum fee; the transaction
    goes out with that maximum as fee cap, the configured priority fee and
    the safe gas limit of the estimate. *)
Theorem submitRewardsSnapshot_sends_at_most_one_transaction
    (env : Env) (index consensusBlock executionBlock : Z) (rewardsFile : RewardsFile)
    (cid : string) (intervalsPassed : Z) (s : State) :
  let events :=
    newEvents s (snd (submitRewardsSnapshot env index consensusBlock executionBlock
                        rewardsFile cid intervalsPassed s)) in
  (length (List.filter isSubmitTx events) <= 1)%nat /\
  (forall submission o,
     In (EvSubmitTx submission o) events ->
     exists root arrays opts gas,
       hex_DecodeString env (RemovePrefix env (MerkleRoot rewardsFile)) = Got root /\
       networkArrays (NetworkRewards rewardsFile) = Ok arrays /\
       GetNodeAccountTransactor env = Got opts /\
       submission = submissionOf env index consensusBlock executionBlock rewardsFile root cid
                      intervalsPassed arrays /\
       EstimateSubmitRewardSnapshotGas env submission opts = Got gas /\
       PrintAndCheckGasInfo env gas (MaxFeeWei env) = true /\
       o = sendOpts env opts gas /\
       hd_error events = Some (EvEstimateGas submission)).
Proof.
  cbn zeta. unfold submitRewardsSnapshot.
  destruct (hex_DecodeString env (RemovePrefix env (MerkleRoot rewardsFile)))
    as [root | e] eqn:Hroot.
  2: { unfold bind, wrapErr, lift. submit_events. split; [lia | done]. }
  rewrite (bind_Ok _ _ s root s) by reflexivity.
  destruct (networkArrays (NetworkRewards rewardsFile)) as [arrays | e | |] eqn:Harrays.
  2,3,4: unfold bind, liftR; submit_events; (split; [lia | done]).
  rewrite (bind_Ok _ _ s arrays s) by reflexivity.
  destruct (GetNodeAccountTransactor env) as [opts | e] eqn:Hopts.
  2: { unfold bind, lift. submit_events. split; [lia | done]. }
  rewrite (bind_Ok _ _ s opts s) by reflexivity.
  fold (submissionOf env index consensusBlock executionBlock rewardsFile root cid
          intervalsPassed arrays).
  set (submission := submissionOf env index consensusBlock executionBlock rewardsFile root cid
                       intervalsPassed arrays).
  destruct (EstimateSubmitRewardSnapshotGas env submission opts) as [gas | e] eqn:Hgas.
  2: { unfold bind, wrapErr, lift, emit. submit_events.
       split; [lia|]. intros sub o [? | []]. discriminate. }
  rewrite (bind_Ok _ _ s gas (after s [EvEstimateGas submission])).
  2: { apply wrapErr_Ok. by rewrite (bind_Ok _ _ _ _ _ (emit_eq _ _)). }
  destruct (PrintAndCheckGasInfo env gas (MaxFeeWei env)) eqn:Hcheck; cbn [negb].
  2: { unfold ret. submit_events. split; [lia|]. intros sub o [? | []]. discriminate. }
  fold (sendOpts env opts gas).
  assert (Hsent : forall events' : list event,
            (forall sub o, In (EvSubmitTx sub o) events' -> False) ->
            forall sub o,
              In (EvSubmitTx sub o)
                (EvEstimateGas submission :: EvSubmitTx submission (sendOpts env opts gas)
                   :: events') ->
              exists root0 arrays0 opts0 gas0,
                Got root = Got root0 /\ Ok arrays = Ok arrays0 /\ Got opts = Got opts0 /\
                sub = submissionOf env index consensusBlock executionBlock rewardsFile root0
                        cid intervalsPassed arrays0 /\
                EstimateSubmitRewardSnapshotGas env sub opts0 = Got gas0 /\
                PrintAndCheckGasInfo env gas0 (MaxFeeWei env) = true /\
                o = sendOpts env opts0 gas0 /\
                hd_error (EvEstimateGas submission
                            :: EvSubmitTx submission (sendOpts env opts gas) :: events')
                  = Some (EvEstimateGas sub)).
  { intros events' Hnone sub o [? | [[= <- <-] | Hin]]; [discriminate | | by destruct (Hnone sub o)].
    by exists root, arrays, opts, gas. }
  destruct (SubmitRewardSnapshot env submission (sendOpts env opts gas)) as [hash | e] eqn:Htx.
  2: { unfold bind, lift, emit. cbn [after trace fs isRunning]. submit_events. split; [lia|].
       apply (Hsent []). by intros sub o []. }
  destruct (PrintAndWaitForTransaction env hash) as [e|] eqn:Hwait.
  - unfold bind, lift, liftE, emit, fail. cbn [after trace fs isRunning fst snd].
    rewrite Hwait. submit_events. split; [lia|]. apply (Hsent [EvWaitTx hash]).
    intros sub o [? | []]. discriminate.
  - unfold bind, lift, liftE, emit, ret. cbn [after trace fs isRunning fst snd].
    rewrite Hwait. submit_events. split; [lia|]. apply (Hsent [EvWaitTx hash]).
    intros sub o [? | []]. discriminate.
Qed.

(** An error from [submitRewardsSnapshot] does not mean that nothing was
    sent: when the transaction goes out and waiting for it fails, the error
    of the wait is returned after the transaction was submitted. *)
Theorem submitRewardsSnapshot_can_fail_after_sending
    (env : Env) (index consensusBlock executionBlock : Z) (rewardsFile : RewardsFile)
    (cid : string) (intervalsPassed : Z) (s : State)
    (root : bytes) (arrays : list Z * list Z * list Z) (opts : TransactOpts) (gas : GasInfo)
    (hash : Hash) (e : error) :
  let submission :=
    submissionOf env index consensusBlock executionBlock rewardsFile root cid
      intervalsPassed arrays in
  hex_DecodeString env (RemovePrefix env (MerkleRoot rewardsFile)) = Got root ->
  networkArrays (NetworkRewards rewardsFile) = Ok arrays ->
  GetNodeAccountTransactor env = Got opts ->
  EstimateSubmitRewardSnapshotGas env submission opts = Got gas ->
  PrintAndCheckGasInfo env gas (MaxFeeWei env) = true ->
  SubmitRewardSnapshot env submission (sendOpts env opts gas) = Got hash ->
  PrintAndWaitForTransaction env hash = Some e ->
  submitRewardsSnapshot env index consensusBlock executionBlock rewardsFile cid
    intervalsPassed s =
    (Err e,
     after s [EvEstimateGas submission; EvSubmitTx submission (sendOpts env opts gas);
              EvWaitTx hash]).
Proof.
  intros submission Hroot Harrays Hopts Hgas Hcheck Htx Hwait.
  unfold submitRewardsSnapshot.
  rewrite (bind_Ok _ _ s root s) by (apply wrapErr_Ok; unfold lift; by rewrite Hroot).
  rewrite (bind_Ok _ _ s arrays s) by (unfold liftR; by rewrite Harrays).
  rewrite (bind_Ok _ _ s opts s) by (unfold lift; by rewrite Hopts).
  fold (submissionOf env index consensusBlock executionBlock rewardsFile root cid
          intervalsPassed arrays). fold submission.
  rewrite (bind_Ok _ _ s gas (after s [EvEstimateGas submission])).
  2: { apply wrapErr_Ok. rewrite (bind_Ok _ _ _ _ _ (emit_eq _ _)). unfold lift.
       by rewrite Hgas. }
  rewrite Hcheck. cbn [negb]. fold (sendOpts env opts gas).
  rewrite (bind_Ok _ _ _ hash
             (after s [EvEstimateGas submission;
                       EvSubmitTx submission (sendOpts env opts gas)])).
  2: { rewrite (bind_Ok _ _ _ _ _ (emit_eq _ _)). unfold lift. rewrite Htx.
       by rewrite after_after. }
  rewrite (bind_Ok _ _ _ _ _ (emit_eq _ _)). rewrite after_after. cbn [app].
  apply bind_Err. by rewrite Hwait.
Qed.

Lemma submitRewardsSnapshot_can_fail_after_sending_witness :
  let env := Cases.withWait (Scenario.envOf (Scenario.knobs true 2250 5 false true))
               (fun _ => Some (ErrExternal "timeout")) in
  let r := submitRewardsSnapshot env 7 127 5127 Scenario.sampleFile "cid-1" 2
             Scenario.emptyState in
  fst r = Err (ErrExternal "timeout") /\
  existsb isSubmitTx (trace (snd r)) = true.
Proof.
  cbn zeta.
  rewrite (submitRewardsSnapshot_can_fail_after_sending
             (Cases.withWait (Scenario.envOf (Scenario.knobs true 2250 5 false true))
                (fun _ => Some (ErrExternal "timeout")))
             7 127 5127 Scenario.sampleFile "cid-1" 2 Scenario.emptyState
             Scenario.rootBytes ([10; 20; 30], [11; 21; 31], [12; 22; 32])
             {| From := [Byte.x01]; GasFeeCap := 0; GasTipCap := 0; GasLimit := 0 |}
             {| EstGasLimit := 100; SafeGasLimit := 150 |} [Byte.xff]
             (ErrExternal "timeout")
             eq_refl ltac:(vm_compute; reflexivity) eq_refl eq_refl eq_refl eq_refl eq_refl).
  split; reflexivity.
Defined.

Import Looking Keeping.

(** ** The background task, path by path *)

Lemma orHandle_Err {A} msg (m : M A) (k : A -> M unit) s e s1 :
  m s = (Err e, s1) -> orHandle msg m k s = handleError (ErrWrap msg e) s1.
Proof. intros H. unfold orHandle. by rewrite H. Qed.

(** The first steps of the task, up to the call of the tree builder. *)
Ltac task_opening env tk Harch :=
  unfold lock, unlock; rewrite !(bind_Ok _ _ _ _ _ (emit_eq _ _));
  unfold setRunning at 1; unfold bind at 1; unfold bind at 1; rewrite emit_eq; norm;
  match goal with
  | |- context [bind (if ?c then ?a else ?b) ?k ?st] =>
      let Hw := fresh "Hw" in
      assert (Hw : (if c then a else b) st = (Ok tt, after st (warnLine tk)))
        by (unfold warnLine; destruct c; [apply emit_eq | by rewrite after_nil]);
      rewrite (bind_Ok _ _ _ _ _ Hw); clear Hw; norm
  end;
  rewrite (bind_Ok _ _ _ _ _ (emit_eq _ _)); norm;
  match goal with
  | |- context [orHandle ?msg (if ?u then ?a else ?b) ?k ?st] =>
      let Ha := fresh "Ha" in
      assert (Ha : (if u then a else b) st = (Ok tt, after st (archiveLine env)))
        by (unfold archiveLine; destruct u;
            [ destruct (Harch eq_refl) as [Hdial _];
              rewrite (bind_Ok _ _ _ _ _ (emit_eq _ _)), Hdial; reflexivity
            | by rewrite after_nil ]);
      rewrite (orHandle_Ok _ _ _ _ _ _ Ha); clear Ha; norm
  end;
  match goal with
  | |- context [orHandle ?msg (if ?u then ?a else ?b) ?k ?st] =>
      let Ha := fresh "Ha" in
      assert (Ha : (if u then a else b) st = (Ok tt, st))
        by (destruct u; [|done]; destruct (Harch eq_refl) as [_ Hrp]; by rewrite Hrp);
      rewrite (orHandle_Ok _ _ _ _ _ _ Ha); clear Ha; norm
  end.

(** When the tree builder fails, the task logs the failure, lowers the
    flag under the lock and ends: nothing was written to the disk, nothing
    uploaded, nothing submitted. *)
Theorem generationTask_stops_when_the_builder_fails
    (env : Env) (tk : Task) (s : State) (e : error) :
  archiveReady env ->
  GenerateTree env (NewRewardsFile tk) (negb (String.eqb (ArchiveECUrl env) "")) = Failed e ->
  generationTask env tk s =
    (Ok tt,
     {| isRunning := false;
        fs := fs s;
        trace := trace s ++ taskOpening env tk ++
                 [EvGenerateTree (NewRewardsFile tk) (negb (String.eqb (ArchiveECUrl env) ""));
                  EvErrLog (ErrWrap "Error generating Merkle tree" e);
                  EvErrLogFailed; EvLock; EvSetRunning false; EvUnlock] |}).
Proof.
  intros Harch Hgen. unfold generationTask, archiveReady in *.
  task_opening env tk Harch.
  match goal with
  | |- context [orHandle ?msg ?m ?k ?st] =>
      rewrite (orHandle_Err msg m k st e
                 (after st [EvGenerateTree (NewRewardsFile tk)
                              (negb (String.eqb (ArchiveECUrl env) ""))]))
  end.
  2: { rewrite (bind_Ok _ _ _ _ _ (emit_eq _ _)). unfold lift. by rewrite Hgen. }
  rewrite handleError_eq. norm. unfold taskOpening.
  f_equal. f_equal. rewrite <- !app_assoc. reflexivity.
Qed.

Lemma generationTask_stops_when_the_builder_fails_witness :
  let env := Scenario.envOf (Cases.withGenerate (Scenario.knobs true 2250 5 false true)
                               (Failed (ErrExternal "no state"))) in
  let r := generationTask env (Scenario.sampleTask true) Scenario.storedState in
  fst r = Ok tt /\ isRunning (snd r) = false /\ fs (snd r) = fs Scenario.storedState /\
  existsb isFailureLog (trace (snd r)) = true.
Proof.
  cbn zeta.
  rewrite (generationTask_stops_when_the_builder_fails
             (Scenario.envOf (Cases.withGenerate (Scenario.knobs true 2250 5 false true)
                                (Failed (ErrExternal "no state"))))
             (Scenario.sampleTask true) Scenario.storedState (ErrExternal "no state")
             ltac:(intros H; discriminate H) eq_refl).
  repeat split; reflexivity.
Defined.

Ltac task_call Ha :=
  rewrite (orHandle_Ok _ _ _ _ _ _ Ha); clear Ha; norm.

(** A node outside the Oracle DAO that generates: the task saves the
    performance file, then the rewards tree file with "---" in place of the
    CID of the performance file, and ends with the flag down; nothing else
    is written. *)
Theorem generationTask_saves_both_files_when_not_trusted
    (env : Env) (tk : Task) (s : State) (rewardsFile : RewardsFile)
    (performanceBytes wrapperBytes : bytes) :
  let useArchive := negb (String.eqb (ArchiveECUrl env) "") in
  tkNodeTrusted tk = false ->
  archiveReady env ->
  GenerateTree env (NewRewardsFile tk) useArchive = Got rewardsFile ->
  json_Marshal_performance env (MinipoolPerformance rewardsFile) = Got performanceBytes ->
  ioutil_WriteFile env (tkMinipoolPerformancePath tk) performanceBytes = WriteOk ->
  json_Marshal_rewards env (set_MinipoolPerformanceFileCID "---" rewardsFile)
    = Got wrapperBytes ->
  ioutil_WriteFile env (tkPath tk) wrapperBytes = WriteOk ->
  generationTask env tk s =
    (Ok tt,
     {| isRunning := false;
        fs := <[tkPath tk := wrapperBytes]>
                (<[tkMinipoolPerformancePath tk := performanceBytes]> (fs s));
        trace := trace s ++ taskOpening env tk ++
                 [EvGenerateTree (NewRewardsFile tk) useArchive] ++
                 invalidNetworkLines rewardsFile ++
                 [EvWriteFile (tkMinipoolPerformancePath tk) performanceBytes true;
                  EvLog LogSavedPerformance;
                  EvLog LogGenerationComplete;
                  EvWriteFile (tkPath tk) wrapperBytes true;
                  EvLog (LogGeneratedBackground (tkCurrentIndex tk));
                  EvLock; EvSetRunning false; EvUnlock] |}).
Proof.
  intros useArchive Htrusted Harch Hgen Hperf Hwperf Htree Hwtree. subst useArchive.
  unfold generationTask, archiveReady in *.
  rewrite Htrusted.
  task_opening env tk Harch.
  match goal with
  | |- context [orHandle ?msg ?m ?k ?st] =>
      assert (Ha : m st = (Ok rewardsFile,
                           after st [EvGenerateTree (NewRewardsFile tk)
                                       (negb (String.eqb (ArchiveECUrl env) ""))]))
  end.
  { rewrite (bind_Ok _ _ _ _ _ (emit_eq _ _)). unfold lift. by rewrite Hgen. }
  task_call Ha.
  rewrite (bind_Ok _ _ _ _ _ (logInvalidNetworkNodes_eq _ _)). norm.
  match goal with
  | |- context [orHandle ?msg ?m ?k ?st] =>
      assert (Ha : m st = (Ok performanceBytes, st))
  end.
  { unfold lift. by rewrite Hperf. }
  task_call Ha.
  match goal with
  | |- context [orHandle ?msg (WriteFile env ?p ?d) ?k ?st] =>
      assert (Ha : WriteFile env p d st =
                   (Ok tt, {| isRunning := isRunning st; fs := <[p := d]> (fs st);
                              trace := trace st ++ [EvWriteFile p d true] |}))
  end.
  { unfold WriteFile. by rewrite Hwperf. }
  task_call Ha.
  match goal with
  | |- context [orHandle ?msg ?m ?k ?st] =>
      eassert (Ha : m st = (Ok (set_MinipoolPerformanceFileCID "---" rewardsFile), _))
  end.
  { rewrite (bind_Ok _ _ _ _ _ (emit_eq _ _)). reflexivity. }
  task_call Ha.
  match goal with
  | |- context [orHandle ?msg ?m ?k ?st] =>
      assert (Ha : m st = (Ok wrapperBytes, st))
  end.
  { unfold lift. by rewrite Htree. }
  task_call Ha.
  rewrite (bind_Ok _ _ _ _ _ (emit_eq _ _)). norm.
  match goal with
  | |- context [orHandle ?msg (WriteFile env ?p ?d) ?k ?st] =>
      assert (Ha : WriteFile env p d st =
                   (Ok tt, {| isRunning := isRunning st; fs := <[p := d]> (fs st);
                              trace := trace st ++ [EvWriteFile p d true] |}))
  end.
  { unfold WriteFile. by rewrite Hwtree. }
  task_call Ha.
  rewrite !(bind_Ok _ _ _ _ _ (emit_eq _ _)). norm.
  unfold setRunning, bind, emit. norm. unfold taskOpening, invalidNetworkLines.
  f_equal. f_equal. rewrite <- !app_assoc. cbn [app]. rewrite <- ?app_assoc. reflexivity.
Qed.

Lemma generationTask_saves_both_files_when_not_trusted_witness :
  let env := Scenario.envOf (Scenario.knobs false 2250 5 false true) in
  let r := generationTask env (Scenario.sampleTask false) Scenario.emptyState in
  fst r = Ok tt /\
  fs (snd r) = <[ "rewards.json"%string := Scenario.treeBytes ]>
                 (<[ "performance.json"%string := Scenario.perfBytes ]> ∅) /\
  json_Marshal_rewards env (set_MinipoolPerformanceFileCID "---" Scenario.sampleFile)
    = Got Scenario.treeBytes.
Proof.
  cbn zeta.
  rewrite (generationTask_saves_both_files_when_not_trusted
             (Scenario.envOf (Scenario.knobs false 2250 5 false true))
             (Scenario.sampleTask false) Scenario.emptyState Scenario.sampleFile
             Scenario.perfBytes Scenario.treeBytes
             eq_refl ltac:(intros H; discriminate H) eq_refl eq_refl eq_refl eq_refl eq_refl).
  repeat split; reflexivity.
Defined.

(** A node of the Oracle DAO whose collaborators all answer: the task
    saves and uploads the performance file, saves the rewards tree file
    with the CID of that upload in it, uploads it, and submits the
    snapshot with the CID of the second upload and the root of the file it
    built; then it lowers the flag. *)
Theorem generationTask_uploads_and_submits_when_trusted
    (env : Env) (tk : Task) (s : State) (rewardsFile : RewardsFile)
    (performanceBytes : bytes) (performanceCid : string) (wrapperBytes : bytes)
    (cid : string) (root : bytes) (arrays : list Z * list Z * list Z)
    (opts : TransactOpts) (gas : GasInfo) (hash : Hash) :
  let useArchive := negb (String.eqb (ArchiveECUrl env) "") in
  let stored := set_MinipoolPerformanceFileCID performanceCid rewardsFile in
  let submission :=
    submissionOf env (tkCurrentIndexBig tk) (tkSnapshotBeaconBlock tk) (tkElBlockIndex tk)
      stored root cid (tkIntervalsPassed tk) arrays in
  reachesSubmission env tk rewardsFile performanceBytes performanceCid wrapperBytes cid ->
  submits env stored root arrays submission opts gas hash ->
  generationTask env tk s =
    (Ok tt,
     {| isRunning := false;
        fs := <[tkCompressedPath tk := zstd_EncodeAll env wrapperBytes]>
                (<[tkCompressedPath tk := []]>
                   (<[tkPath tk := wrapperBytes]>
                      (<[tkCompressedMinipoolPerformancePath tk :=
                           zstd_EncodeAll env performanceBytes]>
                         (<[tkCompressedMinipoolPerformancePath tk := []]>
                            (<[tkMinipoolPerformancePath tk := performanceBytes]> (fs s))))));
        trace := trace s ++ taskOpening env tk ++
                 [EvGenerateTree (NewRewardsFile tk) useArchive] ++
                 invalidNetworkLines rewardsFile ++
                 [EvWriteFile (tkMinipoolPerformancePath tk) performanceBytes true;
                  EvLog LogUploadingPerformance;
                  EvCreate (tkCompressedMinipoolPerformancePath tk) true;
                  EvFileWrite (tkCompressedMinipoolPerformancePath tk)
                    (zstd_EncodeAll env performanceBytes) true;
                  EvPut (zstd_EncodeAll env performanceBytes) true;
                  EvLog (LogUploadedPerformance performanceCid);
                  EvLog LogGenerationComplete;
                  EvWriteFile (tkPath tk) wrapperBytes true;
                  EvLog LogUploadingTree;
                  EvCreate (tkCompressedPath tk) true;
                  EvFileWrite (tkCompressedPath tk) (zstd_EncodeAll env wrapperBytes) true;
                  EvPut (zstd_EncodeAll env wrapperBytes) true;
                  EvLog (LogUploadedTree cid);
                  EvEstimateGas submission;
                  EvSubmitTx submission (sendOpts env opts gas);
                  EvWaitTx hash;
                  EvLog (LogSubmittedBackground (tkCurrentIndex tk));
                  EvLock; EvSetRunning false; EvUnlock] |}).
Proof.
  intros useArchive stored submission
    (Htrusted & Harch & Hgen & Hperf & Hwperf & Hupperf & Htree & Hwtree & Huptree) Hsubmits.
  subst useArchive. cbn zeta in Harch, Hgen.
  unfold generationTask.
  rewrite Htrusted.
  task_opening env tk Harch.
  match goal with
  | |- context [orHandle ?msg ?m ?k ?st] =>
      assert (Ha : m st = (Ok rewardsFile,
                           after st [EvGenerateTree (NewRewardsFile tk)
                                       (negb (String.eqb (ArchiveECUrl env) ""))]))
  end.
  { rewrite (bind_Ok _ _ _ _ _ (emit_eq _ _)). unfold lift. by rewrite Hgen. }
  task_call Ha.
  rewrite (bind_Ok _ _ _ _ _ (logInvalidNetworkNodes_eq _ _)). norm.
  match goal with
  | |- context [orHandle ?msg ?m ?k ?st] =>
      assert (Ha : m st = (Ok performanceBytes, st))
  end.
  { unfold lift. by rewrite Hperf. }
  task_call Ha.
  match goal with
  | |- context [orHandle ?msg (WriteFile env ?p ?d) ?k ?st] =>
      assert (Ha : WriteFile env p d st =
                   (Ok tt, {| isRunning := isRunning st; fs := <[p := d]> (fs st);
                              trace := trace st ++ [EvWriteFile p d true] |}))
  end.
  { unfold WriteFile. by rewrite Hwperf. }
  task_call Ha.
  match goal with
  | |- context [orHandle ?msg ?m ?k ?st] =>
      eassert (Ha : m st = (Ok stored, _))
  end.
  { rewrite (bind_Ok _ _ _ _ _ (emit_eq _ _)).
    rewrite (bind_Ok _ _ _ _ _ (uploadFileToWeb3Storage_Ok _ _ _ _ _ _ Hupperf)).
    rewrite (bind_Ok _ _ _ _ _ (emit_eq _ _)). reflexivity. }
  task_call Ha.
  match goal with
  | |- context [orHandle ?msg ?m ?k ?st] =>
      assert (Ha : m st = (Ok wrapperBytes, st))
  end.
  { unfold lift. fold stored in Htree. by rewrite Htree. }
  task_call Ha.
  rewrite (bind_Ok _ _ _ _ _ (emit_eq _ _)). norm.
  match goal with
  | |- context [orHandle ?msg (WriteFile env ?p ?d) ?k ?st] =>
      assert (Ha : WriteFile env p d st =
                   (Ok tt, {| isRunning := isRunning st; fs := <[p := d]> (fs st);
                              trace := trace st ++ [EvWriteFile p d true] |}))
  end.
  { unfold WriteFile. by rewrite Hwtree. }
  task_call Ha.
  rewrite (bind_Ok _ _ _ _ _ (emit_eq _ _)). norm.
  rewrite (orHandle_Ok _ _ _ _ _ _ (uploadFileToWeb3Storage_Ok _ _ _ _ _ _ Huptree)). norm.
  rewrite (bind_Ok _ _ _ _ _ (emit_eq _ _)). norm.
  rewrite (orHandle_Ok _ _ _ _ _ _
             (submitRewardsSnapshot_Ok _ _ _ _ _ _ _ _ _ _ _ _ _ Hsubmits)). norm.
  rewrite (bind_Ok _ _ _ _ _ (emit_eq _ _)). norm.
  rewrite !(bind_Ok _ _ _ _ _ (emit_eq _ _)). norm.
  unfold setRunning, bind, emit. norm. unfold taskOpening, invalidNetworkLines.
  f_equal. f_equal. rewrite <- !app_assoc. cbn [app]. rewrite <- ?app_assoc. reflexivity.
Qed.

Lemma generationTask_uploads_and_submits_when_trusted_witness :
  let env := Scenario.envOf (Scenario.knobs true 2250 5 false true) in
  let r := generationTask env (Scenario.sampleTask true) Scenario.emptyState in
  fst r = Ok tt /\ isRunning (snd r) = false /\
  existsb isSubmitTx (trace (snd r)) = true /\
  fs (snd r) !! "rewards.json"%string = Some Scenario.treeBytes.
Proof.
  cbn zeta.
  rewrite (generationTask_uploads_and_submits_when_trusted
             (Scenario.envOf (Scenario.knobs true 2250 5 false true))
             (Scenario.sampleTask true) Scenario.emptyState Scenario.sampleFile
             Scenario.perfBytes "cid-1" Scenario.treeBytes "cid-1" Scenario.rootBytes
             ([10; 20; 30], [11; 21; 31], [12; 22; 32])
             {| From := [Byte.x01]; GasFeeCap := 0; GasTipCap := 0; GasLimit := 0 |}
             {| EstGasLimit := 100; SafeGasLimit := 150 |} [Byte.xff]).
  - repeat split; vm_compute; reflexivity.
  - unfold reachesSubmission, uploads. repeat split; try reflexivity; discriminate.
  - unfold submits. repeat split; vm_compute; reflexivity.
Defined.

Import Looking Keeping.

(** ** The CID that goes on chain *)

Section Cids.
Variable env : Env.

Lemma cidScan_app l1 : forall known l2,
  cidScan env known (l1 ++ l2) =
    cidScan env known l1 && cidScan env (knownAfter env known l1) l2.
Proof.
  induction l1 as [|e l1 IH]; intros known l2; [reflexivity|].
  destruct e; cbn [app cidScan knownAfter]; try (by rewrite IH).
  - destruct ok; by rewrite IH.
  - by rewrite IH, andb_assoc.
Qed.

Lemma knownAfter_app l1 : forall known l2,
  knownAfter env known (l1 ++ l2) = knownAfter env (knownAfter env known l1) l2.
Proof.
  induction l1 as [|e l1 IH]; intros known l2; [reflexivity|].
  destruct e; cbn [app knownAfter]; try (by rewrite IH).
  destruct ok; by rewrite IH.
Qed.

Lemma cidScan_quiet l known :
  forallb (fun e => negb (isPut e || isSubmitTx e)) l = true ->
  cidScan env known l = true /\ knownAfter env known l = known.
Proof.
  induction l as [|e l IH]; [done|]. cbn [forallb]. intros [He Hl]%andb_prop.
  destruct e; try discriminate; cbn [cidScan knownAfter]; by apply IH.
Qed.

Lemma carries_free {A} known (m : M A) :
  emitsOnly (fun e => negb (isPut e || isSubmitTx e)) m ->
  carries env known m (fun _ known' => known' = known).
Proof.
  intros Hm s. destruct (Hm s) as (l & Htrace & Hl).
  destruct (cidScan_quiet l known Hl) as [Hscan Hknown].
  exists l. split; [done|]. split; [done|]. by intros a _.
Qed.

Lemma carries_ret {A} known (a : A) (Q : A -> list string -> Prop) :
  Q a known -> carries env known (ret a) Q.
Proof.
  intros Ha s. exists []. cbn. rewrite app_nil_r. split; [done|]. split; [done|].
  by intros a' [= <-].
Qed.

Lemma carries_bind {A B} known (m : M A) (k : A -> M B) Q1 Q :
  carries env known m Q1 ->
  (forall a known', Q1 a known' -> carries env known' (k a) Q) ->
  carries env known (bind m k) Q.
Proof.
  intros Hm Hk s. unfold bind. destruct (Hm s) as (l1 & E1 & S1 & Hq).
  destruct (m s) as [[a | e | | ] s1]; cbn [fst snd] in *;
    try (exists l1; split; [done|]; split; [done|]; discriminate).
  destruct (Hk a _ (Hq a eq_refl) s1) as (l2 & E2 & S2 & Hq2).
  exists (l1 ++ l2). rewrite E2, E1, app_assoc, cidScan_app, knownAfter_app, S1, S2. done.
Qed.

Lemma carries_bind_free {A B} known (m : M A) (k : A -> M B) Q :
  emitsOnly (fun e => negb (isPut e || isSubmitTx e)) m ->
  (forall a, carries env known (k a) Q) ->
  carries env known (bind m k) Q.
Proof.
  intros Hm Hk. eapply carries_bind; [by apply carries_free|]. by intros a known' ->.
Qed.

Lemma carries_wrapErr {A} known msg (m : M A) Q :
  carries env known m Q -> carries env known (wrapErr msg m) Q.
Proof.
  intros Hm s. unfold wrapErr. destruct (Hm s) as (l & E & Sc & Hq).
  exists l. destruct (m s) as [[a | e | | ] s1]; cbn [fst snd] in *; done.
Qed.

Lemma carries_any {A} known (m : M A) Q :
  carries env known m Q -> carries env known m (fun _ _ => True).
Proof. intros Hm s. destruct (Hm s) as (l & E & Sc & _). by exists l. Qed.

Lemma carries_orHandle {A} known msg (m : M A) (k : A -> M unit) Q1 :
  carries env known m Q1 ->
  (forall a known', Q1 a known' -> carries env known' (k a) (fun _ _ => True)) ->
  carries env known (orHandle msg m k) (fun _ _ => True).
Proof.
  intros Hm Hk s. unfold orHandle. destruct (Hm s) as (l1 & E1 & S1 & Hq).
  destruct (m s) as [[a | e | | ] s1]; cbn [fst snd] in *;
    try (exists l1; split; [done|]; split; done).
  - destruct (Hk a _ (Hq a eq_refl) s1) as (l2 & E2 & S2 & _).
    exists (l1 ++ l2). rewrite E2, E1, app_assoc, cidScan_app, S1, S2. done.
  - rewrite handleError_eq. cbn [snd trace].
    exists (l1 ++ [EvErrLog (ErrWrap msg e); EvErrLogFailed; EvLock; EvSetRunning false;
                   EvUnlock]).
    rewrite E1, app_assoc, cidScan_app, S1. done.
Qed.

Lemma carries_orHandle_free {A} known msg (m : M A) (k : A -> M unit) :
  emitsOnly (fun e => negb (isPut e || isSubmitTx e)) m ->
  (forall a, carries env known (k a) (fun _ _ => True)) ->
  carries env known (orHandle msg m k) (fun _ _ => True).
Proof.
  intros Hm Hk. eapply carries_orHandle; [by apply carries_free|]. by intros a known' ->.
Qed.

(** An upload that returns a CID has made it known. *)
Lemma carries_upload known data compressedPath description :
  carries env known (uploadFileToWeb3Storage env data compressedPath description)
    (fun cid known' => In cid known').
Proof.
  intros s. unfold uploadFileToWeb3Storage.
  destruct (String.eqb (Web3StorageApiToken env) "").
  { exists []. cbn. rewrite app_nil_r. by repeat split. }
  destruct (w3s_NewClient env) as [e|].
  { exists []. cbn. rewrite app_nil_r. by repeat split. }
  destruct (os_Create env compressedPath) as [e|].
  { exists [EvCreate compressedPath false]. cbn. by repeat split. }
  destruct (File_Write env compressedPath (zstd_EncodeAll env data)) as [e|].
  { exists [EvCreate compressedPath true;
            EvFileWrite compressedPath (zstd_EncodeAll env data) false].
    cbn. rewrite <- app_assoc. by repeat split. }
  destruct (w3s_Put env (zstd_EncodeAll env data)) as [cid | e] eqn:Hput.
  - exists [EvCreate compressedPath true;
            EvFileWrite compressedPath (zstd_EncodeAll env data) true;
            EvPut (zstd_EncodeAll env data) true].
    cbn. rewrite <- !app_assoc, Hput. split; [done|]. split; [done|].
    intros a [= <-]. by left.
  - exists [EvCreate compressedPath true;
            EvFileWrite compressedPath (zstd_EncodeAll env data) true;
            EvPut (zstd_EncodeAll env data) false].
    cbn. rewrite <- !app_assoc. by repeat split.
Qed.

(** A submission sends its transaction with the CID it was given. *)
Lemma carries_submit known index consensusBlock executionBlock rewardsFile cid intervalsPassed :
  In cid known ->
  carries env known
    (submitRewardsSnapshot env index consensusBlock executionBlock rewardsFile cid
       intervalsPassed)
    (fun _ _ => True).
Proof.
  intros Hcid s.
  assert (Hknown : existsb (String.eqb cid) known = true).
  { apply existsb_exists. exists cid. split; [done | apply String.eqb_refl]. }
  unfold submitRewardsSnapshot.
  destruct (hex_DecodeString env (RemovePrefix env (MerkleRoot rewardsFile))) as [root | e].
  2: { exists []. cbn. rewrite app_nil_r. by repeat split. }
  rewrite (bind_Ok _ _ s root s) by reflexivity.
  destruct (networkArrays (NetworkRewards rewardsFile)) as [arrays | e | |].
  2,3,4: exists []; cbn; rewrite app_nil_r; by repeat split.
  rewrite (bind_Ok _ _ s arrays s) by reflexivity.
  destruct (GetNodeAccountTransactor env) as [opts | e].
  2: { exists []. cbn. rewrite app_nil_r. by repeat split. }
  rewrite (bind_Ok _ _ s opts s) by reflexivity.
  match goal with
  | |- context [EvEstimateGas ?sub] => set (submission := sub)
  end.
  destruct (EstimateSubmitRewardSnapshotGas env submission opts) as [gas | e].
  2: { exists [EvEstimateGas submission]. unfold bind, wrapErr, lift, emit. cbn.
       by repeat split. }
  rewrite (bind_Ok _ _ s gas (after s [EvEstimateGas submission])).
  2: { apply wrapErr_Ok. by rewrite (bind_Ok _ _ _ _ _ (emit_eq _ _)). }
  destruct (PrintAndCheckGasInfo env gas (MaxFeeWei env)); cbn [negb].
  2: { exists [EvEstimateGas submission]. cbn. by repeat split. }
  match goal with
  | |- context [EvSubmitTx submission ?o] => set (sending := o)
  end.
  destruct (SubmitRewardSnapshot env submission sending) as [hash | e].
  2: { exists [EvEstimateGas submission; EvSubmitTx submission sending].
       unfold bind, lift, emit. cbn. rewrite <- app_assoc. cbn. rewrite Hknown.
       by repeat split. }
  exists [EvEstimateGas submission; EvSubmitTx submission sending; EvWaitTx hash].
  unfold bind, lift, liftE, emit. cbn [after trace fs isRunning fst snd].
  destruct (PrintAndWaitForTransaction env hash) as [e|]; cbn;
    rewrite <- !app_assoc; cbn; rewrite Hknown; by repeat split.
Qed.

Ltac carries_quiet :=
  first [ apply carries_bind_free; [solve [emits] | intros ?]
        | apply carries_orHandle_free; [solve [emits] | intros ?] ].

Lemma carries_resumeStored known nodeAccount nodeTrusted intervalsPassed slot elBlockIndex
    currentIndexBig currentIndex path compressedPath :
  carries env known
    (resumeStored env nodeAccount nodeTrusted intervalsPassed slot elBlockIndex
       currentIndexBig currentIndex path compressedPath)
    (fun _ _ => True).
Proof.
  unfold resumeStored. destruct (negb nodeTrusted).
  { eapply carries_any, carries_free. emits. }
  carries_quiet. destruct a.
  { by apply carries_ret. }
  repeat carries_quiet.
  eapply carries_bind; [apply carries_wrapErr, carries_upload|].
  intros cid known' Hcid. cbv beta in Hcid.
  carries_quiet.
  eapply carries_bind; [apply carries_wrapErr; by apply carries_submit|].
  intros _ known'' _. eapply carries_any, carries_free. emits.
Qed.

Lemma carries_generationTask known tk :
  carries env known (generationTask env tk) (fun _ _ => True).
Proof.
  unfold generationTask.
  repeat carries_quiet.
  eapply carries_orHandle.
  { instantiate (1 := fun _ known' => tkNodeTrusted tk = false \/ True).
    destruct (tkNodeTrusted tk).
    - carries_quiet.
      eapply carries_bind; [apply carries_upload|]. intros cid known' _.
      carries_quiet. apply carries_ret. by right.
    - carries_quiet. apply carries_ret. by left. }
  intros rewardsFile known' _.
  repeat carries_quiet.
  destruct (tkNodeTrusted tk).
  2: { eapply carries_any, carries_free. unfold lock, unlock. emits. }
  carries_quiet.
  eapply carries_orHandle; [apply carries_upload|].
  intros cid known'' Hcid. cbv beta in Hcid.
  carries_quiet.
  eapply carries_orHandle; [by apply carries_submit|].
  intros _ known3 _. eapply carries_any, carries_free. unfold lock, unlock. emits.
Qed.

Lemma carries_run known fuel : carries env known (run env fuel) (fun _ _ => True).
Proof.
  unfold run, runInterval, resumeOrGenerate.
  repeat first [ carries_quiet
               | match goal with
                 | |- carries _ _ (if ?b then _ else _) _ => destruct b
                 end
               | by apply carries_ret ].
  - eapply carries_bind; [apply carries_resumeStored|].
    intros _ known' _. by apply carries_ret.
Qed.

Lemma cidScan_sound l : forall known,
  cidScan env known l = true ->
  forall pre submission o post,
    l = pre ++ EvSubmitTx submission o :: post ->
    In (MerkleTreeCID submission) known \/
    exists data, In (EvPut data true) pre /\ w3s_Put env data = Got (MerkleTreeCID submission).
Proof.
  induction l as [|e l IH]; intros known Hscan pre submission o post Heq.
  - by destruct pre.
  - destruct pre as [|e' pre]; cbn in Heq; injection Heq as -> ->.
    + cbn in Hscan. apply andb_prop in Hscan as [Hin _]. left.
      apply existsb_exists in Hin as (c & Hc & Heq). apply String.eqb_eq in Heq as ->. done.
    + assert (Hstep : forall known',
                cidScan env known' (pre ++ EvSubmitTx submission o :: post) = true ->
                (forall c, In c known' ->
                   In c known \/ exists data, e' = EvPut data true /\ w3s_Put env data = Got c) ->
                In (MerkleTreeCID submission) known \/
                exists data, In (EvPut data true) (e' :: pre) /\
                             w3s_Put env data = Got (MerkleTreeCID submission)).
      { intros known' Hs Hk.
        destruct (IH known' Hs pre submission o post eq_refl) as [Hin | (data & Hin & Hd)].
        - destruct (Hk _ Hin) as [? | (data & -> & Hd)]; [by left|].
          right. exists data. split; [by left | done].
        - right. exists data. split; [by right | done]. }
      destruct e'; cbn in Hscan; try (apply (Hstep known Hscan); by left).
      * destruct ok; [|apply (Hstep known Hscan); by left].
        destruct (w3s_Put env data) as [c0 | e0] eqn:Hput;
          [|apply (Hstep known Hscan); by left].
        apply (Hstep _ Hscan). intros c [<- | Hc]; [|by left]. right. by exists data.
      * apply andb_prop in Hscan as [_ Hscan]. apply (Hstep known Hscan). by left.
Qed.

End Cids.

(** Whatever goes on chain was uploaded first: every transaction that one
    invocation sends -- from [run] when it resubmits a stored file, or from
    the background task -- carries as its Merkle tree CID the CID that the
    storage service answered for an upload made earlier in that
    invocation. *)
Theorem submitted_cid_comes_from_an_upload
    (env : Env) (fuel : nat) (s : State)
    (pre : list event) (submission : RewardSubmission) (o : TransactOpts) (post : list event) :
  newEvents s (snd (runThenTask env fuel s)) = pre ++ EvSubmitTx submission o :: post ->
  exists data,
    In (EvPut data true) pre /\ w3s_Put env data = Got (MerkleTreeCID submission).
Proof.
  intros Hsplit.
  assert (Hc : carries env [] (runThenTask env fuel) (fun _ _ => True)).
  { unfold runThenTask. eapply carries_bind; [apply carries_run|].
    intros [tk|] known' _; [apply carries_generationTask | by apply carries_ret]. }
  destruct (Hc s) as (l & Htrace & Hscan & _).
  rewrite (newEvents_eq _ _ _ Htrace) in Hsplit.
  destruct (cidScan_sound env l [] Hscan pre submission o post Hsplit) as [[] | H]. exact H.
Qed.

Lemma submitted_cid_comes_from_an_upload_witness :
  let env := Scenario.envOf (Scenario.knobs true 2250 5 false true) in
  let events := newEvents Scenario.emptyState (snd (runThenTask env 10 Scenario.emptyState)) in
  exists data,
    In (EvPut data true) (firstn 29 events) /\ w3s_Put env data = Got "cid-1"%string.
Proof.
  intros env events.
  apply (submitted_cid_comes_from_an_upload env 10 Scenario.emptyState
           (firstn 29 events)
           {| RewardIndex := 7; ExecutionBlock := 5127; ConsensusBlock := 127;
              SubMerkleRoot := Scenario.rootBytes; MerkleTreeCID := "cid-1";
              IntervalsPassed := 2; TreasuryRPL := 5;
              NodeRPL := [10; 20; 30]; TrustedNodeRPL := [11; 21; 31];
              NodeETH := [12; 22; 32] |}
           {| From := [Byte.x01]; GasFeeCap := 200; GasTipCap := 3; GasLimit := 150 |}
           (skipn 30 events)).
  vm_compute. reflexivity.
Defined.

Import Ending.

(** ** The background task ends with its last line or in [handleError] *)

Lemma steadily_of {A} (m : M A) :
  quietly m -> emitsOnly (fun e => negb (isDoneLine e)) m -> steadily m.
Proof.
  intros Hq He s. destruct (Hq s) as (l & E & F & R & O).
  destruct (He s) as (l' & E' & F').
  rewrite E in E'. apply app_inv_head in E'. subst l'.
  exists l. split; [done|]. split; [|done].
  unfold isStep. rewrite forallb_forall in *. intros e Hin.
  by rewrite (F e Hin), (F' e Hin).
Qed.

Section Finishing.
Variables (done : event) (C : Prop).

Lemma ending_app l1 l2 :
  forallb isStep l1 = true -> ending done C l2 -> ending done C (l1 ++ l2).
Proof.
  intros H1 [(l0 & -> & H0 & HC) | (l0 & msg & e & -> & H0)].
  - left. exists (l1 ++ l0). split; [by rewrite app_assoc|].
    split; [by rewrite forallb_app, H1, H0 | done].
  - right. exists (l1 ++ l0), msg, e. split; [by rewrite app_assoc|].
    by rewrite forallb_app, H1, H0.
Qed.

Lemma finishing_handleError msg e : finishing done C (handleError (ErrWrap msg e)).
Proof.
  intros s. rewrite handleError_eq. eexists _, [EvErrLog (ErrWrap msg e); EvErrLogFailed].
  split; [reflexivity|]. split; [reflexivity|]. split; [reflexivity|].
  right. by exists [], msg, e.
Qed.

(** The last statements of the task: its last line, then the flag is
    cleared under the lock. *)
Lemma finishing_done :
  C ->
  finishing done C
    (bind (emit done) (fun _ => bind lock (fun _ => bind (setRunning false) (fun _ => unlock)))).
Proof.
  intros HC s. eexists _, [done]. unfold lock, unlock, bind, setRunning, emit. simpl.
  split; [reflexivity|]. split; [reflexivity|]. split; [by rewrite <- !app_assoc|].
  left. by exists [].
Qed.

Lemma finishing_bind {A} (m : M A) (k : A -> M unit) :
  steadily m -> (forall s, is_Ok (fst (m s)) = true) -> (forall a, finishing done C (k a)) ->
  finishing done C (bind m k).
Proof.
  intros Hm Hok Hk s. unfold bind.
  destruct (Hm s) as (l1 & E1 & F1 & R1 & O1). specialize (Hok s).
  destruct (m s) as [[a | e | | ] s1]; simpl in *; try done.
  destruct (Hk a s1) as (s' & l2 & E2 & R2 & T2 & W2).
  exists s', (l1 ++ l2).
  split; [done|]. split; [done|]. split; [by rewrite T2, E1, <- !app_assoc|].
  by apply ending_app.
Qed.

Lemma finishing_emit e (k : M unit) :
  isStep e = true -> finishing done C k -> finishing done C (bind (emit e) (fun _ => k)).
Proof.
  intros He Hk. apply finishing_bind; [| done | done].
  intros s. exists [e]. simpl. by rewrite He.
Qed.

(** [orHandle]: a value of [m] tells [Q] about the collaborators, and the
    next step [k] goes on from there; an error of [m] ends in
    [handleError]. *)
Lemma finishing_orHandle {A} (Q : A -> Prop) msg (m : M A) (k : A -> M unit) :
  steadily m -> (forall s a, fst (m s) = Ok a -> Q a) ->
  (forall a, Q a -> finishing done C (k a)) ->
  finishing done C (orHandle msg m k).
Proof.
  intros Hm HQ Hk s. unfold orHandle.
  destruct (Hm s) as (l1 & E1 & F1 & R1 & O1). specialize (HQ s).
  destruct (m s) as [[a | e | | ] s1]; simpl in E1, R1, O1, HQ; try done.
  - destruct (Hk a (HQ a eq_refl) s1) as (s' & l2 & E2 & R2 & T2 & W2).
    exists s', (l1 ++ l2).
    split; [done|]. split; [done|]. split; [by rewrite T2, E1, <- !app_assoc|].
    by apply ending_app.
  - destruct (finishing_handleError msg e s1) as (s' & l2 & E2 & R2 & T2 & W2).
    exists s', (l1 ++ l2).
    split; [done|]. split; [done|]. split; [by rewrite T2, E1, <- !app_assoc|].
    by apply ending_app.
Qed.

End Finishing.

Ltac steady := apply steadily_of; [repeat quiet_step | emits].

(** *** What a call that returns tells about its collaborators *)

Lemma WriteFile_returns env path data s a :
  fst (WriteFile env path data s) = Ok a -> ioutil_WriteFile env path data = WriteOk.
Proof.
  unfold WriteFile. destruct (ioutil_WriteFile env path data) as [|e [partial|]]; [done| |];
    unfold bind, emit, setFile, fail, ret; cbn; discriminate.
Qed.

Lemma uploadFileToWeb3Storage_returns env data compressedPath description s cid :
  fst (uploadFileToWeb3Storage env data compressedPath description s) = Ok cid ->
  uploads env compressedPath data cid.
Proof.
  unfold uploadFileToWeb3Storage, uploads.
  destruct (String.eqb (Web3StorageApiToken env) ""); [discriminate|].
  destruct (w3s_NewClient env) as [e|]; [discriminate|].
  destruct (os_Create env compressedPath) as [e|]; [discriminate|].
  destruct (File_Write env compressedPath (zstd_EncodeAll env data)) as [e|]; [discriminate|].
  destruct (w3s_Put env (zstd_EncodeAll env data)) as [cid' | e]; [|discriminate].
  cbn. intros [= <-]. done.
Qed.

Lemma submitRewardsSnapshot_returns env index cb eb rewardsFile cid intervalsPassed s a :
  fst (submitRewardsSnapshot env index cb eb rewardsFile cid intervalsPassed s) = Ok a ->
  submissionReturnsNil env index cb eb rewardsFile cid intervalsPassed.
Proof.
  unfold submitRewardsSnapshot, submissionReturnsNil.
  destruct (hex_DecodeString env (RemovePrefix env (MerkleRoot rewardsFile))) as [root | e];
    [|discriminate].
  rewrite (bind_Ok _ _ s root s) by reflexivity.
  destruct (networkArrays (NetworkRewards rewardsFile)) as [arrays | e | |] eqn:Harr;
    try discriminate.
  rewrite (bind_Ok _ _ s arrays s) by reflexivity.
  destruct (GetNodeAccountTransactor env) as [opts | e]; [|discriminate].
  rewrite (bind_Ok _ _ s opts s) by reflexivity.
  fold (submissionOf env index cb eb rewardsFile root cid intervalsPassed arrays).
  set (submission := submissionOf env index cb eb rewardsFile root cid intervalsPassed arrays).
  destruct (EstimateSubmitRewardSnapshotGas env submission opts) as [gas | e] eqn:Hgas.
  2: { unfold bind, wrapErr, lift, emit. discriminate. }
  rewrite (bind_Ok _ _ s gas (after s [EvEstimateGas submission])).
  2: { apply wrapErr_Ok. by rewrite (bind_Ok _ _ _ _ _ (emit_eq _ _)). }
  intros Hret. exists root, arrays, opts, gas. repeat (split; [done|]).
  destruct (PrintAndCheckGasInfo env gas (MaxFeeWei env)); [right | by left].
  cbn [negb] in Hret. unfold sendOpts.
  match type of Hret with
  | context [SubmitRewardSnapshot env submission ?o] =>
      destruct (SubmitRewardSnapshot env submission o) as [hash | e] eqn:Hsend
  end.
  2: { unfold bind, lift, emit in Hret. discriminate. }
  exists hash. split; [done|].
  destruct (PrintAndWaitForTransaction env hash) as [e|] eqn:Hwait; [|done].
  unfold bind, lift, liftE, emit in Hret. cbn in Hret. rewrite ?Hwait in Hret.
  cbn in Hret. discriminate.
Qed.

(** C9. Guard release on failure.  [handleError] writes the error and the
    failure line and clears [isRunning] between [Lock] and [Unlock].  The
    background task, whatever its collaborators answer, runs to its end,
    and the flag is down when it ends: after raising the flag under the
    lock it touches neither lock nor flag until its last three steps,
    [Lock], [isRunning = false], [Unlock].  What comes right before them
    is one of two things.  Either the last log line of the task (line 336
    or 338), and then no call of the task has failed: every collaborator
    it asked has answered without an error.  Or the two lines of
    [handleError] for a wrapped error, so that the clearing is the one of
    [handleError]: a task in which any call fails ends in [handleError]. *)
Theorem generationTask_releases_guard (env : Env) (tk : Task) (s : State) :
  boundedBuilder env ->
  (forall err s0,
     handleError err s0 =
       (Ok tt, {| isRunning := false; fs := fs s0;
                  trace := trace s0 ++ [EvErrLog err; EvErrLogFailed; EvLock;
                                        EvSetRunning false; EvUnlock] |})) /\
  exists s' l,
    generationTask env tk s = (Ok tt, s') /\
    isRunning s' = false /\
    trace s' = trace s ++ [EvLock; EvSetRunning true; EvUnlock] ++ l
                 ++ [EvLock; EvSetRunning false; EvUnlock] /\
    ((exists l0,
        l = l0 ++ [taskDoneLine tk] /\ forallb isStep l0 = true /\ taskCompletes env tk) \/
     (exists l0 msg e,
        l = l0 ++ [EvErrLog (ErrWrap msg e); EvErrLogFailed] /\ forallb isStep l0 = true)).
Proof.
  intros Hb. split; [apply handleError_eq|].
  set (s1 := {| isRunning := true; fs := fs s;
                trace := trace s ++ [EvLock; EvSetRunning true; EvUnlock] |}).
  assert (Hrest : forall rest : M unit,
    finishing (taskDoneLine tk) (taskCompletes env tk) rest ->
    exists s' l, bind lock (fun _ => bind (setRunning true) (fun _ => bind unlock (fun _ => rest))) s
                 = (Ok tt, s') /\ isRunning s' = false /\
      trace s' = trace s ++ [EvLock; EvSetRunning true; EvUnlock] ++ l
                   ++ [EvLock; EvSetRunning false; EvUnlock] /\
      ending (taskDoneLine tk) (taskCompletes env tk) l).
  { intros rest Hrest. destruct (Hrest s1) as (s' & l & E & R & T & W).
    exists s', l. unfold lock, unlock, bind, setRunning, emit. simpl.
    rewrite <- !app_assoc. simpl. fold s1. rewrite E.
    split; [done|]. split; [done|]. split; [|done].
    rewrite T. unfold s1. simpl. by rewrite <- !app_assoc. }
  unfold generationTask. apply Hrest. clear Hrest s1 s.
  unfold taskDoneLine, taskCompletes. cbn zeta.
  set (useArchive := negb (String.eqb (ArchiveECUrl env) "")).
  apply finishing_bind; [steady | by intros s; destruct (1 <? _) | intros _].
  apply finishing_emit; [done|].
  apply (finishing_orHandle _ _
           (fun _ => useArchive = true -> ethclient_Dial env (ArchiveECUrl env) = None));
    [steady | | intros _ Hdial].
  { intros s a. destruct useArchive; [|done].
    unfold bind, emit, liftE. destruct (ethclient_Dial env _); cbn; [discriminate | done]. }
  apply (finishing_orHandle _ _ (fun _ => useArchive = true -> NewRocketPool env = None));
    [steady | | intros _ Hpool].
  { intros s a. destruct useArchive; [|done].
    unfold liftE. destruct (NewRocketPool env); cbn; [discriminate | done]. }
  assert (Harch : archiveReady env) by (intros Hua; split; [by apply Hdial | by apply Hpool]).
  clear Hdial Hpool.
  apply (finishing_orHandle _ _
           (fun f => GenerateTree env (NewRewardsFile tk) useArchive = Got f));
    [steady | | intros rewardsFile Hgen].
  { intros s a. unfold bind, emit, lift. cbn.
    destruct (GenerateTree env _ _); cbn; [by intros [= <-] | discriminate]. }
  assert (Hfile : boundedFile rewardsFile) by (by eapply Hb).
  apply finishing_bind;
    [apply steadily_of; [apply quietly_logInvalidNetworkNodes | emits]
    | by intros s; rewrite logInvalidNetworkNodes_eq | intros _].
  apply (finishing_orHandle _ _
           (fun b => json_Marshal_performance env (MinipoolPerformance rewardsFile) = Got b));
    [steady | | intros performanceBytes Hperf].
  { intros s a. unfold lift.
    destruct (json_Marshal_performance env _); cbn; [by intros [= <-] | discriminate]. }
  apply (finishing_orHandle _ _
           (fun _ => ioutil_WriteFile env (tkMinipoolPerformancePath tk) performanceBytes
                     = WriteOk));
    [apply steadily_of; [apply quietly_WriteFile | emits]
    | intros s a; apply WriteFile_returns | intros _ Hwperf].
  destruct (tkNodeTrusted tk).
  - (* an Oracle DAO node *)
    apply (finishing_orHandle _ _
             (fun f => exists performanceCid,
                uploads env (tkCompressedMinipoolPerformancePath tk) performanceBytes
                  performanceCid /\
                f = set_MinipoolPerformanceFileCID performanceCid rewardsFile)).
    { apply steadily_of; [|emits]. repeat quiet_step.
      apply quietly_uploadFileToWeb3Storage. }
    { intros s a. unfold bind at 1. rewrite emit_eq. unfold bind at 1.
      destruct (uploadFileToWeb3Storage env _ _ _ _) as [[cid | | | ] s1] eqn:Hup;
        cbn; try discriminate.
      intros [= <-]. exists cid. split; [|done].
      eapply uploadFileToWeb3Storage_returns. by rewrite Hup. }
    intros rewardsFile' (performanceCid & Hupperf & ->).
    apply (finishing_orHandle _ _
             (fun b => json_Marshal_rewards env
                         (set_MinipoolPerformanceFileCID performanceCid rewardsFile) = Got b));
      [steady | | intros wrapperBytes Htree].
    { intros s a. unfold lift.
      destruct (json_Marshal_rewards env _); cbn; [by intros [= <-] | discriminate]. }
    apply finishing_emit; [done|].
    apply (finishing_orHandle _ _
             (fun _ => ioutil_WriteFile env (tkPath tk) wrapperBytes = WriteOk));
      [apply steadily_of; [apply quietly_WriteFile | emits]
      | intros s a; apply WriteFile_returns | intros _ Hwtree].
    apply finishing_emit; [done|].
    apply (finishing_orHandle _ _
             (fun cid => uploads env (tkCompressedPath tk) wrapperBytes cid));
      [apply steadily_of; [apply quietly_uploadFileToWeb3Storage | emits]
      | intros s a; apply uploadFileToWeb3Storage_returns | intros cid Hup].
    apply finishing_emit; [done|].
    apply (finishing_orHandle _ _
             (fun _ => submissionReturnsNil env (tkCurrentIndexBig tk)
                         (tkSnapshotBeaconBlock tk) (tkElBlockIndex tk)
                         (set_MinipoolPerformanceFileCID performanceCid rewardsFile)
                         cid (tkIntervalsPassed tk))).
    { apply steadily_of; [|emits]. apply quietly_submitRewardsSnapshot.
      unfold boundedFile in *. by rewrite set_cid_NetworkRewards. }
    { intros s a. apply submitRewardsSnapshot_returns. }
    intros _ Hsubmit.
    apply finishing_done.
    exists rewardsFile, performanceBytes, wrapperBytes.
    repeat (split; [done|]). by exists performanceCid, cid.
  - (* a node that only generates *)
    apply (finishing_orHandle _ _
             (fun f => f = set_MinipoolPerformanceFileCID "---" rewardsFile)).
    { steady. }
    { intros s a. unfold bind, emit, ret. cbn. by intros [= <-]. }
    intros rewardsFile' ->.
    apply (finishing_orHandle _ _
             (fun b => json_Marshal_rewards env
                         (set_MinipoolPerformanceFileCID "---" rewardsFile) = Got b));
      [steady | | intros wrapperBytes Htree].
    { intros s a. unfold lift.
      destruct (json_Marshal_rewards env _); cbn; [by intros [= <-] | discriminate]. }
    apply finishing_emit; [done|].
    apply (finishing_orHandle _ _
             (fun _ => ioutil_WriteFile env (tkPath tk) wrapperBytes = WriteOk));
      [apply steadily_of; [apply quietly_WriteFile | emits]
      | intros s a; apply WriteFile_returns | intros _ Hwtree].
    apply finishing_done.
    by exists rewardsFile, performanceBytes, wrapperBytes.
Qed.

(** A trusted node without a credential for the storage service: the
    upload of the performance file fails, and the task ends in
    [handleError], which clears the flag. *)
Lemma generationTask_releases_guard_witness :
  let env := Cases.withToken (Scenario.envOf (Scenario.knobs true 2250 5 false true)) "" in
  let tk := Scenario.sampleTask true in
  (taskCompletes env tk -> False) /\
  exists s' l0 msg e,
    generationTask env tk Scenario.emptyState = (Ok tt, s') /\
    isRunning s' = false /\
    trace s' = [EvLock; EvSetRunning true; EvUnlock] ++ l0 ++
               [EvErrLog (ErrWrap msg e); EvErrLogFailed;
                EvLock; EvSetRunning false; EvUnlock].
Proof.
  intros env tk.
  assert (Hfails : taskCompletes env tk -> False).
  { intros (f & pb & wb & _ & _ & _ & _ & Hrest). cbn in Hrest.
    destruct Hrest as (pc & cid & (Htoken & _) & _). vm_compute in Htoken.
    discriminate Htoken. }
  split; [exact Hfails|].
  destruct (generationTask_releases_guard env tk Scenario.emptyState) as [_ Hends].
  { intros args archive rewardsFile [= <-]. unfold boundedFile. vm_compute. reflexivity. }
  destruct Hends as (s' & l & Hrun & Hflag & Htrace & [(l0 & _ & _ & HC) | (l0 & msg & e & -> & _)]).
  - destruct (Hfails HC).
  - exists s', l0, msg, e. split; [exact Hrun|]. split; [exact Hflag|].
    rewrite Htrace. cbn [trace Scenario.emptyState app]. by rewrite <- app_assoc.
Defined.

Import Resolving.

(** ** The execution block header: asked for once, and used *)

Lemma sameHeader_refl h : sameHeader h h = true.
Proof. unfold sameHeader. by rewrite !Z.eqb_refl. Qed.

Ltac block_check :=
  first [ reflexivity
        | cbn; rewrite ?sameHeader_refl, ?Z.eqb_refl; reflexivity ].

(** Lines 152-160, with what follows them as [k]: one question, and [k]
    goes on with the answer. *)
Lemma resolveElHeader_bind {B} env elBlockNumber t (k : Header -> M B) s :
  bind (resolveElHeader env elBlockNumber t) k s =
    bind (lift (if elBlockNumber =? 0 then GetELBlockHeaderForTime env t
                else HeaderByNumber env (Some (wrap_i64 elBlockNumber))))
         k
         (after s [if elBlockNumber =? 0 then EvHeaderForTime t
                   else EvHeaderByNumber (Some (wrap_i64 elBlockNumber))]).
Proof. unfold resolveElHeader. by destruct (elBlockNumber =? 0). Qed.

(** The background task works on the blocks it was started with. *)
Lemma generationTask_usesBlock env tk :
  emitsOnly (usesBlock (tkSnapshotElBlockHeader tk) (tkElBlockIndex tk)
               (tkSnapshotBeaconBlock tk))
    (generationTask env tk).
Proof. emits_by block_check. Qed.

Lemma forallb_both {A} (P Q : A -> bool) l :
  forallb P l = true -> forallb Q l = true -> forallb (fun x => P x && Q x) l = true.
Proof.
  rewrite !forallb_forall. intros HP HQ x Hx. by rewrite (HP x Hx), (HQ x Hx).
Qed.

(** C5. Execution reference resolution.  Once a consensus block is
    selected, [run] asks for the execution block header exactly once: by
    the number the consensus block carries when that number is not zero,
    and by a search at the reference timestamp when it is zero (no
    execution block: before the merge); nothing else in the invocation asks
    for a header in either way.  The answer is what the invocation goes on
    with.  An error is returned as it is, and nothing more is done.  A
    header becomes the execution block of everything that follows: of the
    submission that the resume path estimates and sends, of the task that
    is started, and in that task of the tree that is built and of the
    submission. *)
Theorem run_resolves_execution_block_once
    (env : Env) (fuel : nat) (nodeAccount : Address) (nodeTrusted : bool)
    (startTime endTime : Time) (intervalsPassed : Duration) (s s1 : State)
    (slot elBlockNumber : Z) (referenceTime : Time) :
  getSnapshotConsensusBlock env fuel endTime s = (Ok (slot, elBlockNumber, referenceTime), s1) ->
  let query := if elBlockNumber =? 0
               then EvHeaderForTime referenceTime
               else EvHeaderByNumber (Some (wrap_i64 elBlockNumber)) in
  let answer := if elBlockNumber =? 0
                then GetELBlockHeaderForTime env referenceTime
                else HeaderByNumber env (Some (wrap_i64 elBlockNumber)) in
  let r := runInterval env fuel nodeAccount nodeTrusted startTime endTime intervalsPassed s in
  List.filter isResolve (newEvents s (snd r)) = [query] /\
  (0 < elBlockNumber < 2 ^ 63 -> wrap_i64 elBlockNumber = elBlockNumber) /\
  (forall e, answer = Failed e -> r = (Err e, after s1 [query])) /\
  (forall header,
     answer = Got header ->
     let elBlockIndex := big_Uint64 (Number header) in
     forallb (usesBlock header elBlockIndex slot) (newEvents s (snd r)) = true /\
     forall tk,
       fst r = Ok (Some tk) ->
       tkSnapshotElBlockHeader tk = header /\
       tkElBlockIndex tk = elBlockIndex /\
       tkSnapshotBeaconBlock tk = slot /\
       forall s2,
         forallb (usesBlock header elBlockIndex slot)
           (newEvents s2 (snd (generationTask env tk s2))) = true).
Proof.
  intros Hsnap query answer r. subst r.
  assert (Hsel : emitsOnly (fun e => negb (isResolve e))
                   (getSnapshotConsensusBlock env fuel endTime)) by emits.
  destruct (Hsel s) as (l0 & E0 & F0). rewrite Hsnap in E0. cbn [snd] in E0.
  assert (Hform : exists K : Header -> M (option Task),
         runInterval env fuel nodeAccount nodeTrusted startTime endTime intervalsPassed s =
           bind (lift answer) K (after s1 [query]) /\
         (forall header, emitsOnly (fun e => negb (isResolve e)) (K header)) /\
         (forall header,
            emitsPost (usesBlock header (big_Uint64 (Number header)) slot)
              (fun started => forall tk, started = Some tk ->
                 tkSnapshotElBlockHeader tk = header /\
                 tkElBlockIndex tk = big_Uint64 (Number header) /\
                 tkSnapshotBeaconBlock tk = slot)
              (K header))).
  { eexists. split; [|split].
    - unfold runInterval. rewrite (bind_Ok _ _ _ _ _ Hsnap). cbn [fst snd].
      rewrite resolveElHeader_bind. reflexivity.
    - intros header. cbv beta. emits.
    - intros header. cbv beta.
      apply emitsPost_bind_any; [emits_by block_check | intros currentIndexBig].
      apply emitsPost_bind_any; [emits_by block_check | intros _].
      apply emitsPost_bind_any; [emits_by block_check | intros running].
      destruct running.
      + apply emitsPost_bind_any; [emits_by block_check | intros _].
        apply emitsPost_bind_any; [emits_by block_check | intros _].
        by apply emitsPost_ret.
      + apply emitsPost_bind_any; [emits_by block_check | intros _].
        unfold resumeOrGenerate.
        apply emitsPost_bind_any; [emits_by block_check | intros stat].
        destruct (negb (os_IsNotExist stat)).
        * apply emitsPost_bind_any; [emits_by block_check | intros _].
          by apply emitsPost_ret.
        * apply emitsPost_bind_any; [emits_by block_check | intros _].
          apply emitsPost_ret. by intros tk [= <-]. }
  destruct Hform as (K & Hr & Hquiet & Hpost).
  split; [|split; [intros H; apply wrap_i64_small; lia|]].
  - (* one question *)
    rewrite Hr. unfold newEvents, bind, lift.
    assert (Hev : isResolve query = true) by (unfold query; by destruct (elBlockNumber =? 0)).
    destruct answer as [header | e].
    + destruct (Hquiet header (after s1 [query])) as (l2 & E2 & F2).
      rewrite E2. cbn [after trace]. rewrite E0, <- !app_assoc, drop_app_length.
      rewrite !List.filter_app, (filter_forallb_negb _ _ F0), (filter_forallb_negb _ _ F2).
      simpl. by rewrite Hev.
    + cbn [snd after trace]. rewrite E0, <- !app_assoc, drop_app_length.
      rewrite !List.filter_app, (filter_forallb_negb _ _ F0). simpl. by rewrite Hev.
  - split.
    + (* an error goes back as it is *)
      intros e He. rewrite Hr, He. reflexivity.
    + (* a header is what everything after it works on *)
      intros header Hh elBlockIndex. subst elBlockIndex. rewrite Hr, Hh. unfold bind at 1 2, lift.
      destruct (Hpost header (after s1 [query])) as (l2 & E2 & F2 & Hq).
      split.
      * assert (Hbefore : emitsOnly (usesBlock header (big_Uint64 (Number header)) slot)
                            (getSnapshotConsensusBlock env fuel endTime))
          by emits_by block_check.
        destruct (Hbefore s) as (l0' & E0' & F0'). rewrite Hsnap in E0'. cbn [snd] in E0'.
        unfold newEvents. rewrite E2. cbn [after trace].
        rewrite E0', <- !app_assoc, drop_app_length, !forallb_app, F0', F2.
        unfold query. by destruct (elBlockNumber =? 0).
      * intros tk Htk. destruct (Hq (Some tk) Htk tk eq_refl) as (Hhead & Hind & Hslot).
        repeat (split; [done|]). intros s2.
        pose proof (emitsOnly_newEvents _ _ s2 (generationTask_usesBlock env tk)) as Htask.
        by rewrite Hhead, Hind, Hslot in Htask.
Qed.

(** After the merge: the header is asked for by the block number 5127 of
    the selected consensus block, and by nothing else; the task that is
    started works on the header that was answered. *)
Lemma run_resolves_execution_block_once_witness :
  let env := Scenario.envOf (Scenario.knobs true 2250 5 false true) in
  let r := runInterval env 10 [Byte.x01] true (Unix 2000) (Unix 2200) 2 Scenario.emptyState in
  List.filter isResolve (newEvents Scenario.emptyState (snd r)) =
    [EvHeaderByNumber (Some 5127)] /\
  exists tk,
    fst r = Ok (Some tk) /\
    HeaderByNumber env (Some 5127) = Got (tkSnapshotElBlockHeader tk) /\
    tkElBlockIndex tk = 5127 /\
    tkSnapshotBeaconBlock tk = 127.
Proof.
  intros env r.
  destruct (run_resolves_execution_block_once env 10 [Byte.x01] true (Unix 2000)
              (Unix 2200) 2 Scenario.emptyState
              (after Scenario.emptyState [EvGetBeaconBlock 127]) 127 5127
              (Unix (1000 + 4 * 384)) eq_refl) as (Hone & _ & _ & Huse).
  split; [exact Hone|].
  destruct (Huse {| Number := 5127; HeaderTime := 0 |} eq_refl) as [_ Htask].
  assert (Hstarted : exists tk, fst r = Ok (Some tk)) by (eexists; vm_compute; reflexivity).
  destruct Hstarted as [tk Htk]. exists tk.
  destruct (Htask tk Htk) as (Hhead & Hindex & Hslot & _).
  split; [exact Htk|]. rewrite Hhead. split; [reflexivity|]. split; [exact Hindex | exact Hslot].
Defined.
